(** * image-converter: a shallow embedding of the conversion core

    The development follows the Go packages of the repository:
    - [GoStrings], [Filepath]: the parts of Go's [strings] and
      [path/filepath] (Unix flavour) that the repository calls;
    - [Format]: [internal/converter/format.go];
    - [Filesystem]: the classifier of [internal/filesystem/filesystem.go];
    - [GoInt], [F64]: Go's [int] and [float64] on a 64-bit platform;
    - [Resize]: [internal/converter/resize.go];
    - [Converter]: [internal/converter/converter.go] with the loader and
      the saver it calls;
    - [Cli]: the validation of [internal/cli/parser.go];
    - [Os], [FileSystemManager]: the directory functions of
      [internal/filesystem/filesystem.go] and the calls of package [os]
      they make.

    Go strings are byte sequences; they are modelled by [string], whose
    characters are the bytes. *)

From Stdlib Require Import ZArith Lia Bool List Ascii String.
From Stdlib Require Import Permutation.
From Stdlib Require Import Uint63 Floats.
From Stdlib Require Import Reals Lra.
Import ListNotations.

Local Open Scope string_scope.

(** ** Results of fallible Go functions: [(T, error)] *)

Inductive result (A : Type) : Type :=
| Ok (a : A)
| Err (msg : string).
Arguments Ok {A} a.
Arguments Err {A} msg.

Definition is_ok {A} (r : result A) : bool :=
  match r with Ok _ => true | Err _ => false end.

(** ** Package [strings] *)

Module GoStrings.

(** ASCII lower-casing of one byte.  Bytes outside ['A'..'Z'] are left
    alone.  On a string of bytes below 128 this is Go's [strings.ToLower];
    Go additionally maps non-ASCII runes by the Unicode tables (two of
    them, U+0130 and U+212A, to the ASCII letters [i] and [k]), which is
    outside this model.  Every constant the repository compares a
    lower-cased string against is plain ASCII. *)
Definition lower_byte (c : ascii) : ascii :=
  let n := nat_of_ascii c in
  if (65 <=? n)%nat && (n <=? 90)%nat then ascii_of_nat (n + 32) else c.

Fixpoint ToLower (s : string) : string :=
  match s with
  | EmptyString => EmptyString
  | String c r => String (lower_byte c) (ToLower r)
  end.

(** [strings.HasSuffix] and [strings.TrimSuffix]. *)
Definition HasSuffix (s suffix : string) : bool :=
  let n := String.length s in
  let k := String.length suffix in
  (k <=? n)%nat && String.eqb (substring (n - k) k s) suffix.

Definition TrimSuffix (s suffix : string) : string :=
  if HasSuffix s suffix
  then substring 0 (String.length s - String.length suffix) s
  else s.

End GoStrings.

(** ** Package [path/filepath] on Unix *)

Module Filepath.

Definition Separator : ascii := "/"%char.

Definition IsPathSeparator (c : ascii) : bool := Ascii.eqb c Separator.

Definition chars (s : string) : list ascii := list_ascii_of_string s.
Definition str (l : list ascii) : string := string_of_list_ascii l.

(** [Ext]: the loop walks from the last byte towards the front, stops at
    a separator, and returns the suffix that starts at the first dot it
    meets.  [ext_scan] is that loop on the reversed path; [acc] is the
    part already walked over, in forward order. *)
Fixpoint ext_scan (rev_path acc : list ascii) : list ascii :=
  match rev_path with
  | [] => []
  | c :: r =>
      if IsPathSeparator c then []
      else if Ascii.eqb c "."%char then c :: acc
      else ext_scan r (c :: acc)
  end.

Definition Ext (path : string) : string :=
  str (ext_scan (rev (chars path)) []).

(** [Base]: strip trailing separators, keep what follows the last
    remaining separator. *)
Fixpoint strip_seps (rev_path : list ascii) : list ascii :=
  match rev_path with
  | [] => []
  | c :: r => if IsPathSeparator c then strip_seps r else rev_path
  end.

Fixpoint last_elem (rev_path acc : list ascii) : list ascii :=
  match rev_path with
  | [] => acc
  | c :: r => if IsPathSeparator c then acc else last_elem r (c :: acc)
  end.

Definition Base (path : string) : string :=
  match path with
  | EmptyString => "."
  | _ =>
      match last_elem (strip_seps (rev (chars path))) [] with
      | [] => String Separator EmptyString
      | l => str l
      end
  end.

(** [Clean], by path elements: empty elements and ["."] vanish, [".."]
    removes the element before it, or is dropped at the root, or is kept
    at the front of a relative path. *)
Fixpoint split_seps (l cur : list ascii) : list (list ascii) :=
  match l with
  | [] => [rev cur]
  | c :: r =>
      if IsPathSeparator c then rev cur :: split_seps r []
      else split_seps r (c :: cur)
  end.

Definition dot : list ascii := ["."%char].
Definition dotdot : list ascii := ["."%char; "."%char].

Definition chars_eqb (a b : list ascii) : bool :=
  String.eqb (str a) (str b).

(** [out] is the cleaned path so far, last element first. *)
Fixpoint clean_elems (rooted : bool) (elems out : list (list ascii))
  : list (list ascii) :=
  match elems with
  | [] => rev out
  | e :: r =>
      if chars_eqb e [] || chars_eqb e dot then clean_elems rooted r out
      else if chars_eqb e dotdot then
        match out with
        | top :: out' =>
            if chars_eqb top dotdot
            then clean_elems rooted r (e :: out)
            else clean_elems rooted r out'
        | [] =>
            if rooted then clean_elems rooted r out
            else clean_elems rooted r (e :: out)
        end
      else clean_elems rooted r (e :: out)
  end.

Fixpoint join_elems (elems : list (list ascii)) : list ascii :=
  match elems with
  | [] => []
  | [e] => e
  | e :: r => e ++ Separator :: join_elems r
  end.

Definition Clean (path : string) : string :=
  match chars path with
  | [] => "."
  | c :: _ =>
      let rooted := IsPathSeparator c in
      let body := join_elems (clean_elems rooted (split_seps (chars path) []) []) in
      if rooted then String Separator (str body)
      else match body with [] => "." | _ => str body end
  end.

(** [Join]: empty elements are ignored, the rest are joined by the
    separator and cleaned; no non-empty element gives the empty string. *)
Definition Join (elem : list string) : string :=
  match filter (fun e => negb (String.eqb e "")) elem with
  | [] => ""
  | nonempty => Clean (String.concat (String Separator EmptyString) nonempty)
  end.

(** A plain file name: not empty, no separator inside, neither ["."] nor
    [".."]. *)
Definition sep_free (l : list ascii) : bool :=
  forallb (fun c => negb (IsPathSeparator c)) l.

Definition plain_name (name : string) : bool :=
  sep_free (chars name)
  && negb (String.eqb name "") && negb (String.eqb name ".")
  && negb (String.eqb name "..").

(** What [Clean] keeps of a path: elements that are not empty, not ["."]
    and free of separators. *)
Definition kept_elem (e : list ascii) : Prop :=
  e <> [] /\ e <> dot /\ sep_free e = true.

(** The place of [name] under an already cleaned directory. *)
Definition under (cleaned name : string) : string :=
  if String.eqb cleaned (String Separator EmptyString)
  then String Separator name
  else if String.eqb cleaned "." then name
  else cleaned ++ String Separator name.

End Filepath.

(** A Go [map[string]bool] literal; a missing key reads as [false]. *)
Fixpoint map_get (m : list (string * bool)) (k : string) : bool :=
  match m with
  | [] => false
  | (k', v) :: r => if String.eqb k' k then v else map_get r k
  end.

(** ** Package [types] *)

Module Types.

Definition ImageFormat := string.

Definition FormatJPEG : ImageFormat := "jpeg".
Definition FormatPNG : ImageFormat := "png".
Definition FormatWebP : ImageFormat := "webp".
Definition FormatGIF : ImageFormat := "gif".
Definition FormatBMP : ImageFormat := "bmp".

End Types.

(** ** [internal/converter/format.go] *)

Module Format.
Import Types.

Definition DetectFormat (path : string) : result ImageFormat :=
  let ext := GoStrings.ToLower (Filepath.Ext path) in
  if String.eqb ext ".jpg" || String.eqb ext ".jpeg" then Ok FormatJPEG
  else if String.eqb ext ".png" then Ok FormatPNG
  else if String.eqb ext ".webp" then Ok FormatWebP
  else if String.eqb ext ".gif" then Ok FormatGIF
  else if String.eqb ext ".bmp" then Ok FormatBMP
  else Err ("unsupported image format: " ++ ext).

Definition IsFormatSupported (format : string) : bool :=
  let normalizedFormat := GoStrings.ToLower format in
  let supportedFormats :=
    [("jpeg", true); ("jpg", true); ("png", true);
     ("webp", true); ("gif", true); ("bmp", true)] in
  map_get supportedFormats normalizedFormat.

Definition NormalizeFormat (format : string) : ImageFormat :=
  let normalizedFormat := GoStrings.ToLower format in
  if String.eqb normalizedFormat "jpg" then FormatJPEG
  else normalizedFormat.

(** The extension chosen by the [switch] of [GenerateOutputFilename]. *)
Definition newExt (outputFormat : ImageFormat) : string :=
  if String.eqb outputFormat FormatJPEG then ".jpg"
  else if String.eqb outputFormat FormatPNG then ".png"
  else if String.eqb outputFormat FormatWebP then ".webp"
  else if String.eqb outputFormat FormatGIF then ".gif"
  else if String.eqb outputFormat FormatBMP then ".bmp"
  else ".jpg".

Definition GenerateOutputFilename (inputPath : string)
           (outputFormat : ImageFormat) : string :=
  let baseName := Filepath.Base inputPath in
  let ext := Filepath.Ext baseName in
  let baseNameWithoutExt := GoStrings.TrimSuffix baseName ext in
  baseNameWithoutExt ++ newExt outputFormat.

Definition GenerateOutputPath (inputPath outputDir : string)
           (outputFormat : ImageFormat) : string :=
  let outputFilename := GenerateOutputFilename inputPath outputFormat in
  Filepath.Join [outputDir; outputFilename].

End Format.

(** ** [internal/filesystem/filesystem.go]: the file classifier *)

Module Filesystem.

Definition IsImageFile (path : string) : bool :=
  let ext := GoStrings.ToLower (Filepath.Ext path) in
  let imageExtensions :=
    [(".jpg", true); (".jpeg", true); (".png", true);
     (".gif", true); (".bmp", true); (".webp", true)] in
  map_get imageExtensions ext.

End Filesystem.


(** ** Go's [int] on a 64-bit platform *)

Module GoInt.
Local Open Scope Z_scope.

Definition min_int : Z := - 2 ^ 63.
Definition max_int : Z := 2 ^ 63 - 1.

Definition in_range (z : Z) : bool := (min_int <=? z) && (z <=? max_int).

(** Two's-complement wrap-around of an arithmetic result. *)
Definition wrap (z : Z) : Z := (z + 2 ^ 63) mod 2 ^ 64 - 2 ^ 63.

Definition add (x y : Z) : Z := wrap (x + y).

(** [x++] *)
Definition incr (x : Z) : Z := add x 1.

End GoInt.

(** ** Go's [float64]: IEEE 754 binary64

    A [float64] is a primitive binary64 float; multiplication, division
    and the comparisons are the machine operations.  [Prim2SF] reads a
    float as sign, mantissa and exponent. *)

Module F64.
Local Open Scope Z_scope.

Definition float64 := PrimFloat.float.

Definition zero : float64 := PrimFloat.zero.

Definition mul : float64 -> float64 -> float64 := PrimFloat.mul.
Definition div : float64 -> float64 -> float64 := PrimFloat.div.
Definition ltb : float64 -> float64 -> bool := PrimFloat.ltb.
Definition eqb : float64 -> float64 -> bool := PrimFloat.eqb.

(** The conversion [float64(n)] of an [int]: round to nearest, ties to
    even.  The machine conversion takes a magnitude below [2^63]; the one
    [int] whose magnitude is [2^63] is a power of two. *)
Definition of_int (n : Z) : float64 :=
  if n <? 0 then
    if n =? GoInt.min_int then PrimFloat.opp (FloatOps.Z.ldexp PrimFloat.one 63)
    else PrimFloat.opp (PrimFloat.of_uint63 (Uint63.of_Z (- n)))
  else PrimFloat.of_uint63 (Uint63.of_Z n).

(** [math.Min], with its special cases in the order of the Go source. *)
Definition Min (x y : float64) : float64 :=
  if eqb x PrimFloat.neg_infinity || eqb y PrimFloat.neg_infinity
  then PrimFloat.neg_infinity
  else if PrimFloat.is_nan x || PrimFloat.is_nan y then PrimFloat.nan
  else if eqb x zero && eqb x y
       then (if PrimFloat.get_sign x then x else y)
  else if ltb x y then x else y.

(** Nearest integer to [m * 2^e], halves going up; [m] is a magnitude. *)
Definition round_half_up (m e : Z) : Z :=
  if 0 <=? e then m * 2 ^ e
  else (m + 2 ^ (- e - 1)) / 2 ^ (- e).

(** [math.Round]: the nearest integer, rounding half away from zero;
    zeros, infinities and NaN are returned unchanged.  A float with a
    non-negative exponent is an integer already. *)
Definition Round (x : float64) : float64 :=
  match FloatOps.Prim2SF x with
  | SpecFloat.S754_finite s m e =>
      if 0 <=? e then x
      else
        let n := round_half_up (Zpos m) e in
        if n =? 0 then (if s then PrimFloat.neg_zero else PrimFloat.zero)
        else
          let r := PrimFloat.of_uint63 (Uint63.of_Z n) in
          if s then PrimFloat.opp r else r
  | _ => x
  end.

(** Truncation of a magnitude [m * 2^e] towards zero. *)
Definition trunc_mag (m e : Z) : Z :=
  if 0 <=? e then m * 2 ^ e else m / 2 ^ (- e).

(** The conversion [int(x)]: the fraction is discarded.  Go leaves the
    result open when the value does not fit; on amd64 the conversion
    instruction then yields the smallest [int], which is what is modelled
    here (also for infinities and NaN). *)
Definition to_int (x : float64) : Z :=
  match FloatOps.Prim2SF x with
  | SpecFloat.S754_zero _ => 0
  | SpecFloat.S754_finite s m e =>
      let v := if s then - trunc_mag (Zpos m) e else trunc_mag (Zpos m) e in
      if GoInt.in_range v then v else GoInt.min_int
  | _ => GoInt.min_int
  end.

End F64.

(** ** Package [types]: records *)

Module Records.
Import Types.

Record Config := {
  InputDir : string;
  OutputDir : string;
  Scale : F64.float64;
  Width : Z;
  Height : Z;
  Format : string;
  JPEGQuality : Z
}.

Record ResizeSpec := {
  rsScale : F64.float64;
  rsWidth : Z;
  rsHeight : Z
}.

Record ConversionStats := {
  Total : Z;
  Success : Z;
  Failed : Z;
  Skipped : Z
}.

(** [Error] is [None] for Go's [nil]. *)
Record ConversionResult := {
  SourcePath : string;
  OutputPath : string;
  crSuccess : bool;
  Error : option string
}.

End Records.

(** ** The outside world of the converter

    A decoded picture is known by its bounds and its pixel data.  The
    codecs, the resampler and the file system are collaborators whose
    answers the converter only inspects for success or failure; [World]
    gathers one answer per possible call.  Every call the converter makes
    is recorded as an [Event], in order. *)

Module Env.
Import Types.

Record Image := {
  Dx : Z;
  Dy : Z;
  Pix : list Z
}.

Record World := {
  os_Open : string -> result string;
  image_Decode : string -> result Image;
  draw_CatmullRom_Scale : Z -> Z -> Image -> list Z;
  os_Create : string -> option string;
  jpeg_Encode : Image -> Z -> option string;
  png_Encode : Image -> option string;
  webp_Encode : Image -> Z -> option string;
  gif_Encode : Image -> option string;
  bmp_Encode : Image -> option string
}.

Inductive Event :=
| EvOpen (path : string)
| EvDecode (path : string)
| EvNewRGBA (w h : Z)
| EvScale (w h : Z)
| EvCreate (path : string)
| EvEncode (format : ImageFormat) (path : string) (quality : Z).

(** Computations that log their calls. *)
Definition M (A : Type) : Type := (A * list Event)%type.

Definition ret {A} (a : A) : M A := (a, []).

Definition bind {A B} (c : M A) (k : A -> M B) : M B :=
  let (a, t1) := c in
  let (b, t2) := k a in
  (b, (t1 ++ t2)%list).

Definition emit (e : Event) : M unit := (tt, [e]).

(** Calls that belong to the saver: creating the file and encoding. *)
Definition is_save_event (e : Event) : bool :=
  match e with
  | EvCreate _ | EvEncode _ _ _ => true
  | _ => false
  end.

Definition is_resample_event (e : Event) : bool :=
  match e with
  | EvNewRGBA _ _ | EvScale _ _ => true
  | _ => false
  end.

End Env.

Notation "x <- c ;; k" := (Env.bind c (fun x => k))
  (at level 61, c at next level, right associativity).
Notation "c ;;; k" := (Env.bind c (fun _ => k))
  (at level 61, right associativity).

(** ** [internal/converter/resize.go] *)

Module Resize.
Import Records Env.
Local Open Scope Z_scope.

Definition CalculateOutputSize (srcWidth srcHeight : Z) (spec : ResizeSpec)
  : Z * Z :=
  if F64.ltb F64.zero (rsScale spec) then
    (F64.to_int (F64.Round (F64.mul (F64.of_int srcWidth) (rsScale spec))),
     F64.to_int (F64.Round (F64.mul (F64.of_int srcHeight) (rsScale spec))))
  else if (0 <? rsWidth spec) && (0 <? rsHeight spec) then
    let scaleW := F64.div (F64.of_int (rsWidth spec)) (F64.of_int srcWidth) in
    let scaleH := F64.div (F64.of_int (rsHeight spec)) (F64.of_int srcHeight) in
    let scale := F64.Min scaleW scaleH in
    (F64.to_int (F64.Round (F64.mul (F64.of_int srcWidth) scale)),
     F64.to_int (F64.Round (F64.mul (F64.of_int srcHeight) scale)))
  else if 0 <? rsWidth spec then
    let scale := F64.div (F64.of_int (rsWidth spec)) (F64.of_int srcWidth) in
    (rsWidth spec,
     F64.to_int (F64.Round (F64.mul (F64.of_int srcHeight) scale)))
  else if 0 <? rsHeight spec then
    let scale := F64.div (F64.of_int (rsHeight spec)) (F64.of_int srcHeight) in
    (F64.to_int (F64.Round (F64.mul (F64.of_int srcWidth) scale)),
     rsHeight spec)
  else (srcWidth, srcHeight).

Definition CalculateOutputSizeFromImage (img : Image) (spec : ResizeSpec)
  : Z * Z :=
  CalculateOutputSize (Dx img) (Dy img) spec.

(** [ResizeImage]: the two early returns hand back [src] itself; only the
    last branch allocates a destination and runs the resampler.  The
    allocation is taken to succeed: [image.NewRGBA] gives up on bounds
    whose byte count does not fit an [int], which is outside this model. *)
Definition ResizeImage (w : World) (src : Image) (spec : ResizeSpec)
  : M Image :=
  if F64.eqb (rsScale spec) F64.zero
     && (rsWidth spec =? 0) && (rsHeight spec =? 0)
  then ret src
  else
    let (dstWidth, dstHeight) := CalculateOutputSizeFromImage src spec in
    if (dstWidth =? Dx src) && (dstHeight =? Dy src) then ret src
    else
      emit (EvNewRGBA dstWidth dstHeight) ;;;
      emit (EvScale dstWidth dstHeight) ;;;
      ret {| Dx := dstWidth; Dy := dstHeight;
             Pix := draw_CatmullRom_Scale w dstWidth dstHeight src |}.

End Resize.

(** ** [internal/converter/converter.go], with loader and saver *)

Module Converter.
Import Types Records Env.
Local Open Scope Z_scope.

(** [ImageLoader.Load] *)
Definition Load (w : World) (path : string) : M (result Image) :=
  emit (EvOpen path) ;;;
  match os_Open w path with
  | Err e => ret (Err ("failed to open file: " ++ e))
  | Ok file =>
      emit (EvDecode path) ;;;
      match image_Decode w file with
      | Err e => ret (Err ("failed to decode image: " ++ e))
      | Ok img => ret (Ok img)
      end
  end.

Definition wrap_err (prefix : string) (r : option string) : option string :=
  match r with
  | Some e => Some (prefix ++ e)
  | None => None
  end.

Definition saveJPEG (w : World) (img : Image) (quality : Z) : option string :=
  wrap_err "failed to encode JPEG: " (jpeg_Encode w img quality).
Definition savePNG (w : World) (img : Image) : option string :=
  wrap_err "failed to encode PNG: " (png_Encode w img).
Definition saveWebP (w : World) (img : Image) (quality : Z) : option string :=
  wrap_err "failed to encode WebP: " (webp_Encode w img quality).
Definition saveGIF (w : World) (img : Image) : option string :=
  wrap_err "failed to encode GIF: " (gif_Encode w img).
Definition saveBMP (w : World) (img : Image) : option string :=
  wrap_err "failed to encode BMP: " (bmp_Encode w img).

(** [ImageSaver.Save]: the file is created first, then the format is
    dispatched on. *)
Definition Save (w : World) (img : Image) (path : string)
           (format : ImageFormat) (quality : Z) : M (option string) :=
  emit (EvCreate path) ;;;
  match os_Create w path with
  | Some e => ret (Some ("failed to create file: " ++ e))
  | None =>
      if String.eqb format FormatJPEG then
        emit (EvEncode format path quality) ;;; ret (saveJPEG w img quality)
      else if String.eqb format FormatPNG then
        emit (EvEncode format path quality) ;;; ret (savePNG w img)
      else if String.eqb format FormatWebP then
        emit (EvEncode format path quality) ;;; ret (saveWebP w img quality)
      else if String.eqb format FormatGIF then
        emit (EvEncode format path quality) ;;; ret (saveGIF w img)
      else if String.eqb format FormatBMP then
        emit (EvEncode format path quality) ;;; ret (saveBMP w img)
      else ret (Some ("unsupported output format: " ++ format))
  end.

(** The converter object: its configuration and its counters. *)
Record ConverterT := {
  config : Config;
  stats : ConversionStats
}.

Definition NewConverter (cfg : Config) : ConverterT :=
  {| config := cfg;
     stats := {| Total := 0; Success := 0; Failed := 0; Skipped := 0 |} |}.

Definition failure (sourcePath outputPath err : string) : ConversionResult :=
  {| SourcePath := sourcePath; OutputPath := outputPath;
     crSuccess := false; Error := Some err |}.

(** The three values [ConvertImage] derives from the configuration. *)
Definition resizeSpec_of (c : ConverterT) : ResizeSpec :=
  {| rsScale := Scale (config c);
     rsWidth := Width (config c);
     rsHeight := Height (config c) |}.

Definition resolve_format (c : ConverterT) (sourcePath : string)
  : result ImageFormat :=
  if negb (String.eqb (Format (config c)) "")
  then Ok (Format.NormalizeFormat (Format (config c)))
  else Format.DetectFormat sourcePath.

Definition quality_of (c : ConverterT) : Z :=
  if JPEGQuality (config c) =? 0 then 85 else JPEGQuality (config c).

Definition ConvertImage (w : World) (c : ConverterT)
           (sourcePath outputDir : string) : M ConversionResult :=
  r <- Load w sourcePath ;;
  match r with
  | Err e => ret (failure sourcePath "" ("failed to load image: " ++ e))
  | Ok img =>
      resizedImg <- Resize.ResizeImage w img (resizeSpec_of c) ;;
      match resolve_format c sourcePath with
      | Err e => ret (failure sourcePath "" ("failed to detect format: " ++ e))
      | Ok outputFormat =>
          let outputPath :=
            Format.GenerateOutputPath sourcePath outputDir outputFormat in
          err <- Save w resizedImg outputPath outputFormat (quality_of c) ;;
          match err with
          | Some e =>
              ret (failure sourcePath outputPath ("failed to save image: " ++ e))
          | None =>
              ret {| SourcePath := sourcePath; OutputPath := outputPath;
                     crSuccess := true; Error := None |}
          end
      end
  end.

Definition GetStats (c : ConverterT) : ConversionStats := stats c.

Definition set_stats (c : ConverterT) (s : ConversionStats) : ConverterT :=
  {| config := config c; stats := s |}.

(** [UpdateStats] and [IncrementSkipped]; each runs under the statistics
    mutex, hence as one step. *)
Definition UpdateStats (c : ConverterT) (r : ConversionResult) : ConverterT :=
  let s := stats c in
  let total := GoInt.incr (Total s) in
  if crSuccess r then
    set_stats c {| Total := total; Success := GoInt.incr (Success s);
                   Failed := Failed s; Skipped := Skipped s |}
  else
    set_stats c {| Total := total; Success := Success s;
                   Failed := GoInt.incr (Failed s); Skipped := Skipped s |}.

Definition IncrementSkipped (c : ConverterT) : ConverterT :=
  let s := stats c in
  set_stats c {| Total := GoInt.incr (Total s); Success := Success s;
                 Failed := Failed s; Skipped := GoInt.incr (Skipped s) |}.

(** *** [ProcessDirectory]

    The scanner is the interface [FileSystemScanner]. *)
Record FileSystemScanner := {
  ScanDirectory : string -> result (list string);
  IsImageFile : string -> bool
}.

(** The first loop: image files are collected in order, every other file
    is counted as skipped on the spot. *)
Fixpoint partition_files (fs : FileSystemScanner) (files imageFiles : list string)
         (c : ConverterT) : list string * ConverterT :=
  match files with
  | [] => (imageFiles, c)
  | file :: rest =>
      if IsImageFile fs file
      then partition_files fs rest (imageFiles ++ [file])%list c
      else partition_files fs rest imageFiles (IncrementSkipped c)
  end.

(** One goroutine per image file.  A goroutine waits for a slot of the
    semaphore, takes the next progress number under the progress mutex,
    converts its file and folds the result under the statistics mutex,
    then reports and gives the slot back. *)
Inductive Stage :=
| Waiting
| Running (currentIndex : Z)
| Folded (r : ConversionResult)
| Finished.

Record Worker := {
  wfile : string;
  wstage : Stage
}.

Definition holds_slot (g : Worker) : bool :=
  match wstage g with
  | Running _ | Folded _ => true
  | _ => false
  end.

Definition is_finished (g : Worker) : bool :=
  match wstage g with Finished => true | _ => false end.

(** The shared state of the second loop.  [invoked] lists the paths handed
    to [ConvertImage] and [calls] the collaborator calls made by them, both
    in the order in which they happened. *)
Record Pool := {
  conv : ConverterT;
  workers : list Worker;
  processedCount : Z;
  invoked : list string;
  calls : list Event
}.

Definition spawn (imageFiles : list string) (c : ConverterT) : Pool :=
  {| conv := c;
     workers := map (fun f => {| wfile := f; wstage := Waiting |}) imageFiles;
     processedCount := 0;
     invoked := [];
     calls := [] |}.

Section Scheduling.
Variable w : World.
Variable numWorkers : Z.
Variable outputDir : string.

Definition slots_in_use (ws : list Worker) : Z :=
  Z.of_nat (List.length (filter holds_slot ws)).

(** Any goroutine that can move may move next. *)
Inductive step : Pool -> Pool -> Prop :=
| step_start : forall p pre f post,
    workers p = (pre ++ {| wfile := f; wstage := Waiting |} :: post)%list ->
    slots_in_use (workers p) < numWorkers ->
    step p
      {| conv := conv p;
         workers :=
           (pre ++ {| wfile := f;
                      wstage := Running (GoInt.incr (processedCount p)) |}
                :: post)%list;
         processedCount := GoInt.incr (processedCount p);
         invoked := invoked p;
         calls := calls p |}
| step_convert : forall p pre f i post,
    workers p = (pre ++ {| wfile := f; wstage := Running i |} :: post)%list ->
    step p
      {| conv := UpdateStats (conv p) (fst (ConvertImage w (conv p) f outputDir));
         workers :=
           (pre ++ {| wfile := f;
                      wstage := Folded (fst (ConvertImage w (conv p) f outputDir)) |}
                :: post)%list;
         processedCount := processedCount p;
         invoked := (invoked p ++ [f])%list;
         calls := (calls p ++ snd (ConvertImage w (conv p) f outputDir))%list |}
| step_finish : forall p pre f r post,
    workers p = (pre ++ {| wfile := f; wstage := Folded r |} :: post)%list ->
    step p
      {| conv := conv p;
         workers := (pre ++ {| wfile := f; wstage := Finished |} :: post)%list;
         processedCount := processedCount p;
         invoked := invoked p;
         calls := calls p |}.

Inductive steps : Pool -> Pool -> Prop :=
| steps_refl : forall p, steps p p
| steps_cons : forall p q r, step p q -> steps q r -> steps p r.

(** [wg.Wait] returns once every goroutine is done. *)
Definition drained (p : Pool) : Prop :=
  forallb is_finished (workers p) = true.

(** [ProcessDirectory c inputDir outputDir fsManager] may return the
    error [err] and leave the converter as [c'] with the pool as [p]. *)
Inductive ProcessDirectory (c : ConverterT) (inputDir : string)
          (fsManager : FileSystemScanner)
  : option string -> ConverterT -> Pool -> Prop :=
| pd_scan_error : forall e,
    ScanDirectory fsManager inputDir = Err e ->
    ProcessDirectory c inputDir fsManager
      (Some ("failed to scan directory: " ++ e)) c (spawn [] c)
| pd_done : forall files imageFiles c1 p,
    ScanDirectory fsManager inputDir = Ok files ->
    partition_files fsManager files [] c = (imageFiles, c1) ->
    steps (spawn imageFiles c1) p ->
    drained p ->
    ProcessDirectory c inputDir fsManager None (conv p) p.

End Scheduling.

End Converter.

(** ** Sequences of counter updates

    The two updates of the statistics, as the batch coordinator issues
    them: one [UpdateStats] per converted file, one [IncrementSkipped] per
    skipped file, in whatever order the goroutines reach the mutex. *)

Module StatsOps.
Import Records Converter.

Inductive StatsOp :=
| OpUpdate (r : ConversionResult)
| OpSkip.

Definition apply_op (c : ConverterT) (op : StatsOp) : ConverterT :=
  match op with
  | OpUpdate r => UpdateStats c r
  | OpSkip => IncrementSkipped c
  end.

Definition run_ops (ops : list StatsOp) (c : ConverterT) : ConverterT :=
  fold_left apply_op ops c.

Definition is_success (op : StatsOp) : bool :=
  match op with OpUpdate r => crSuccess r | OpSkip => false end.

Definition is_failure (op : StatsOp) : bool :=
  match op with OpUpdate r => negb (crSuccess r) | OpSkip => false end.

Definition is_skip (op : StatsOp) : bool :=
  match op with OpUpdate _ => false | OpSkip => true end.

Definition count (f : StatsOp -> bool) (ops : list StatsOp) : Z :=
  Z.of_nat (List.length (filter f ops)).

Definition zero_stats : ConversionStats :=
  {| Total := 0; Success := 0; Failed := 0; Skipped := 0 |}.

(** The counters after a sequence of updates, in closed form. *)
Definition stats_after (s0 : ConversionStats) (ops : list StatsOp)
  : ConversionStats :=
  {| Total := GoInt.wrap (Total s0 + Z.of_nat (List.length ops));
     Success := GoInt.wrap (Success s0 + count is_success ops);
     Failed := GoInt.wrap (Failed s0 + count is_failure ops);
     Skipped := GoInt.wrap (Skipped s0 + count is_skip ops) |}.

End StatsOps.

(** ** The real numbers behind a [float64]

    Used to state what the float operations compute: the value of a
    finite float, powers of two, and the position of a real number
    between an integer and its successor, as the rounding of the
    standard library's float specification records it. *)

Module FloatSem.
Import SpecFloat.
Local Open Scope R_scope.

Definition bpow (e : Z) : R := powerRZ 2 e.

(** The value [m * 2^e] of a mantissa and an exponent. *)
Definition F2R (m e : Z) : R := IZR m * bpow e.

(** The unit roundoff of binary64. *)
Definition u : R := bpow (-53).

(** [X] lies at [m] or between [m] and [m + 1], on the side of the
    midpoint that the location tells. *)
Definition inbetween (X : R) (m : Z) (l : location) : Prop :=
  match l with
  | loc_Exact => X = IZR m
  | loc_Inexact Lt => IZR m < X < IZR m + / 2
  | loc_Inexact Eq => X = IZR m + / 2
  | loc_Inexact Gt => IZR m + / 2 < X < IZR m + 1
  end.

(** A positive float in normal form: its mantissa has 53 bits. *)
Definition normal_mantissa (m : positive) : Prop :=
  (2 ^ 52 <= Zpos m < 2 ^ 53)%Z.




(** The fraction [n / d] of two positive integers rounded to the nearest
    integer, halves upwards, in exact arithmetic. *)
Definition round_ratio (n d : Z) : Z := ((2 * n + d) / (2 * d))%Z.

(** [n / d] lies exactly halfway between two integers: [n / d + 1 / 2] is
    an integer. *)
Definition is_tie (n d : Z) : Prop := ((2 * n + d) mod (2 * d) = 0)%Z.

End FloatSem.

(** ** Bookkeeping for the batch

    Notions used to state what a run of the pool has done. *)

Module Batch.
Import Records Env Converter StatsOps.

(** A goroutine whose result has been folded into the statistics. *)
Definition folded (g : Worker) : bool :=
  match wstage g with
  | Folded _ | Finished => true
  | _ => false
  end.

(** Steps a goroutine still has to take. *)
Definition remaining (g : Worker) : nat :=
  match wstage g with
  | Waiting => 3
  | Running _ => 2
  | Folded _ => 1
  | Finished => 0
  end.

Definition measure (p : Pool) : nat :=
  list_sum (map remaining (workers p)).

(** The counter update caused by converting one file. *)
Definition op_of (w : World) (c : ConverterT) (outputDir file : string) : StatsOp :=
  OpUpdate (fst (ConvertImage w c file outputDir)).

(** What holds of the pool at every moment of a run that started from the
    image files [imageFiles] and the converter [c1], whose counters were
    those of the updates [ops0]: the configuration is untouched, the
    goroutines are those of the image files, the files converted so far
    are those of the goroutines that have folded their result, and the
    counters are those of [ops0] followed by one update per converted
    file. *)
Definition Inv (w : World) (outputDir : string) (imageFiles : list string)
           (c1 : ConverterT) (ops0 : list StatsOp) (p : Pool) : Prop :=
  config (conv p) = config c1
  /\ map wfile (workers p) = imageFiles
  /\ Permutation (invoked p) (map wfile (filter folded (workers p)))
  /\ stats (conv p)
     = stats_after zero_stats
         (ops0 ++ map (op_of w c1 outputDir) (invoked p))%list.

(** The three kinds of input file of the specification. *)
Inductive Kind := ValidImage | CorruptImage | NonImage.

Definition Kind_eqb (a b : Kind) : bool :=
  match a, b with
  | ValidImage, ValidImage | CorruptImage, CorruptImage | NonImage, NonImage => true
  | _, _ => false
  end.

Definition count_kind (kind : string -> Kind) (k : Kind) (files : list string) : Z :=
  Z.of_nat (List.length (filter (fun f => Kind_eqb (kind f) k) files)).

(** A file is of its kind when the classifier and the converter treat it
    accordingly: a valid image is accepted by the classifier and converts,
    a corrupt image is accepted by the classifier and does not decode, any
    other file is rejected by the classifier. *)
Definition well_classified (w : World) (c : ConverterT) (fs : FileSystemScanner)
           (outputDir : string) (kind : string -> Kind) (file : string) : Prop :=
  match kind file with
  | ValidImage =>
      IsImageFile fs file = true
      /\ crSuccess (fst (ConvertImage w c file outputDir)) = true
  | CorruptImage =>
      IsImageFile fs file = true
      /\ exists e, fst (Load w file) = Err e
  | NonImage => IsImageFile fs file = false
  end.

End Batch.

(** ** The scenario of the specification

    An input directory with [a.png] (a 100 x 100 picture), [b.txt] and
    [c.png] (bytes that do not decode); scale 0.5, format jpeg. *)

Module Scenario.
Import Records Env Converter.
Local Open Scope Z_scope.

Definition picture : Image := {| Dx := 100; Dy := 100; Pix := [] |}.

Definition world : World :=
  {| os_Open := fun path =>
       if String.eqb path "in/a.png" then Ok "png bytes"
       else if String.eqb path "in/c.png" then Ok "corrupted image data"
       else if String.eqb path "in/b.txt" then Ok "not an image"
       else if String.eqb path "in/d.tiff" then Ok "png bytes"
       else Err "no such file or directory";
     image_Decode := fun file =>
       if String.eqb file "png bytes" then Ok picture
       else Err "image: unknown format";
     draw_CatmullRom_Scale := fun _ _ _ => [];
     os_Create := fun _ => None;
     jpeg_Encode := fun _ _ => None;
     png_Encode := fun _ => None;
     webp_Encode := fun _ _ => None;
     gif_Encode := fun _ => None;
     bmp_Encode := fun _ => None |}.

Definition cfg : Config :=
  {| InputDir := "in"; OutputDir := "out";
     Scale := 0.5%float; Width := 0; Height := 0;
     Format := "jpeg"; JPEGQuality := 85 |}.

(** The same request with a format outside the supported five. *)
Definition cfg_unsupported : Config :=
  {| InputDir := "in"; OutputDir := "out";
     Scale := 0.5%float; Width := 0; Height := 0;
     Format := "tiff"; JPEGQuality := 85 |}.

(** No format requested: the source format is kept. *)
Definition cfg_keep_format : Config :=
  {| InputDir := "in"; OutputDir := "out";
     Scale := 0.5%float; Width := 0; Height := 0;
     Format := ""; JPEGQuality := 85 |}.

Definition scanner : FileSystemScanner :=
  {| ScanDirectory := fun dir =>
       if String.eqb dir "in" then Ok ["in/a.png"; "in/b.txt"; "in/c.png"]
       else Err "no such file or directory";
     IsImageFile := Filesystem.IsImageFile |}.

Definition kind (file : string) : Batch.Kind :=
  if String.eqb file "in/a.png" then Batch.ValidImage
  else if String.eqb file "in/c.png" then Batch.CorruptImage
  else Batch.NonImage.

Definition files : list string := ["in/a.png"; "in/b.txt"; "in/c.png"].

Definition no_request : ResizeSpec :=
  {| rsScale := F64.zero; rsWidth := 0; rsHeight := 0 |}.

Definition same_scale : ResizeSpec :=
  {| rsScale := 1%float; rsWidth := 0; rsHeight := 0 |}.

End Scenario.

(** ** Progress of the pool

    A goroutine has started once it has taken its progress number. *)

Module Progress.
Import Converter.

Definition started (g : Worker) : bool :=
  match wstage g with
  | Waiting => false
  | _ => true
  end.

Definition started_count (ws : list Worker) : Z :=
  Z.of_nat (List.length (filter started ws)).

(** The progress numbers of the goroutines that are converting. *)
Fixpoint running_indices (ws : list Worker) : list Z :=
  match ws with
  | [] => []
  | g :: rest =>
      match wstage g with
      | Running i => i :: running_indices rest
      | _ => running_indices rest
      end
  end.

(** The progress counter counts the goroutines that have started, and
    every number held by a converting goroutine has been handed out. *)
Definition counted (n : nat) (p : Pool) : Prop :=
  List.length (workers p) = n
  /\ processedCount p = started_count (workers p)
  /\ Forall (fun i => (1 <= i <= processedCount p)%Z)
            (running_indices (workers p)).

End Progress.

(** ** Names of files

    What can follow the last dot of a file name: bytes that are neither a
    dot nor a separator. *)

Module Names.

Definition ext_tail (e : string) : bool :=
  forallb (fun c => negb (Filepath.IsPathSeparator c)
                    && negb (Ascii.eqb c "."%char))
          (Filepath.chars e).

End Names.

(** ** [internal/cli/parser.go] *)

Module Cli.
Import Records.
Local Open Scope Z_scope.

(** The assignment [config.Format = format]. *)
Definition set_Format (config : Config) (format : string) : Config :=
  {| InputDir := InputDir config; OutputDir := OutputDir config;
     Scale := Scale config; Width := Width config; Height := Height config;
     Format := format; JPEGQuality := JPEGQuality config |}.

(** [ValidateConfig] receives a pointer and may rewrite the [Format] field
    before it returns.  The model returns the configuration as the call
    leaves it, together with the error ([None] for [nil]). *)
Definition ValidateConfig (config : Config) : Config * option string :=
  if String.eqb (InputDir config) "" then
    (config, Some "入力ディレクトリが指定されていません")
  else if String.eqb (OutputDir config) "" then
    (config, Some "出力ディレクトリが指定されていません")
  else
    let hasScale := F64.ltb F64.zero (Scale config) in
    let hasPixels := (0 <? Width config) || (0 <? Height config) in
    if hasScale && hasPixels then
      (config, Some "倍率指定とピクセル指定を同時に使用できません")
    else if F64.ltb (Scale config) F64.zero then
      (config, Some "倍率は0以上である必要があります")
    else if Width config <? 0 then
      (config, Some "幅は0以上である必要があります")
    else if Height config <? 0 then
      (config, Some "高さは0以上である必要があります")
    else
      let checked : Config * option string :=
        if negb (String.eqb (Format config) "") then
          let format := GoStrings.ToLower (Format config) in
          let validFormats :=
            [("jpeg", true); ("jpg", true); ("png", true);
             ("webp", true); ("gif", true); ("bmp", true)] in
          if negb (map_get validFormats format) then
            (config,
             Some ("サポートされていないフォーマット: " ++ Format config))
          else if String.eqb format "jpg" then (set_Format config "jpeg", None)
          else (set_Format config format, None)
        else (config, None) in
      match checked with
      | (config, Some err) => (config, Some err)
      | (config, None) =>
          if (JPEGQuality config <? 1) || (100 <? JPEGQuality config) then
            (config, Some "JPEG品質は1から100の範囲で指定してください")
          else (config, None)
      end.

(** What [ValidateConfig] asks of the fields other than [Format]: both
    directories named, not a scale above zero together with a width or a
    height above zero, no scale below zero, no negative width or height,
    and a JPEG quality from 1 to 100. *)
Definition plain_checks (config : Config) : Prop :=
  InputDir config <> "" /\ OutputDir config <> ""
  /\ F64.ltb F64.zero (Scale config)
     && ((0 <? Width config) || (0 <? Height config)) = false
  /\ F64.ltb (Scale config) F64.zero = false
  /\ 0 <= Width config /\ 0 <= Height config
  /\ 1 <= JPEGQuality config <= 100.

(** [ParseArgs], from the point where [flag.Parse] has filled the
    configuration with the values of the command line ([flags]); the
    parsing of the arguments themselves belongs to package [flag].  On an
    error the caller gets no configuration at all. *)
Definition ParseArgs (flags : Config) : result Config :=
  match ValidateConfig flags with
  | (_, Some err) => Err err
  | (config, None) => Ok config
  end.

End Cli.

(** ** The file system as [internal/filesystem] sees it

    One answer per possible call of package [os], and the calls in the
    order in which they are made.  Of a file's information only [IsDir]
    is looked at, of an error of [os.Stat] only its text and what
    [os.IsNotExist] says of it. *)

Module Os.

Record DirEntry := {
  Name : string;
  IsDir : bool
}.

Inductive StatResult :=
| StatInfo (isDir : bool)
| StatErr (isNotExist : bool) (msg : string).

Record FS := {
  Stat : string -> StatResult;
  MkdirAll : string -> Z -> option string;
  ReadDir : string -> result (list DirEntry);
  WriteFile : string -> string -> Z -> option string;
  Remove : string -> option string
}.

Inductive Call :=
| CStat (path : string)
| CMkdirAll (path : string) (perm : Z)
| CReadDir (path : string)
| CWriteFile (path data : string) (perm : Z)
| CRemove (path : string).

Definition M (A : Type) : Type := (A * list Call)%type.

Definition ret {A} (a : A) : M A := (a, []).

Definition bind {A B} (c : M A) (k : A -> M B) : M B :=
  let (a, t1) := c in
  let (b, t2) := k a in
  (b, (t1 ++ t2)%list).

Definition call (e : Call) : M unit := (tt, [e]).

(** Calls that change the file system. *)
Definition is_write (e : Call) : bool :=
  match e with
  | CMkdirAll _ _ | CWriteFile _ _ _ | CRemove _ => true
  | _ => false
  end.

End Os.

Notation "x <~ c ;; k" := (Os.bind c (fun x => k))
  (at level 61, c at next level, right associativity).
Notation "c ;;~ k" := (Os.bind c (fun _ => k))
  (at level 61, right associativity).

(** ** [internal/filesystem/filesystem.go]: the file system manager *)

Module FileSystemManager.
Import Os.
Local Open Scope Z_scope.

Definition DirectoryExists (os : FS) (path : string)
  : M (bool * option string) :=
  call (CStat path) ;;~
  match Stat os path with
  | StatErr isNotExist err =>
      if isNotExist then ret (false, None) else ret (false, Some err)
  | StatInfo isDir => ret (isDir, None)
  end.

Definition CreateDirectory (os : FS) (path : string) : M (option string) :=
  call (CMkdirAll path 493) ;;~ ret (MkdirAll os path 493).

(** The loop of [ScanDirectory]: entries that are no directories, joined
    to the path, in the order of [os.ReadDir]. *)
Definition scan_entries (path : string) (entries : list DirEntry)
  : list string :=
  fold_left
    (fun files entry =>
       if negb (IsDir entry)
       then (files ++ [Filepath.Join [path; Name entry]])%list
       else files)
    entries [].

Definition ScanDirectory (os : FS) (path : string)
  : M (result (list string)) :=
  call (CReadDir path) ;;~
  match ReadDir os path with
  | Err err => ret (Err ("failed to read directory: " ++ err))
  | Ok entries => ret (Ok (scan_entries path entries))
  end.

Definition ValidateInputDirectory (os : FS) (path : string)
  : M (option string) :=
  r <~ DirectoryExists os path ;;
  match r with
  | (_, Some err) =>
      ret (Some ("failed to check input directory: " ++ err))
  | (exists_, None) =>
      if negb exists_ then
        ret (Some ("input directory does not exist: " ++ path))
      else
        call (CReadDir path) ;;~
        match ReadDir os path with
        | Err err => ret (Some ("input directory is not readable: " ++ err))
        | Ok _ => ret None
        end
  end.

(** The probe file, the byte string written to it and its mode 0644. *)
Definition testFile (path : string) : string :=
  Filepath.Join [path; ".write_test"].

Definition probe (os : FS) (path : string) : M (option string) :=
  call (CWriteFile (testFile path) "test" 420) ;;~
  match WriteFile os (testFile path) "test" 420 with
  | Some err => ret (Some ("output directory is not writable: " ++ err))
  | None => call (CRemove (testFile path)) ;;~ ret None
  end.

Definition EnsureOutputDirectory (os : FS) (path : string)
  : M (option string) :=
  r <~ DirectoryExists os path ;;
  match r with
  | (_, Some err) =>
      ret (Some ("failed to check output directory: " ++ err))
  | (exists_, None) =>
      if negb exists_ then
        err <~ CreateDirectory os path ;;
        match err with
        | Some err =>
            ret (Some ("failed to create output directory: " ++ err))
        | None => probe os path
        end
      else probe os path
  end.

(** The manager as the [FileSystemScanner] that [ProcessDirectory]
    takes. *)
Definition scanner (os : FS) : Converter.FileSystemScanner :=
  {| Converter.ScanDirectory := fun path => fst (ScanDirectory os path);
     Converter.IsImageFile := Filesystem.IsImageFile |}.

End FileSystemManager.

(** * Properties *)

(** ** The four ways through [ConvertImage] *)

Section ConvertImageCases.
Import Types Records Env Converter.

Lemma bind_fst {A B} (c : M A) (k : A -> M B) :
  fst (bind c k) = fst (k (fst c)).
Proof. unfold bind. destruct c as [a t1]. cbn. destruct (k a); reflexivity. Qed.

Lemma bind_snd {A B} (c : M A) (k : A -> M B) :
  snd (bind c k) = (snd c ++ snd (k (fst c)))%list.
Proof. unfold bind. destruct c as [a t1]. cbn. destruct (k a); reflexivity. Qed.

(** The result of [ConvertImage], by the first step that fails. *)
Lemma ConvertImage_cases w c sourcePath outputDir :
  let r := fst (ConvertImage w c sourcePath outputDir) in
  (exists e, fst (Load w sourcePath) = Err e
             /\ r = failure sourcePath "" ("failed to load image: " ++ e))
  \/ (exists img e,
         fst (Load w sourcePath) = Ok img
         /\ resolve_format c sourcePath = Err e
         /\ r = failure sourcePath "" ("failed to detect format: " ++ e))
  \/ (exists img fmt e,
         fst (Load w sourcePath) = Ok img
         /\ resolve_format c sourcePath = Ok fmt
         /\ fst (Save w (fst (Resize.ResizeImage w img (resizeSpec_of c)))
                    (Format.GenerateOutputPath sourcePath outputDir fmt)
                    fmt (quality_of c)) = Some e
         /\ r = failure sourcePath
                      (Format.GenerateOutputPath sourcePath outputDir fmt)
                      ("failed to save image: " ++ e))
  \/ (exists img fmt,
         fst (Load w sourcePath) = Ok img
         /\ resolve_format c sourcePath = Ok fmt
         /\ fst (Save w (fst (Resize.ResizeImage w img (resizeSpec_of c)))
                    (Format.GenerateOutputPath sourcePath outputDir fmt)
                    fmt (quality_of c)) = None
         /\ r = {| SourcePath := sourcePath;
                   OutputPath :=
                     Format.GenerateOutputPath sourcePath outputDir fmt;
                   crSuccess := true; Error := None |}).
Proof.
  intro r. subst r. unfold ConvertImage. rewrite bind_fst.
  destruct (fst (Load w sourcePath)) as [img|e].
  2:{ left. exists e. split; reflexivity. }
  right. rewrite bind_fst.
  destruct (resolve_format c sourcePath) as [fmt|e].
  2:{ left. exists img, e. repeat split; reflexivity. }
  right. rewrite bind_fst.
  match goal with
  | |- context [fst (Save ?a ?b ?p ?f ?q)] =>
      destruct (fst (Save a b p f q)) as [e|] eqn:Hsave
  end.
  - left. exists img, fmt, e. repeat split; auto.
  - right. exists img, fmt. repeat split; auto.
Qed.

(** The calls made by [ConvertImage], step by step. *)
Lemma ConvertImage_calls w c sourcePath outputDir :
  snd (ConvertImage w c sourcePath outputDir)
  = (snd (Load w sourcePath)
     ++ match fst (Load w sourcePath) with
        | Err _ => []
        | Ok img =>
            snd (Resize.ResizeImage w img (resizeSpec_of c))
            ++ match resolve_format c sourcePath with
               | Err _ => []
               | Ok fmt =>
                   snd (Save w (fst (Resize.ResizeImage w img (resizeSpec_of c)))
                             (Format.GenerateOutputPath sourcePath outputDir fmt)
                             fmt (quality_of c))
               end
        end)%list.
Proof.
  unfold ConvertImage. rewrite bind_snd. f_equal.
  destruct (fst (Load w sourcePath)) as [img|e]; [|reflexivity].
  rewrite bind_snd. f_equal.
  destruct (resolve_format c sourcePath) as [fmt|e]; [|reflexivity].
  rewrite bind_snd.
  match goal with
  | |- context [fst (Save ?a ?b ?p ?f ?q)] => destruct (fst (Save a b p f q))
  end; cbn [snd ret]; apply app_nil_r.
Qed.

Lemma Load_calls_no_save w path :
  existsb is_save_event (snd (Load w path)) = false.
Proof.
  unfold Load, bind, emit, ret.
  destruct (os_Open w path) as [file|e]; [|reflexivity].
  destruct (image_Decode w file); reflexivity.
Qed.

Lemma ResizeImage_calls_no_save w img spec :
  existsb is_save_event (snd (Resize.ResizeImage w img spec)) = false.
Proof.
  unfold Resize.ResizeImage.
  destruct (F64.eqb (rsScale spec) F64.zero && (rsWidth spec =? 0)%Z
            && (rsHeight spec =? 0)%Z); [reflexivity|].
  destruct (Resize.CalculateOutputSizeFromImage img spec) as [dw dh].
  destruct ((dw =? Dx img)%Z && (dh =? Dy img)%Z); reflexivity.
Qed.

(** [Save] starts by creating the file. *)
Lemma Save_calls_create w img path fmt quality :
  exists rest, snd (Save w img path fmt quality) = EvCreate path :: rest.
Proof.
  unfold Save, bind, emit, ret.
  destruct (os_Create w path); [eexists; reflexivity|].
  repeat match goal with
         | |- context [String.eqb fmt ?k] => destruct (String.eqb fmt k)
         end; eexists; reflexivity.
Qed.

(** A format outside the five of the [switch] makes [Save] fail, after the
    file has been created and without any encoder being called. *)
Lemma Save_unsupported w img path fmt quality :
  Format.newExt fmt = ".jpg" -> fmt <> FormatJPEG ->
  exists e, fst (Save w img path fmt quality) = Some e
            /\ snd (Save w img path fmt quality) = [EvCreate path].
Proof.
  intros Hext Hne. unfold Save, bind, emit, ret.
  destruct (os_Create w path) as [e|]; [eexists; split; reflexivity|].
  unfold Format.newExt in Hext.
  apply String.eqb_neq in Hne. rewrite Hne in *.
  repeat match goal with
         | H : context [String.eqb fmt ?k] |- _ =>
             destruct (String.eqb fmt k); [discriminate H|]
         end.
  eexists; split; reflexivity.
Qed.

End ConvertImageCases.

Section ClassifierVsDetector.
Import Types Records Env.

Lemma map_get_image_extensions (ext : string) :
  map_get [(".jpg", true); (".jpeg", true); (".png", true);
           (".gif", true); (".bmp", true); (".webp", true)] ext
  = String.eqb ext ".jpg" || String.eqb ext ".jpeg" || String.eqb ext ".png"
    || String.eqb ext ".gif" || String.eqb ext ".bmp" || String.eqb ext ".webp".
Proof.
  cbn [map_get].
  rewrite !(String.eqb_sym _ ext).
  repeat match goal with
         | |- context [String.eqb ext ?k] => destruct (String.eqb ext k)
         end; reflexivity.
Qed.

Lemma IsImageFile_is_DetectFormat_ok (path : string) :
  Filesystem.IsImageFile path = is_ok (Format.DetectFormat path).
Proof.
  unfold Filesystem.IsImageFile, Format.DetectFormat.
  rewrite map_get_image_extensions.
  generalize (GoStrings.ToLower (Filepath.Ext path)); intro ext.
  repeat match goal with
         | |- context [String.eqb ext ?k] => destruct (String.eqb ext k)
         end; reflexivity.
Qed.

(** What [ConvertImage] returns when the format has to be detected. *)
Lemma ConvertImage_detect_error w c sourcePath outputDir e :
  Error (fst (Converter.ConvertImage w c sourcePath outputDir))
  = Some ("failed to detect format: " ++ e) ->
  Format (Converter.config c) = "" /\ is_ok (Format.DetectFormat sourcePath) = false.
Proof.
  destruct (ConvertImage_cases w c sourcePath outputDir) as [H|[H|[H|H]]].
  - destruct H as (e1 & _ & ->). discriminate.
  - destruct H as (img & e1 & _ & Hres & ->). cbn.
    intros _. unfold Converter.resolve_format in Hres.
    destruct (String.eqb (Format (Converter.config c)) "") eqn:Hfmt;
      cbn in Hres; [|discriminate Hres].
    apply String.eqb_eq in Hfmt. rewrite Hres. auto.
  - destruct H as (img & fmt & e1 & _ & _ & _ & ->). discriminate.
  - destruct H as (img & fmt & _ & _ & _ & ->). discriminate.
Qed.

End ClassifierVsDetector.

(** C10.  The classifier [IsImageFile] accepts a path exactly when
    [DetectFormat] succeeds on it: every accepted path has a detected
    format, and the two extension lists coincide.  Hence a file that the
    classifier accepted never makes [ConvertImage] fail with the format
    detector's "unsupported image format" error. *)
Theorem C10_classifier_implies_detectable :
  (forall path, Filesystem.IsImageFile path = true ->
                exists fmt, Format.DetectFormat path = Ok fmt)
  /\ (forall path, Filesystem.IsImageFile path = is_ok (Format.DetectFormat path))
  /\ (forall w c sourcePath outputDir e,
         Filesystem.IsImageFile sourcePath = true ->
         Records.Error (fst (Converter.ConvertImage w c sourcePath outputDir))
         <> Some ("failed to detect format: " ++ e)).
Proof.
  split; [|split].
  - intros path H. rewrite IsImageFile_is_DetectFormat_ok in H.
    destruct (Format.DetectFormat path) as [fmt|e]; [eauto | discriminate H].
  - exact IsImageFile_is_DetectFormat_ok.
  - intros w c sourcePath outputDir e H Herr.
    apply ConvertImage_detect_error in Herr. destruct Herr as [_ Hd].
    rewrite IsImageFile_is_DetectFormat_ok in H. congruence.
Qed.

Lemma C10_witness :
  Filesystem.IsImageFile "in/Photo.JPEG" = true
  /\ exists fmt, Format.DetectFormat "in/Photo.JPEG" = Ok fmt.
Proof.
  split; [reflexivity|].
  apply (proj1 C10_classifier_implies_detectable "in/Photo.JPEG"). reflexivity.
Defined.


(** ** Wrap-around arithmetic *)

Section GoIntFacts.
Local Open Scope Z_scope.

Lemma wrap_small z :
  GoInt.min_int <= z <= GoInt.max_int -> GoInt.wrap z = z.
Proof.
  unfold GoInt.wrap, GoInt.min_int, GoInt.max_int. intros H.
  rewrite Z.mod_small; lia.
Qed.

Lemma wrap_add_l a b : GoInt.wrap (GoInt.wrap a + b) = GoInt.wrap (a + b).
Proof.
  unfold GoInt.wrap.
  replace ((a + 2 ^ 63) mod 2 ^ 64 - 2 ^ 63 + b + 2 ^ 63)
    with ((a + 2 ^ 63) mod 2 ^ 64 + b) by lia.
  rewrite Zplus_mod_idemp_l. f_equal. f_equal. lia.
Qed.

Lemma wrap_add_r a b : GoInt.wrap (a + GoInt.wrap b) = GoInt.wrap (a + b).
Proof. rewrite Z.add_comm, wrap_add_l. f_equal. lia. Qed.

Lemma incr_wrap a : GoInt.incr (GoInt.wrap a) = GoInt.wrap (a + 1).
Proof. unfold GoInt.incr, GoInt.add. apply wrap_add_l. Qed.

Lemma incr_small z :
  GoInt.min_int <= z < GoInt.max_int -> GoInt.incr z = z + 1.
Proof.
  intros H. unfold GoInt.incr, GoInt.add. apply wrap_small. lia.
Qed.

Lemma incr_neq z : GoInt.incr z <> z.
Proof.
  unfold GoInt.incr, GoInt.add, GoInt.wrap. intros H.
  assert (E : (z + 1 + 2 ^ 63) mod 2 ^ 64 = z + 2 ^ 63) by lia.
  assert (B : 0 <= z + 2 ^ 63 < 2 ^ 64)
    by (rewrite <- E; apply Z.mod_pos_bound; lia).
  pose proof (Z.mod_small (z + 2 ^ 63) (2 ^ 64) B) as S.
  assert (D : (z + 1 + 2 ^ 63) mod 2 ^ 64 = (z + 2 ^ 63) mod 2 ^ 64) by lia.
  apply (f_equal (fun x => (x - (z + 2 ^ 63)) mod 2 ^ 64)) in D.
  rewrite Zminus_mod_idemp_l in D.
  replace (z + 1 + 2 ^ 63 - (z + 2 ^ 63)) with 1 in D by lia.
  rewrite Zminus_mod_idemp_l in D.
  replace (z + 2 ^ 63 - (z + 2 ^ 63)) with 0 in D by lia.
  cbv in D. discriminate D.
Qed.

End GoIntFacts.

(** ** The counters *)

Section StatsFacts.
Import Records Converter StatsOps.
Local Open Scope Z_scope.

Lemma count_app f ops1 ops2 :
  count f (ops1 ++ ops2) = count f ops1 + count f ops2.
Proof.
  unfold count. rewrite filter_app, length_app. lia.
Qed.

Lemma count_nonneg f ops : 0 <= count f ops.
Proof. unfold count. lia. Qed.

Lemma count_partition ops :
  count is_success ops + count is_failure ops + count is_skip ops
  = Z.of_nat (List.length ops).
Proof.
  unfold count. induction ops as [|op ops IH]; [reflexivity|].
  cbn [filter List.length].
  destruct op as [r|]; cbn [is_success is_failure is_skip];
    [destruct (crSuccess r)|]; cbn [negb List.length]; lia.
Qed.

Lemma apply_op_stats c s0 ops op :
  stats c = stats_after s0 ops ->
  stats (apply_op c op) = stats_after s0 (ops ++ [op]).
Proof.
  intros Hc. unfold stats_after. rewrite !count_app, length_app.
  destruct op as [r|]; cbn [apply_op].
  - unfold UpdateStats. rewrite Hc. destruct (crSuccess r) eqn:Hr;
      cbn [stats set_stats stats_after Total Success Failed Skipped];
      rewrite !incr_wrap; unfold count; cbn [filter is_success is_failure is_skip];
      rewrite Hr; cbn [negb List.length]; f_equal; f_equal; lia.
  - unfold IncrementSkipped. rewrite Hc.
    cbn [stats set_stats stats_after Total Success Failed Skipped].
    rewrite !incr_wrap. unfold count; cbn [filter is_success is_failure is_skip].
    cbn [List.length]. f_equal; f_equal; lia.
Qed.

Lemma run_ops_snoc ops op c :
  run_ops (ops ++ [op]) c = apply_op (run_ops ops c) op.
Proof. unfold run_ops. rewrite fold_left_app. reflexivity. Qed.

Lemma run_ops_stats cfg ops :
  stats (run_ops ops (NewConverter cfg)) = stats_after StatsOps.zero_stats ops.
Proof.
  induction ops as [|op ops IH] using rev_ind.
  - reflexivity.
  - rewrite run_ops_snoc. apply apply_op_stats. exact IH.
Qed.

End StatsFacts.

(** C3.  In every state reached from the empty statistics by any sequence
    of [UpdateStats] and [IncrementSkipped] calls, [Total] equals
    [Success + Failed + Skipped] (in Go's arithmetic without any condition,
    and as plain integers as long as the number of calls fits an [int]).
    Each call adds one to [Total] and one to exactly one of the other
    three counters, leaving the remaining two alone; as long as the number
    of calls stays below the largest [int], adding one is the plain
    successor. *)
Theorem C3_stats_invariant (cfg : Records.Config) (ops : list StatsOps.StatsOp) :
  let c := StatsOps.run_ops ops (Converter.NewConverter cfg) in
  let s := Converter.stats c in
  Records.Total s
  = GoInt.add (GoInt.add (Records.Success s) (Records.Failed s)) (Records.Skipped s)
  /\ (Z.of_nat (List.length ops) <= GoInt.max_int ->
      Records.Total s = Records.Success s + Records.Failed s + Records.Skipped s
      /\ Records.Total s = Z.of_nat (List.length ops))%Z
  /\ (forall r,
         let s' := Converter.stats (Converter.UpdateStats c r) in
         Records.Total s' = GoInt.incr (Records.Total s)
         /\ Records.Skipped s' = Records.Skipped s
         /\ (if Records.crSuccess r
             then Records.Success s' = GoInt.incr (Records.Success s)
                  /\ Records.Failed s' = Records.Failed s
             else Records.Failed s' = GoInt.incr (Records.Failed s)
                  /\ Records.Success s' = Records.Success s))
  /\ (let s' := Converter.stats (Converter.IncrementSkipped c) in
      Records.Total s' = GoInt.incr (Records.Total s)
      /\ Records.Skipped s' = GoInt.incr (Records.Skipped s)
      /\ Records.Success s' = Records.Success s
      /\ Records.Failed s' = Records.Failed s)
  /\ (forall z, GoInt.incr z <> z)
  /\ (Z.of_nat (List.length ops) < GoInt.max_int ->
      GoInt.incr (Records.Total s) = Records.Total s + 1
      /\ GoInt.incr (Records.Success s) = Records.Success s + 1
      /\ GoInt.incr (Records.Failed s) = Records.Failed s + 1
      /\ GoInt.incr (Records.Skipped s) = Records.Skipped s + 1)%Z.
Proof.
  intros c s.
  assert (Hs : s = StatsOps.stats_after StatsOps.zero_stats ops)
    by (subst s c; apply run_ops_stats).
  pose proof (count_partition ops) as Hp.
  pose proof (count_nonneg StatsOps.is_success ops) as H1.
  pose proof (count_nonneg StatsOps.is_failure ops) as H2.
  pose proof (count_nonneg StatsOps.is_skip ops) as H3.
  assert (Hsmall : forall n, (0 <= n <= Z.of_nat (List.length ops))%Z ->
                             (Z.of_nat (List.length ops) <= GoInt.max_int)%Z ->
                             GoInt.wrap n = n).
  { intros n Hn Hle. apply wrap_small. unfold GoInt.min_int, GoInt.max_int in *. lia. }
  repeat split.
  - rewrite Hs. unfold StatsOps.stats_after, StatsOps.zero_stats, GoInt.add.
    cbn [Records.Total Records.Success Records.Failed Records.Skipped].
    rewrite wrap_add_l, wrap_add_r, <- Z.add_assoc, wrap_add_l.
    rewrite Z.add_assoc, (Z.add_comm (0 + _) (GoInt.wrap _)), <- Z.add_assoc.
    rewrite wrap_add_l. f_equal. lia.
  - rewrite Hs. unfold StatsOps.stats_after, StatsOps.zero_stats.
    cbn [Records.Total Records.Success Records.Failed Records.Skipped].
    rewrite !Hsmall by lia. lia.
  - rewrite Hs. unfold StatsOps.stats_after, StatsOps.zero_stats.
    cbn [Records.Total]. rewrite !Hsmall by lia. lia.
  - unfold Converter.UpdateStats. fold s. destruct (Records.crSuccess r); reflexivity.
  - unfold Converter.UpdateStats. fold s. destruct (Records.crSuccess r); reflexivity.
  - unfold Converter.UpdateStats. fold s.
    destruct (Records.crSuccess r); split; reflexivity.
  - apply incr_neq.
  - rewrite Hs. unfold StatsOps.stats_after, StatsOps.zero_stats. cbn [Records.Total].
    rewrite Hsmall by lia. apply incr_small. unfold GoInt.min_int. lia.
  - rewrite Hs. unfold StatsOps.stats_after, StatsOps.zero_stats. cbn [Records.Success].
    rewrite Hsmall by lia. apply incr_small. unfold GoInt.min_int. lia.
  - rewrite Hs. unfold StatsOps.stats_after, StatsOps.zero_stats. cbn [Records.Failed].
    rewrite Hsmall by lia. apply incr_small. unfold GoInt.min_int. lia.
  - rewrite Hs. unfold StatsOps.stats_after, StatsOps.zero_stats. cbn [Records.Skipped].
    rewrite Hsmall by lia. apply incr_small. unfold GoInt.min_int. lia.
Qed.

(** ** Resizing: the two early returns *)

Section ResizeFacts.
Import Records Env Resize.
Local Open Scope Z_scope.

(** A scale that compares equal to zero is not greater than zero. *)
Lemma eqb_zero_not_ltb (x : F64.float64) :
  F64.eqb x F64.zero = true -> F64.ltb F64.zero x = false.
Proof.
  unfold F64.eqb, F64.ltb, F64.zero.
  rewrite eqb_spec, ltb_spec.
  change (Prim2SF PrimFloat.zero) with (S754_zero false).
  destruct (Prim2SF x) as [s|s| |s m e]; try reflexivity;
    destruct s; cbv; congruence.
Qed.

Lemma CalculateOutputSize_no_request srcWidth srcHeight spec :
  F64.eqb (rsScale spec) F64.zero = true ->
  rsWidth spec = 0 -> rsHeight spec = 0 ->
  CalculateOutputSize srcWidth srcHeight spec = (srcWidth, srcHeight).
Proof.
  intros Hs Hw Hh. unfold CalculateOutputSize.
  rewrite (eqb_zero_not_ltb _ Hs), Hw, Hh. reflexivity.
Qed.

Lemma ResizeImage_no_request w src spec :
  F64.eqb (rsScale spec) F64.zero = true ->
  rsWidth spec = 0 -> rsHeight spec = 0 ->
  ResizeImage w src spec = (src, []).
Proof.
  intros Hs Hw Hh. unfold ResizeImage. rewrite Hs, Hw, Hh. reflexivity.
Qed.

Lemma ResizeImage_same_size w src spec :
  CalculateOutputSizeFromImage src spec = (Dx src, Dy src) ->
  ResizeImage w src spec = (src, []).
Proof.
  intros H. unfold ResizeImage. rewrite H, !Z.eqb_refl. cbn [andb].
  destruct (F64.eqb (rsScale spec) F64.zero && (rsWidth spec =? 0)
            && (rsHeight spec =? 0)); reflexivity.
Qed.

(** When the size does change, a destination is allocated and resampled. *)
Lemma ResizeImage_resamples w src spec dstWidth dstHeight :
  F64.eqb (rsScale spec) F64.zero && (rsWidth spec =? 0) && (rsHeight spec =? 0)
  = false ->
  CalculateOutputSizeFromImage src spec = (dstWidth, dstHeight) ->
  (dstWidth =? Dx src) && (dstHeight =? Dy src) = false ->
  ResizeImage w src spec
  = ({| Dx := dstWidth; Dy := dstHeight;
        Pix := draw_CatmullRom_Scale w dstWidth dstHeight src |},
     [EvNewRGBA dstWidth dstHeight; EvScale dstWidth dstHeight]).
Proof.
  intros H0 Hsz Hne. unfold ResizeImage. rewrite H0, Hsz, Hne. reflexivity.
Qed.

End ResizeFacts.

(** ** Output names *)

Section PathFacts.
Import Types Format.

Lemma chars_app s1 s2 :
  Filepath.chars (s1 ++ s2) = (Filepath.chars s1 ++ Filepath.chars s2)%list.
Proof.
  unfold Filepath.chars. induction s1 as [|c s1 IH]; cbn; [reflexivity|].
  now rewrite IH.
Qed.

Lemma str_chars s : Filepath.str (Filepath.chars s) = s.
Proof. apply string_of_list_ascii_of_string. Qed.

(** The scan of [Ext] stops at the first dot when nothing before it (seen
    from the end) is a dot or a separator. *)
Lemma ext_scan_to_dot tail r acc :
  forallb (fun c => negb (Filepath.IsPathSeparator c)
                    && negb (Ascii.eqb c "."%char)) tail = true ->
  Filepath.ext_scan (tail ++ "."%char :: r) acc
  = ("."%char :: rev tail ++ acc)%list.
Proof.
  revert acc. induction tail as [|c tail IH]; intros acc H.
  - reflexivity.
  - cbn [forallb] in H. apply andb_prop in H. destruct H as [Hc Ht].
    apply andb_prop in Hc. destruct Hc as [Hs Hd].
    apply negb_true_iff in Hs, Hd.
    cbn [app Filepath.ext_scan]. rewrite Hs, Hd, (IH _ Ht).
    cbn [rev]. now rewrite <- app_assoc.
Qed.

Lemma Ext_append_extension s ext_tail :
  forallb (fun c => negb (Filepath.IsPathSeparator c)
                    && negb (Ascii.eqb c "."%char))
          (rev (Filepath.chars ext_tail)) = true ->
  Filepath.Ext (s ++ String "."%char ext_tail) = String "."%char ext_tail.
Proof.
  intros H. unfold Filepath.Ext.
  rewrite chars_app, rev_app_distr.
  change (Filepath.chars (String "."%char ext_tail))
    with ("."%char :: Filepath.chars ext_tail).
  cbn [rev]. rewrite <- app_assoc. cbn [app].
  rewrite (ext_scan_to_dot _ _ _ H), rev_involutive, app_nil_r.
  change ("."%char :: Filepath.chars ext_tail)
    with (Filepath.chars (String "."%char ext_tail)).
  apply str_chars.
Qed.

Lemma newExt_cases fmt :
  newExt fmt = ".jpg" \/ newExt fmt = ".png" \/ newExt fmt = ".webp"
  \/ newExt fmt = ".gif" \/ newExt fmt = ".bmp".
Proof.
  unfold newExt.
  repeat match goal with
         | |- context [String.eqb fmt ?k] => destruct (String.eqb fmt k)
         end; auto.
Qed.

Lemma Ext_append_newExt s fmt : Filepath.Ext (s ++ newExt fmt) = newExt fmt.
Proof.
  destruct (newExt_cases fmt) as [H|[H|[H|[H|H]]]]; rewrite H;
    apply Ext_append_extension; reflexivity.
Qed.

Lemma substring_prefix s t :
  substring 0 (String.length s) (s ++ t) = s.
Proof.
  induction s as [|c s IH]; cbn.
  - destruct t; reflexivity.
  - now rewrite IH.
Qed.

Lemma substring_suffix s t :
  substring (String.length s) (String.length t) (s ++ t) = t.
Proof.
  induction s as [|c s IH]; cbn; [|exact IH].
  induction t as [|c t IHt]; cbn; [reflexivity|]. now rewrite IHt.
Qed.

Lemma length_append s t :
  String.length (s ++ t) = (String.length s + String.length t)%nat.
Proof. induction s as [|c s IH]; cbn; [reflexivity|]. now rewrite IH. Qed.

Lemma TrimSuffix_append s t : GoStrings.TrimSuffix (s ++ t) t = s.
Proof.
  unfold GoStrings.TrimSuffix, GoStrings.HasSuffix.
  rewrite length_append.
  replace (String.length s + String.length t - String.length t)%nat
    with (String.length s) by lia.
  rewrite substring_suffix, String.eqb_refl, substring_prefix.
  replace (String.length t <=? String.length s + String.length t)%nat
    with true by (symmetry; apply Nat.leb_le; lia).
  reflexivity.
Qed.

Lemma chars_str l : Filepath.chars (Filepath.str l) = l.
Proof. apply list_ascii_of_string_of_list_ascii. Qed.

Lemma str_app l1 l2 :
  Filepath.str (l1 ++ l2) = Filepath.str l1 ++ Filepath.str l2.
Proof.
  unfold Filepath.str. induction l1 as [|c l1 IH]; cbn; [reflexivity|].
  now rewrite IH.
Qed.

Lemma chars_eqb_true a b : Filepath.chars_eqb a b = true <-> a = b.
Proof.
  unfold Filepath.chars_eqb. rewrite String.eqb_eq. split.
  - intros H. apply (f_equal Filepath.chars) in H. now rewrite !chars_str in H.
  - now intros ->.
Qed.

Lemma chars_eqb_false a b : Filepath.chars_eqb a b = false <-> a <> b.
Proof.
  rewrite <- chars_eqb_true. destruct (Filepath.chars_eqb a b); split;
    congruence.
Qed.

(** *** [Clean] of a directory followed by a plain name *)

Lemma split_seps_sep_free n cur :
  Filepath.sep_free n = true ->
  Filepath.split_seps n cur = [(rev cur ++ n)%list].
Proof.
  revert cur. induction n as [|c n IH]; intros cur H; cbn.
  - now rewrite app_nil_r.
  - cbn in H. apply andb_prop in H. destruct H as [Hc Hn].
    apply negb_true_iff in Hc. rewrite Hc, (IH _ Hn). cbn.
    now rewrite <- app_assoc.
Qed.

Lemma split_seps_snoc l n cur :
  Filepath.sep_free n = true ->
  Filepath.split_seps (l ++ Filepath.Separator :: n) cur
  = (Filepath.split_seps l cur ++ [n])%list.
Proof.
  intros Hn. revert cur. induction l as [|c l IH]; intros cur; cbn.
  - now rewrite (split_seps_sep_free n [] Hn).
  - destruct (Filepath.IsPathSeparator c); cbn; now rewrite IH.
Qed.

Lemma sep_free_app l1 l2 :
  Filepath.sep_free (l1 ++ l2)
  = Filepath.sep_free l1 && Filepath.sep_free l2.
Proof. apply forallb_app. Qed.

Lemma sep_free_rev l : Filepath.sep_free (rev l) = Filepath.sep_free l.
Proof.
  induction l as [|c l IH]; [reflexivity|].
  cbn [rev]. rewrite sep_free_app, IH. cbn. rewrite andb_true_r.
  apply andb_comm.
Qed.

Lemma split_seps_elems l cur :
  Filepath.sep_free cur = true ->
  Forall (fun e => Filepath.sep_free e = true) (Filepath.split_seps l cur).
Proof.
  revert cur. induction l as [|c l IH]; intros cur Hcur; cbn.
  - constructor; [now rewrite sep_free_rev | constructor].
  - destruct (Filepath.IsPathSeparator c) eqn:Hc.
    + constructor; [now rewrite sep_free_rev | now apply IH].
    + apply IH. cbn. now rewrite Hc.
Qed.

Lemma clean_elems_kept rooted elems out :
  Forall (fun e => Filepath.sep_free e = true) elems ->
  Forall Filepath.kept_elem out ->
  Forall Filepath.kept_elem (Filepath.clean_elems rooted elems out).
Proof.
  revert out. induction elems as [|e elems IH]; intros out Hel Hout; cbn.
  - apply Forall_rev. exact Hout.
  - inversion Hel as [|? ? He Hel']; subst.
    destruct (Filepath.chars_eqb e []) eqn:E1; cbn [orb]; [now apply IH|].
    destruct (Filepath.chars_eqb e Filepath.dot) eqn:E2; [now apply IH|].
    apply chars_eqb_false in E1, E2.
    assert (Hk : Forall Filepath.kept_elem (e :: out))
      by (constructor; [repeat split; assumption | exact Hout]).
    destruct (Filepath.chars_eqb e Filepath.dotdot).
    + destruct out as [|top out'].
      * destruct rooted; apply IH; auto.
      * destruct (Filepath.chars_eqb top Filepath.dotdot); apply IH; auto.
        now inversion Hout.
    + apply IH; auto.
Qed.

Lemma clean_elems_snoc rooted elems out x :
  Filepath.chars_eqb x [] = false ->
  Filepath.chars_eqb x Filepath.dot = false ->
  Filepath.chars_eqb x Filepath.dotdot = false ->
  Filepath.clean_elems rooted (elems ++ [x]) out
  = (Filepath.clean_elems rooted elems out ++ [x])%list.
Proof.
  intros H1 H2 H3. revert out.
  induction elems as [|e elems IH]; intros out; cbn.
  - now rewrite H1, H2, H3.
  - destruct (Filepath.chars_eqb e [] || Filepath.chars_eqb e Filepath.dot);
      [apply IH|].
    destruct (Filepath.chars_eqb e Filepath.dotdot); [|apply IH].
    destruct out as [|top out']; [destruct rooted; apply IH|].
    destruct (Filepath.chars_eqb top Filepath.dotdot); apply IH.
Qed.

Lemma join_elems_snoc e l x :
  Filepath.join_elems ((e :: l) ++ [x])
  = (Filepath.join_elems (e :: l) ++ Filepath.Separator :: x)%list.
Proof.
  revert e. induction l as [|e' l IH]; intros e.
  - reflexivity.
  - change (Filepath.join_elems ((e :: e' :: l) ++ [x]))
      with (e ++ Filepath.Separator :: Filepath.join_elems ((e' :: l) ++ [x]))%list.
    rewrite IH.
    change (Filepath.join_elems (e :: e' :: l))
      with (e ++ Filepath.Separator :: Filepath.join_elems (e' :: l))%list.
    now rewrite <- app_assoc.
Qed.

Lemma join_elems_nonempty e l :
  Forall Filepath.kept_elem (e :: l) -> Filepath.join_elems (e :: l) <> [].
Proof.
  intros H. inversion H as [|? ? [He _] _]; subst.
  destruct l; cbn; [exact He|].
  destruct e; [contradiction | discriminate].
Qed.

(** A cleaned relative path with at least one element is neither ["/"] nor
    ["."]. *)
Lemma join_elems_not_special e l :
  Forall Filepath.kept_elem (e :: l) ->
  Filepath.join_elems (e :: l) <> [Filepath.Separator]
  /\ Filepath.join_elems (e :: l) <> Filepath.dot.
Proof.
  intros H. inversion H as [|? ? [He [Hd Hs]] _]; subst.
  destruct l as [|e' l].
  - cbn. split; [|exact Hd]. intros ->. discriminate Hs.
  - change (Filepath.join_elems (e :: e' :: l))
      with (e ++ Filepath.Separator :: Filepath.join_elems (e' :: l))%list.
    destruct e as [|c e]; [contradiction|].
    split; intros E; injection E as _ E; destruct e; discriminate E.
Qed.

Lemma str_nil_iff l : Filepath.str l = "" <-> l = [].
Proof.
  split; [|now intros ->]. destruct l; [reflexivity | discriminate].
Qed.

Lemma str_inj l1 l2 : Filepath.str l1 = Filepath.str l2 -> l1 = l2.
Proof.
  intros H. apply (f_equal Filepath.chars) in H. now rewrite !chars_str in H.
Qed.

Lemma plain_name_chars name :
  Filepath.plain_name name = true ->
  Filepath.sep_free (Filepath.chars name) = true
  /\ Filepath.chars_eqb (Filepath.chars name) [] = false
  /\ Filepath.chars_eqb (Filepath.chars name) Filepath.dot = false
  /\ Filepath.chars_eqb (Filepath.chars name) Filepath.dotdot = false.
Proof.
  unfold Filepath.plain_name, Filepath.chars_eqb. rewrite str_chars.
  intros H. repeat (apply andb_prop in H; destruct H as [H ?]).
  repeat split; try assumption; now apply negb_true_iff.
Qed.

Lemma Clean_dir_name d name :
  d <> "" -> Filepath.plain_name name = true ->
  Filepath.Clean (d ++ String Filepath.Separator name)
  = Filepath.under (Filepath.Clean d) name.
Proof.
  intros Hd Hn.
  destruct (plain_name_chars name Hn) as (Hsf & Hx1 & Hx2 & Hx3).
  unfold Filepath.Clean. rewrite chars_app.
  change (Filepath.chars (String Filepath.Separator name))
    with (Filepath.Separator :: Filepath.chars name).
  destruct (Filepath.chars d) as [|c l] eqn:Hc.
  { exfalso. apply Hd. rewrite <- (str_chars d), Hc. reflexivity. }
  cbn [app]. rewrite app_comm_cons.
  rewrite (split_seps_snoc (c :: l) (Filepath.chars name) [] Hsf).
  rewrite (clean_elems_snoc _ _ _ _ Hx1 Hx2 Hx3).
  pose proof (clean_elems_kept (Filepath.IsPathSeparator c)
                (Filepath.split_seps (c :: l) []) []
                (split_seps_elems (c :: l) [] eq_refl) (Forall_nil _)) as HL.
  destruct (Filepath.clean_elems (Filepath.IsPathSeparator c)
              (Filepath.split_seps (c :: l) []) []) as [|e L].
  - cbn [app Filepath.join_elems].
    apply chars_eqb_false in Hx1.
    destruct (Filepath.IsPathSeparator c).
    + cbn. now rewrite str_chars.
    + destruct (Filepath.chars name) eqn:Hcn; [contradiction|].
      rewrite <- Hcn, str_chars. reflexivity.
  - rewrite join_elems_snoc.
    pose proof (join_elems_nonempty e L HL) as Hne.
    destruct (join_elems_not_special e L HL) as [Hsep Hdot].
    remember (Filepath.join_elems (e :: L)) as J eqn:HJ. clear HJ.
    unfold Filepath.under.
    destruct (Filepath.IsPathSeparator c).
    + replace (String.eqb (String Filepath.Separator (Filepath.str J))
                          (String Filepath.Separator "")) with false.
      2:{ symmetry. apply String.eqb_neq. intros E. injection E as E.
          apply str_nil_iff in E. contradiction. }
      cbn [String.eqb Ascii.eqb Bool.eqb Filepath.Separator andb].
      rewrite str_app. cbn. now rewrite str_chars.
    + assert (E1 : String.eqb (Filepath.str J) (String Filepath.Separator "")
                     = false).
      { apply String.eqb_neq. intros E.
        apply (str_inj J [Filepath.Separator]) in E. contradiction. }
      assert (E2 : String.eqb (Filepath.str J) "." = false).
      { apply String.eqb_neq. intros E.
        apply (str_inj J Filepath.dot) in E. contradiction. }
      destruct J as [|j J']; [contradiction|].
      rewrite E1, E2. cbn [app].
      change (j :: (J' ++ Filepath.Separator :: Filepath.chars name)%list)
        with ((j :: J') ++ Filepath.Separator :: Filepath.chars name)%list.
      rewrite str_app. cbn. now rewrite str_chars.
Qed.

Lemma Join_dir_name d name :
  d <> "" -> Filepath.plain_name name = true ->
  Filepath.Join [d; name] = Filepath.under (Filepath.Clean d) name.
Proof.
  intros Hd Hn. unfold Filepath.Join. cbn [filter].
  replace (String.eqb d "") with false
    by (symmetry; now apply String.eqb_neq).
  assert (Hne : String.eqb name "" = false).
  { unfold Filepath.plain_name in Hn.
    repeat (apply andb_prop in Hn; destruct Hn as [Hn ?]).
    now apply negb_true_iff. }
  rewrite Hne. cbn [negb String.concat].
  now apply Clean_dir_name.
Qed.

(** *** Base name and extension *)

Lemma ext_scan_suffix r acc :
  exists pre, (rev r ++ acc)%list = (pre ++ Filepath.ext_scan r acc)%list.
Proof.
  revert acc. induction r as [|c r IH]; intros acc; cbn [rev Filepath.ext_scan].
  - exists acc. now rewrite app_nil_r.
  - rewrite <- app_assoc. cbn [app].
    destruct (Filepath.IsPathSeparator c).
    + exists (rev r ++ c :: acc)%list. now rewrite app_nil_r.
    + destruct (Ascii.eqb c "."%char).
      * exists (rev r). reflexivity.
      * apply IH.
Qed.

Lemma Ext_suffix path : exists stem, path = stem ++ Filepath.Ext path.
Proof.
  destruct (ext_scan_suffix (rev (Filepath.chars path)) []) as [pre H].
  rewrite rev_involutive, app_nil_r in H.
  exists (Filepath.str pre). unfold Filepath.Ext.
  rewrite <- str_app, <- H. symmetry. apply str_chars.
Qed.

(** The base name is its stem followed by its extension. *)
Lemma TrimSuffix_Ext base :
  base = GoStrings.TrimSuffix base (Filepath.Ext base) ++ Filepath.Ext base.
Proof.
  destruct (Ext_suffix base) as [stem H].
  rewrite H at 2. rewrite TrimSuffix_append. exact H.
Qed.

Lemma last_elem_sep_free r acc :
  Filepath.sep_free acc = true ->
  Filepath.sep_free (Filepath.last_elem r acc) = true.
Proof.
  revert acc. induction r as [|c r IH]; intros acc H; cbn; [exact H|].
  destruct (Filepath.IsPathSeparator c) eqn:Hc; [exact H|].
  apply IH. cbn. now rewrite Hc.
Qed.

Lemma Base_sep_free path :
  Filepath.Base path = String Filepath.Separator ""
  \/ Filepath.sep_free (Filepath.chars (Filepath.Base path)) = true.
Proof.
  unfold Filepath.Base. destruct path as [|c path]; [right; reflexivity|].
  pose proof (last_elem_sep_free
                (Filepath.strip_seps (rev (Filepath.chars (String c path))))
                [] eq_refl) as H.
  destruct (Filepath.last_elem _ []) as [|x l]; [left; reflexivity|].
  right. now rewrite chars_str.
Qed.

Lemma newExt_length fmt : (4 <= String.length (newExt fmt))%nat.
Proof.
  destruct (newExt_cases fmt) as [H|[H|[H|[H|H]]]]; rewrite H; cbn; lia.
Qed.

Lemma newExt_sep_free fmt :
  Filepath.sep_free (Filepath.chars (newExt fmt)) = true.
Proof.
  destruct (newExt_cases fmt) as [H|[H|[H|[H|H]]]]; rewrite H; reflexivity.
Qed.

Lemma GenerateOutputFilename_plain inputPath fmt :
  Filepath.Base inputPath <> String Filepath.Separator "" ->
  Filepath.plain_name (GenerateOutputFilename inputPath fmt) = true.
Proof.
  intros Hb. unfold GenerateOutputFilename, Filepath.plain_name.
  set (base := Filepath.Base inputPath).
  set (stem := GoStrings.TrimSuffix base (Filepath.Ext base)).
  assert (Hstem : Filepath.sep_free (Filepath.chars stem) = true).
  { destruct (Base_sep_free inputPath) as [H|H]; [contradiction|].
    fold base in H. rewrite (TrimSuffix_Ext base), chars_app, sep_free_app in H.
    apply andb_prop in H. tauto. }
  rewrite chars_app, sep_free_app, Hstem, newExt_sep_free. cbn [andb].
  pose proof (newExt_length fmt) as Hlen.
  assert (Hneq : forall short, (String.length short < 4)%nat ->
                               String.eqb (stem ++ newExt fmt) short = false).
  { intros short Hshort. apply String.eqb_neq. intros E.
    apply (f_equal String.length) in E. rewrite length_append in E. lia. }
  rewrite !Hneq by (cbn; lia). reflexivity.
Qed.

End PathFacts.

(** C8.  [GenerateOutputPath] is a function of its three string arguments
    alone.  The file name it produces is the stem of the source's base
    name (the base name without its extension) followed by the canonical
    extension of the format: [.jpg] for jpeg, [.png], [.webp], [.gif] and
    [.bmp]; the stem can be read back from the produced name and does not
    depend on the format.  The name is placed under the cleaned output
    directory; [photo.jpg] converted to png under [out] gives
    [out/photo.png]. *)
Theorem C8_output_path :
  (Format.newExt Types.FormatJPEG = ".jpg"
   /\ Format.newExt Types.FormatPNG = ".png"
   /\ Format.newExt Types.FormatWebP = ".webp"
   /\ Format.newExt Types.FormatGIF = ".gif"
   /\ Format.newExt Types.FormatBMP = ".bmp")
  /\ (forall inputPath outputDir fmt,
         let base := Filepath.Base inputPath in
         let stem := GoStrings.TrimSuffix base (Filepath.Ext base) in
         let name := Format.GenerateOutputFilename inputPath fmt in
         base = stem ++ Filepath.Ext base
         /\ name = stem ++ Format.newExt fmt
         /\ Filepath.Ext name = Format.newExt fmt
         /\ GoStrings.TrimSuffix name (Filepath.Ext name) = stem
         /\ Format.GenerateOutputPath inputPath outputDir fmt
            = Filepath.Join [outputDir; name])
  /\ (forall inputPath fmt1 fmt2,
         let name1 := Format.GenerateOutputFilename inputPath fmt1 in
         let name2 := Format.GenerateOutputFilename inputPath fmt2 in
         GoStrings.TrimSuffix name1 (Filepath.Ext name1)
         = GoStrings.TrimSuffix name2 (Filepath.Ext name2))
  /\ (forall inputPath outputDir fmt,
         outputDir <> "" ->
         Filepath.Base inputPath <> String Filepath.Separator "" ->
         Format.GenerateOutputPath inputPath outputDir fmt
         = Filepath.under (Filepath.Clean outputDir)
                          (Format.GenerateOutputFilename inputPath fmt))
  /\ Format.GenerateOutputPath "photo.jpg" "out" Types.FormatPNG = "out/photo.png"
  /\ Format.GenerateOutputPath "/input/dir/graphic.webp" "/output/dir"
                               Types.FormatGIF = "/output/dir/graphic.gif".
Proof.
  split; [repeat split|].
  split.
  { intros inputPath outputDir fmt base stem name.
    assert (Hname : name = stem ++ Format.newExt fmt) by reflexivity.
    split; [apply TrimSuffix_Ext|]. split; [exact Hname|].
    rewrite Hname, Ext_append_newExt, TrimSuffix_append. repeat split. }
  split.
  { intros inputPath fmt1 fmt2 name1 name2. subst name1 name2.
    unfold Format.GenerateOutputFilename.
    now rewrite !Ext_append_newExt, !TrimSuffix_append. }
  split.
  { intros inputPath outputDir fmt Hd Hb. unfold Format.GenerateOutputPath.
    apply Join_dir_name; [exact Hd|]. now apply GenerateOutputFilename_plain. }
  split; reflexivity.
Qed.

Lemma C8_witness :
  "/output/" <> ""
  /\ Filepath.Base "/input/photo.PNG" <> String Filepath.Separator ""
  /\ Format.GenerateOutputPath "/input/photo.PNG" "/output/" Types.FormatJPEG
     = "/output/photo.jpg".
Proof.
  split; [discriminate|]. split; [discriminate|].
  rewrite (proj1 (proj2 (proj2 (proj2 C8_output_path)))
             "/input/photo.PNG" "/output/" Types.FormatJPEG);
    [reflexivity | discriminate | discriminate].
Defined.

(** ** Format resolution inside [ConvertImage] *)

Section FormatResolution.
Import Types Records Env Converter.

Lemma lower_byte_idem c :
  GoStrings.lower_byte (GoStrings.lower_byte c) = GoStrings.lower_byte c.
Proof.
  destruct c as [[] [] [] [] [] [] [] []]; vm_compute; reflexivity.
Qed.

Lemma ToLower_idem s : GoStrings.ToLower (GoStrings.ToLower s) = GoStrings.ToLower s.
Proof.
  induction s as [|c s IH]; cbn; [reflexivity|].
  now rewrite lower_byte_idem, IH.
Qed.

Lemma NormalizeFormat_ToLower f :
  Format.NormalizeFormat (GoStrings.ToLower f) = Format.NormalizeFormat f.
Proof. unfold Format.NormalizeFormat. now rewrite ToLower_idem. Qed.

Lemma DetectFormat_ok_iff path :
  is_ok (Format.DetectFormat path)
  = existsb (String.eqb (GoStrings.ToLower (Filepath.Ext path)))
            [".jpg"; ".jpeg"; ".png"; ".webp"; ".gif"; ".bmp"].
Proof.
  unfold Format.DetectFormat. cbn [existsb].
  generalize (GoStrings.ToLower (Filepath.Ext path)); intro ext.
  repeat match goal with
         | |- context [String.eqb ext ?k] => destruct (String.eqb ext k)
         end; reflexivity.
Qed.

Lemma DetectFormat_error path :
  is_ok (Format.DetectFormat path) = false ->
  Format.DetectFormat path
  = Err ("unsupported image format: " ++ GoStrings.ToLower (Filepath.Ext path)).
Proof.
  unfold Format.DetectFormat.
  generalize (GoStrings.ToLower (Filepath.Ext path)); intro ext.
  repeat match goal with
         | |- context [String.eqb ext ?k] => destruct (String.eqb ext k)
         end; cbn; congruence.
Qed.

Lemma unsupported_normalize f :
  Format.IsFormatSupported f = false ->
  Format.NormalizeFormat f = GoStrings.ToLower f
  /\ Format.newExt (Format.NormalizeFormat f) = ".jpg"
  /\ Format.NormalizeFormat f <> FormatJPEG.
Proof.
  unfold Format.IsFormatSupported, Format.NormalizeFormat, Format.newExt.
  cbn [map_get]. generalize (GoStrings.ToLower f); intro fl.
  rewrite !(String.eqb_sym _ fl).
  unfold FormatJPEG, FormatPNG, FormatWebP, FormatGIF, FormatBMP.
  destruct (String.eqb fl "jpeg") eqn:E1; [discriminate|].
  destruct (String.eqb fl "jpg") eqn:E2; [discriminate|].
  destruct (String.eqb fl "png") eqn:E3; [discriminate|].
  destruct (String.eqb fl "webp") eqn:E4; [discriminate|].
  destruct (String.eqb fl "gif") eqn:E5; [discriminate|].
  destruct (String.eqb fl "bmp") eqn:E6; [discriminate|].
  intros _. rewrite E1. repeat split. now apply String.eqb_neq.
Qed.

End FormatResolution.

(** C9, as the code has it.  For a file that decodes: when no format is
    requested and the lower-cased extension of the source is not one of
    [.jpg .jpeg .png .webp .gif .bmp], format resolution fails and
    [ConvertImage] returns a Failure carrying the detector's error, before
    the saver is called; [.jpg] and [.jpeg] both resolve to jpeg.  An
    explicitly requested format is not checked at this step: it is
    lower-cased, [jpg] becomes [jpeg], and resolution succeeds whatever the
    string is. *)
Theorem C9_format_resolution :
  (forall w c sourcePath outputDir img,
      fst (Converter.Load w sourcePath) = Ok img ->
      Records.Format (Converter.config c) = "" ->
      is_ok (Format.DetectFormat sourcePath) = false ->
      Converter.resolve_format c sourcePath
      = Err ("unsupported image format: "
             ++ GoStrings.ToLower (Filepath.Ext sourcePath))
      /\ fst (Converter.ConvertImage w c sourcePath outputDir)
         = Converter.failure sourcePath ""
             ("failed to detect format: unsupported image format: "
              ++ GoStrings.ToLower (Filepath.Ext sourcePath))
      /\ existsb Env.is_save_event
                 (snd (Converter.ConvertImage w c sourcePath outputDir)) = false)
  /\ (forall path,
         is_ok (Format.DetectFormat path)
         = existsb (String.eqb (GoStrings.ToLower (Filepath.Ext path)))
                   [".jpg"; ".jpeg"; ".png"; ".webp"; ".gif"; ".bmp"])
  /\ (forall path,
         GoStrings.ToLower (Filepath.Ext path) = ".jpg"
         \/ GoStrings.ToLower (Filepath.Ext path) = ".jpeg" ->
         Format.DetectFormat path = Ok Types.FormatJPEG)
  /\ (forall c sourcePath,
         Records.Format (Converter.config c) <> "" ->
         Converter.resolve_format c sourcePath
         = Ok (Format.NormalizeFormat (Records.Format (Converter.config c))))
  /\ (forall f, Format.NormalizeFormat (GoStrings.ToLower f)
                = Format.NormalizeFormat f)
  /\ Format.NormalizeFormat "jpg" = Types.FormatJPEG
  /\ Format.NormalizeFormat "jpeg" = Types.FormatJPEG.
Proof.
  split; [|split; [|split; [|split; [|split; [|split]]]]].
  - intros w c sourcePath outputDir img Hload Hfmt Hdet.
    assert (Hres : Converter.resolve_format c sourcePath
                   = Err ("unsupported image format: "
                          ++ GoStrings.ToLower (Filepath.Ext sourcePath))).
    { unfold Converter.resolve_format. rewrite Hfmt. cbn [String.eqb negb].
      now apply DetectFormat_error. }
    split; [exact Hres|]. split.
    + destruct (ConvertImage_cases w c sourcePath outputDir)
        as [H|[H|[H|H]]]; cbv zeta in H.
      * destruct H as (e & He & _). congruence.
      * destruct H as (img' & e & _ & He & ->). rewrite Hres in He.
        injection He as <-. reflexivity.
      * destruct H as (img' & fmt & e & _ & He & _). congruence.
      * destruct H as (img' & fmt & _ & He & _). congruence.
    + rewrite ConvertImage_calls, Hload, Hres, app_nil_r, existsb_app.
      now rewrite Load_calls_no_save, ResizeImage_calls_no_save.
  - exact DetectFormat_ok_iff.
  - intros path H. unfold Format.DetectFormat.
    destruct H as [-> | ->]; reflexivity.
  - intros c sourcePath H. unfold Converter.resolve_format.
    apply String.eqb_neq in H. now rewrite H.
  - exact NormalizeFormat_ToLower.
  - reflexivity.
  - reflexivity.
Qed.

Lemma C9_witness :
  let c := Converter.NewConverter Scenario.cfg_keep_format in
  fst (Converter.Load Scenario.world "in/d.tiff") = Ok Scenario.picture
  /\ Records.Format (Converter.config c) = ""
  /\ is_ok (Format.DetectFormat "in/d.tiff") = false
  /\ fst (Converter.ConvertImage Scenario.world c "in/d.tiff" "out")
     = Converter.failure "in/d.tiff" ""
         "failed to detect format: unsupported image format: .tiff".
Proof.
  intro c. split; [reflexivity|]. split; [reflexivity|]. split; [reflexivity|].
  apply (proj1 (proj2 (proj1 C9_format_resolution Scenario.world c
                         "in/d.tiff" "out" Scenario.picture
                         eq_refl eq_refl eq_refl))).
Defined.

(** Where the stated claim fails: an explicitly requested format that is
    not supported does not stop [ConvertImage] at format resolution.  The
    saver is reached, creates the output file and only then reports the
    format. *)
Lemma C9_counterexample :
  ~ (forall w c sourcePath outputDir img,
        fst (Converter.Load w sourcePath) = Ok img ->
        Records.Format (Converter.config c) <> "" ->
        Format.IsFormatSupported (Records.Format (Converter.config c)) = false ->
        (exists e, Converter.resolve_format c sourcePath = Err e)
        /\ existsb Env.is_save_event
                   (snd (Converter.ConvertImage w c sourcePath outputDir)) = false).
Proof.
  intros H.
  destruct (H Scenario.world (Converter.NewConverter Scenario.cfg_unsupported)
              "in/a.png" "out" Scenario.picture eq_refl)
    as [[e He] _]; [discriminate | reflexivity | discriminate He].
Qed.

(** What happens on that input. *)
Example unsupported_explicit_format_run :
  Converter.ConvertImage Scenario.world
    (Converter.NewConverter Scenario.cfg_unsupported) "in/a.png" "out"
  = (Converter.failure "in/a.png" "out/a.jpg"
       "failed to save image: unsupported output format: tiff",
     [Env.EvOpen "in/a.png"; Env.EvDecode "in/a.png";
      Env.EvNewRGBA 50 50; Env.EvScale 50 50; Env.EvCreate "out/a.jpg"]).
Proof. vm_compute. reflexivity. Qed.

(** ** The batch coordinator *)

Section BatchFacts.
Import Records Env Converter StatsOps Batch.
Local Open Scope list_scope.
Variable w : World.
Variable numWorkers : Z.
Variable outputDir : string.

Lemma ConvertImage_config c c' file dir :
  config c = config c' ->
  ConvertImage w c file dir = ConvertImage w c' file dir.
Proof.
  intros H. unfold ConvertImage, resizeSpec_of, resolve_format, quality_of.
  now rewrite H.
Qed.

Lemma UpdateStats_config c r : config (UpdateStats c r) = config c.
Proof. unfold UpdateStats. destruct (crSuccess r); reflexivity. Qed.

Lemma run_ops_config ops c : config (run_ops ops c) = config c.
Proof.
  revert c. induction ops as [|op ops IH]; intros c; [reflexivity|].
  cbn. unfold run_ops in IH. rewrite IH.
  destruct op; [apply UpdateStats_config | reflexivity].
Qed.

Lemma run_ops_stats_from c ops0 ops :
  stats c = stats_after zero_stats ops0 ->
  stats (run_ops ops c) = stats_after zero_stats (ops0 ++ ops).
Proof.
  revert c ops0. induction ops as [|op ops IH]; intros c ops0 H.
  - now rewrite app_nil_r.
  - change (run_ops (op :: ops) c) with (run_ops ops (apply_op c op)).
    rewrite (IH (apply_op c op) (ops0 ++ [op])).
    + now rewrite <- app_assoc.
    + now apply apply_op_stats.
Qed.

(** The first loop keeps the image files in order and counts the others. *)
Lemma partition_files_spec fs files acc c :
  partition_files fs files acc c
  = ((acc ++ filter (IsImageFile fs) files)%list,
     run_ops (map (fun _ => OpSkip)
                  (filter (fun f => negb (IsImageFile fs f)) files)) c).
Proof.
  revert acc c. induction files as [|file files IH]; intros acc c; cbn.
  - now rewrite app_nil_r.
  - destruct (IsImageFile fs file); cbn; rewrite IH.
    + now rewrite <- app_assoc.
    + reflexivity.
Qed.

Lemma filter_folded_spawned files :
  filter folded (map (fun f => {| wfile := f; wstage := Waiting |}) files) = [].
Proof. induction files; cbn; auto. Qed.

Lemma Inv_spawn imageFiles c1 ops0 :
  stats c1 = stats_after zero_stats ops0 ->
  Inv w outputDir imageFiles c1 ops0 (spawn imageFiles c1).
Proof.
  intros H. unfold Inv, spawn. cbn. repeat split.
  - rewrite map_map. cbn. apply map_id.
  - rewrite filter_folded_spawned. constructor.
  - now rewrite app_nil_r.
Qed.

Lemma Inv_step imageFiles c1 ops0 p q :
  Inv w outputDir imageFiles c1 ops0 p ->
  step w numWorkers outputDir p q ->
  Inv w outputDir imageFiles c1 ops0 q.
Proof.
  intros (Hcfg & Hfiles & Hperm & Hstats) Hstep.
  destruct Hstep as [p pre f post Hw Hslot | p pre f i post Hw | p pre f r post Hw];
    unfold Inv; cbn [conv workers invoked];
    rewrite Hw in Hfiles, Hperm;
    rewrite map_app in Hfiles; cbn [map wfile] in Hfiles;
    rewrite filter_app in Hperm; cbn [filter folded wstage] in Hperm;
    rewrite ?map_app, ?filter_app; cbn [map filter folded wstage wfile].
  - repeat split; assumption.
  - rewrite map_app in Hperm.
    rewrite (ConvertImage_config (conv p) c1 f outputDir Hcfg).
    repeat split.
    + now rewrite UpdateStats_config.
    + assumption.
    + rewrite map_app. cbn [map wfile].
      apply Permutation_trans with (f :: invoked p).
      * apply Permutation_sym, Permutation_cons_append.
      * now apply Permutation_cons_app.
    + rewrite app_assoc.
      apply (apply_op_stats (conv p) zero_stats _
               (op_of w c1 outputDir f) Hstats).
  - rewrite map_app in Hperm |- *. cbn [map wfile] in Hperm |- *.
    repeat split; assumption.
Qed.

Lemma Inv_steps imageFiles c1 ops0 p q :
  Inv w outputDir imageFiles c1 ops0 p ->
  steps w numWorkers outputDir p q ->
  Inv w outputDir imageFiles c1 ops0 q.
Proof.
  intros H Hs. induction Hs as [p | p q r Hpq _ IH]; [exact H|].
  apply IH. now apply (Inv_step imageFiles c1 ops0 p q).
Qed.

Lemma drained_all_folded ws :
  forallb is_finished ws = true -> filter folded ws = ws.
Proof.
  induction ws as [|g ws IH]; cbn; [reflexivity|].
  intros H. apply andb_prop in H. destruct H as [Hg Hws].
  rewrite (IH Hws). unfold is_finished in Hg. unfold folded.
  destruct (wstage g); try discriminate Hg. reflexivity.
Qed.

(** When the pool is drained, every image file has been converted exactly
    once and its result is in the counters. *)
Lemma Inv_drained imageFiles c1 ops0 p :
  Inv w outputDir imageFiles c1 ops0 p ->
  drained p ->
  Permutation (invoked p) imageFiles
  /\ stats (conv p)
     = stats_after zero_stats (ops0 ++ map (op_of w c1 outputDir) (invoked p)).
Proof.
  intros (Hcfg & Hfiles & Hperm & Hstats) Hd. split; [|exact Hstats].
  unfold drained in Hd. rewrite (drained_all_folded _ Hd), Hfiles in Hperm.
  exact Hperm.
Qed.

(** *** Progress: a failure never blocks the pool *)

Lemma measure_split pre g post (p : Pool) :
  workers p = pre ++ g :: post ->
  measure p = (list_sum (map remaining pre) + remaining g
               + list_sum (map remaining post))%nat.
Proof.
  intros H. unfold measure. rewrite H, map_app, list_sum_app.
  cbn [map list_sum fold_right]. fold (list_sum (map remaining post)). lia.
Qed.

Lemma step_measure p q :
  step w numWorkers outputDir p q -> (measure q < measure p)%nat.
Proof.
  intros Hstep.
  destruct Hstep as [p pre f post Hw Hslot | p pre f i post Hw | p pre f r post Hw];
    rewrite (measure_split _ _ _ p Hw);
    match goal with
    | |- (measure ?q < _)%nat =>
        rewrite (measure_split pre _ post q eq_refl)
    end; cbn; lia.
Qed.

Lemma find_worker (P : Worker -> bool) ws :
  existsb P ws = true ->
  exists pre g post, ws = pre ++ g :: post /\ P g = true.
Proof.
  intros H. apply existsb_exists in H. destruct H as (g & Hin & Hg).
  apply in_split in Hin. destruct Hin as (pre & post & ->).
  now exists pre, g, post.
Qed.

Lemma existsb_false_forall (P : Worker -> bool) ws :
  existsb P ws = false -> forall g, In g ws -> P g = false.
Proof.
  intros H g Hin. destruct (P g) eqn:Hg; [|reflexivity].
  assert (existsb P ws = true) by (apply existsb_exists; eauto). congruence.
Qed.

Lemma no_holder_no_slot ws :
  existsb holds_slot ws = false -> slots_in_use ws = 0%Z.
Proof.
  intros H. unfold slots_in_use.
  replace (filter holds_slot ws) with (@nil Worker); [reflexivity|].
  symmetry. induction ws as [|g ws IH]; [reflexivity|].
  cbn in H |- *. apply orb_false_elim in H. destruct H as [Hg Hws].
  rewrite Hg. now apply IH.
Qed.

(** A pool that is not drained can move, as soon as it has one slot. *)
Lemma can_step p :
  (1 <= numWorkers)%Z ->
  forallb is_finished (workers p) = false ->
  exists q, step w numWorkers outputDir p q.
Proof.
  intros Hn Hnd.
  destruct (existsb holds_slot (workers p)) eqn:Hh.
  - apply find_worker in Hh. destruct Hh as (pre & g & post & Hw & Hg).
    destruct g as [f st]. unfold holds_slot in Hg. cbn in Hg.
    destruct st as [|i|r|]; try discriminate Hg.
    + eexists. exact (step_convert w numWorkers outputDir p pre f i post Hw).
    + eexists. exact (step_finish w numWorkers outputDir p pre f r post Hw).
  - assert (Hex : existsb (fun g => negb (is_finished g)) (workers p) = true).
    { clear Hh. induction (workers p) as [|g ws IH]; [discriminate Hnd|].
      cbn in Hnd |- *. destruct (is_finished g); cbn in *; auto. }
    apply find_worker in Hex. destruct Hex as (pre & g & post & Hw & Hg).
    assert (Hgs : holds_slot g = false).
    { apply (existsb_false_forall holds_slot (workers p) Hh).
      rewrite Hw. apply in_or_app. right. now left. }
    destruct g as [f st]. unfold holds_slot in Hgs. unfold is_finished in Hg.
    cbn in Hg, Hgs. destruct st as [|i|r|]; try discriminate.
    eexists. apply (step_start w numWorkers outputDir p pre f post Hw).
    rewrite (no_holder_no_slot _ Hh). lia.
Qed.

(** Every pool runs to a drained state. *)
Lemma reach_drained :
  (1 <= numWorkers)%Z ->
  forall n p, (measure p <= n)%nat ->
              exists q, steps w numWorkers outputDir p q /\ drained q.
Proof.
  intros Hn n. induction n as [|n IH]; intros p Hm.
  - destruct (forallb is_finished (workers p)) eqn:Hd.
    + exists p. split; [constructor | exact Hd].
    + destruct (can_step p Hn Hd) as [q Hq].
      apply step_measure in Hq. lia.
  - destruct (forallb is_finished (workers p)) eqn:Hd.
    + exists p. split; [constructor | exact Hd].
    + destruct (can_step p Hn Hd) as [q Hq].
      destruct (IH q) as (r & Hr & Hdr).
      * apply step_measure in Hq. lia.
      * exists r. split; [|exact Hdr]. now apply steps_cons with q.
Qed.

(** *** What a run of [ProcessDirectory] leaves behind *)

Lemma count_map_perm (f : StatsOp -> bool) (g : string -> StatsOp) l l' :
  Permutation l l' -> count f (map g l) = count f (map g l').
Proof.
  intros H. unfold count. f_equal.
  induction H as [| x l l' _ IH | x y l | l l' l'' _ IH1 _ IH2]; cbn.
  - reflexivity.
  - destruct (f (g x)); cbn; now rewrite IH.
  - destruct (f (g x)), (f (g y)); reflexivity.
  - now rewrite IH1.
Qed.

Lemma count_skips (f : StatsOp -> bool) (l : list string) :
  count f (map (fun _ => OpSkip) l)
  = if f OpSkip then Z.of_nat (List.length l) else 0%Z.
Proof.
  unfold count. induction l as [|x l IH]; cbn [map filter].
  - destruct (f OpSkip); reflexivity.
  - destruct (f OpSkip); cbn [List.length]; lia.
Qed.

Lemma filter_length_split {A} (P : A -> bool) l :
  (List.length (filter P l) + List.length (filter (fun x => negb (P x)) l)
   = List.length l)%nat.
Proof.
  induction l as [|x l IH]; cbn; [reflexivity|].
  destruct (P x); cbn; lia.
Qed.

Lemma ProcessDirectory_outcome cfg fs inputDir files err c' p :
  ScanDirectory fs inputDir = Ok files ->
  ProcessDirectory w numWorkers outputDir (NewConverter cfg) inputDir fs err c' p ->
  err = None
  /\ c' = conv p
  /\ drained p
  /\ Permutation (invoked p) (filter (IsImageFile fs) files)
  /\ stats c'
     = stats_after zero_stats
         (map (fun _ => OpSkip) (filter (fun f => negb (IsImageFile fs f)) files)
          ++ map (op_of w (NewConverter cfg) outputDir) (invoked p)).
Proof.
  intros Hscan Hrun.
  destruct Hrun as [e He | files' imageFiles c1 p Hscan' Hpart Hsteps Hdr];
    [congruence|].
  assert (files' = files) by congruence. subst files'.
  rewrite partition_files_spec in Hpart. cbn [app] in Hpart.
  injection Hpart as <- <-.
  set (skips := map (fun _ => OpSkip)
                    (filter (fun f => negb (IsImageFile fs f)) files)) in *.
  set (c1 := run_ops skips (NewConverter cfg)) in *.
  assert (Hc1 : stats c1 = stats_after zero_stats skips)
    by apply run_ops_stats.
  pose proof (Inv_steps _ c1 skips _ p
                (Inv_spawn (filter (IsImageFile fs) files) c1 skips Hc1) Hsteps)
    as Hinv.
  destruct (Inv_drained _ c1 skips p Hinv Hdr) as [Hperm Hstats].
  repeat split; try assumption.
  rewrite Hstats. f_equal. f_equal. apply map_ext. intros f.
  unfold op_of. f_equal. f_equal. apply ConvertImage_config.
  apply run_ops_config.
Qed.

Lemma ProcessDirectory_returns c fs inputDir :
  (1 <= numWorkers)%Z ->
  exists err c' p,
    ProcessDirectory w numWorkers outputDir c inputDir fs err c' p.
Proof.
  intros Hn. destruct (ScanDirectory fs inputDir) as [files|e] eqn:Hscan.
  - destruct (partition_files fs files [] c) as [imageFiles c1] eqn:Hpart.
    destruct (reach_drained Hn (measure (spawn imageFiles c1))
                (spawn imageFiles c1) (Nat.le_refl _)) as (q & Hq & Hd).
    exists None, (conv q), q.
    exact (pd_done w numWorkers outputDir c inputDir fs files imageFiles c1 q
             Hscan Hpart Hq Hd).
  - do 3 eexists. apply pd_scan_error. exact Hscan.
Qed.

(** A file that does not decode is a failed conversion. *)
Lemma Load_error_fails c file dir e :
  fst (Load w file) = Err e ->
  crSuccess (fst (ConvertImage w c file dir)) = false.
Proof.
  intros H.
  destruct (ConvertImage_cases w c file dir) as [H'|[H'|[H'|H']]];
    cbv zeta in H'.
  - destruct H' as (e' & _ & ->). reflexivity.
  - destruct H' as (img & e' & _ & _ & ->). reflexivity.
  - destruct H' as (img & fmt & e' & _ & _ & _ & ->). reflexivity.
  - destruct H' as (img & fmt & Hl & _). congruence.
Qed.

Lemma count_skip_conversions c l :
  count is_skip (map (op_of w c outputDir) l) = 0%Z.
Proof.
  unfold count. induction l as [|f l IH]; [reflexivity | exact IH].
Qed.

(** Counting by kind agrees with counting by outcome. *)
Lemma classify_counts c fs kind files :
  (forall file, In file files -> well_classified w c fs outputDir kind file) ->
  count is_success (map (op_of w c outputDir) (filter (IsImageFile fs) files))
  = count_kind kind ValidImage files
  /\ count is_failure (map (op_of w c outputDir) (filter (IsImageFile fs) files))
     = count_kind kind CorruptImage files
  /\ Z.of_nat (List.length (filter (fun f => negb (IsImageFile fs f)) files))
     = count_kind kind NonImage files.
Proof.
  unfold count, count_kind.
  induction files as [|file files IH]; intros H; [repeat split|].
  destruct IH as (IH1 & IH2 & IH3).
  { intros f Hf. apply H. now right. }
  pose proof (H file (or_introl eq_refl)) as Hk. unfold well_classified in Hk.
  cbn [filter]. destruct (kind file) eqn:Ek; cbn [Kind_eqb].
  - destruct Hk as [Himg Hok].
    assert (Hs : is_success (op_of w c outputDir file) = true)
      by (unfold op_of; cbn; exact Hok).
    assert (Hf : is_failure (op_of w c outputDir file) = false)
      by (unfold op_of; cbn; now rewrite Hok).
    rewrite Himg. cbn [map filter negb]. rewrite Hs, Hf.
    cbn [List.length]. repeat split; lia.
  - destruct Hk as [Himg [e He]].
    pose proof (Load_error_fails c file outputDir e He) as Hfail.
    assert (Hs : is_success (op_of w c outputDir file) = false)
      by (unfold op_of; cbn; exact Hfail).
    assert (Hf : is_failure (op_of w c outputDir file) = true)
      by (unfold op_of; cbn; now rewrite Hfail).
    rewrite Himg. cbn [map filter negb]. rewrite Hs, Hf.
    cbn [List.length]. repeat split; lia.
  - rewrite Hk. cbn [negb filter List.length]. repeat split; lia.
Qed.

End BatchFacts.



(** C1.  Take a batch of [N] files of which [s] are valid images, [f] are
    corrupt images (accepted by the classifier, but they do not decode) and
    [k] are no images.  Whenever [ProcessDirectory], started on a fresh
    converter, returns, it returns without error and the counters are
    [Total = N], [Success = s], [Failed = f] and [Skipped = k]; the
    converter has been invoked on the image files only, once each, and
    never on a skipped file.  With at least one slot in the pool
    [ProcessDirectory] does return. *)
Theorem C1_batch_stats
        (w : Env.World) (numWorkers : Z) (outputDir inputDir : string)
        (cfg : Records.Config) (fs : Converter.FileSystemScanner)
        (files : list string) (kind : string -> Batch.Kind) :
  Converter.ScanDirectory fs inputDir = Ok files ->
  (Z.of_nat (List.length files) <= GoInt.max_int)%Z ->
  (forall file, In file files ->
                Batch.well_classified w (Converter.NewConverter cfg) fs
                                      outputDir kind file) ->
  let N := Z.of_nat (List.length files) in
  let s := Batch.count_kind kind Batch.ValidImage files in
  let f := Batch.count_kind kind Batch.CorruptImage files in
  let k := Batch.count_kind kind Batch.NonImage files in
  (N = s + f + k)%Z
  /\ (forall err c' p,
         Converter.ProcessDirectory w numWorkers outputDir
           (Converter.NewConverter cfg) inputDir fs err c' p ->
         err = None
         /\ Converter.GetStats c'
            = {| Records.Total := N; Records.Success := s;
                 Records.Failed := f; Records.Skipped := k |}
         /\ Permutation (Converter.invoked p)
                        (filter (Converter.IsImageFile fs) files)
         /\ (forall file, In file (Converter.invoked p) ->
                          Converter.IsImageFile fs file = true))
  /\ ((1 <= numWorkers)%Z ->
      exists c' p,
        Converter.ProcessDirectory w numWorkers outputDir
          (Converter.NewConverter cfg) inputDir fs None c' p).
Proof.
  intros Hscan Hlen Hkind N s f k.
  destruct (classify_counts w outputDir (Converter.NewConverter cfg) fs kind
              files Hkind) as (Hs & Hf & Hk).
  fold s in Hs. fold f in Hf. fold k in Hk.
  pose proof (filter_length_split (Converter.IsImageFile fs) files) as Hsplit.
  set (images := filter (Converter.IsImageFile fs) files) in *.
  set (others := filter (fun x => negb (Converter.IsImageFile fs x)) files) in *.
  pose proof (count_partition
                (map (Batch.op_of w (Converter.NewConverter cfg) outputDir) images))
    as Hpart.
  rewrite count_skip_conversions, length_map, Hs, Hf in Hpart.
  assert (HN : (N = s + f + k)%Z) by (subst N; lia).
  split; [exact HN|]. split.
  - intros err c' p Hrun.
    destruct (ProcessDirectory_outcome w numWorkers outputDir cfg fs inputDir
                files err c' p Hscan Hrun) as (He & _ & _ & Hperm & Hstats).
    fold images in Hperm. fold others in Hstats.
    split; [exact He|]. split; [|split; [exact Hperm|]].
    + unfold Converter.GetStats. rewrite Hstats.
      unfold StatsOps.stats_after, StatsOps.zero_stats.
      cbn [Records.Total Records.Success Records.Failed Records.Skipped].
      rewrite !count_app, !count_skips, length_app, !length_map.
      cbn [StatsOps.is_success StatsOps.is_failure StatsOps.is_skip].
      rewrite (count_map_perm StatsOps.is_success _ _ _ Hperm).
      rewrite (count_map_perm StatsOps.is_failure _ _ _ Hperm).
      rewrite count_skip_conversions, (Permutation_length Hperm), Hs, Hf.
      assert (Hs0 : (0 <= s)%Z) by (subst s; unfold Batch.count_kind; lia).
      assert (Hf0 : (0 <= f)%Z) by (subst f; unfold Batch.count_kind; lia).
      assert (Hk0 : (0 <= k)%Z) by (subst k; unfold Batch.count_kind; lia).
      assert (Hmin : (GoInt.min_int <= 0)%Z) by (unfold GoInt.min_int; lia).
      rewrite !wrap_small by lia.
      f_equal; lia.
    + intros file Hin.
      apply (Permutation_in _ Hperm) in Hin. subst images.
      apply filter_In in Hin. tauto.
  - intros Hn.
    destruct (ProcessDirectory_returns w numWorkers outputDir
                (Converter.NewConverter cfg) fs inputDir Hn)
      as (err & c' & p & Hrun).
    destruct (ProcessDirectory_outcome w numWorkers outputDir cfg fs inputDir
                files err c' p Hscan Hrun) as (He & _).
    subst err. eauto.
Qed.

Lemma Scenario_well_classified file :
  In file Scenario.files ->
  Batch.well_classified Scenario.world (Converter.NewConverter Scenario.cfg)
                        Scenario.scanner "out" Scenario.kind file.
Proof.
  intros [<-|[<-|[<-|[]]]]; unfold Batch.well_classified; cbn [Scenario.kind String.eqb].
  - split; vm_compute; reflexivity.
  - vm_compute. reflexivity.
  - split; [vm_compute; reflexivity|]. eexists. vm_compute. reflexivity.
Qed.

Lemma C1_witness :
  Converter.ScanDirectory Scenario.scanner "in" = Ok Scenario.files
  /\ (Z.of_nat (List.length Scenario.files) <= GoInt.max_int)%Z
  /\ forall err c' p,
       Converter.ProcessDirectory Scenario.world 4 "out"
         (Converter.NewConverter Scenario.cfg) "in" Scenario.scanner err c' p ->
       Converter.GetStats c'
       = {| Records.Total := 3; Records.Success := 1;
            Records.Failed := 1; Records.Skipped := 1 |}.
Proof.
  split; [reflexivity|]. split; [vm_compute; discriminate|].
  intros err c' p Hrun.
  exact (proj1 (proj2 (proj1 (proj2
           (C1_batch_stats Scenario.world 4%Z "out" "in" Scenario.cfg
              Scenario.scanner Scenario.files Scenario.kind
              eq_refl
              (fun H : (3 ?= GoInt.max_int)%Z = Gt => ltac:(discriminate H))
              Scenario_well_classified)) err c' p Hrun))).
Defined.

Lemma C3_witness :
  let ops := [StatsOps.OpSkip;
              StatsOps.OpUpdate (Converter.failure "c.png" "" "failed to load image");
              StatsOps.OpSkip] in
  let s := Converter.stats
             (StatsOps.run_ops ops (Converter.NewConverter Scenario.cfg)) in
  (Z.of_nat (List.length ops) <= GoInt.max_int)%Z
  /\ (Records.Total s = Records.Success s + Records.Failed s + Records.Skipped s)%Z.
Proof.
  intros ops s. split; [vm_compute; discriminate|].
  apply (proj1 (proj2 (C3_stats_invariant Scenario.cfg ops))).
  vm_compute. discriminate.
Defined.

(** ** Binary floating point: digits and powers of two *)

Section DigitsAndPowers.
Import FloatSem.
Local Open Scope Z_scope.

Lemma digits2_size p : digits2_pos p = Pos.size p.
Proof. induction p as [p IH|p IH|]; cbn; congruence. Qed.

Lemma digits2_log2 p : Zpos (digits2_pos p) = Z.log2 (Zpos p) + 1.
Proof.
  destruct p as [p|p|]; cbn [digits2_pos Z.log2]; rewrite ?digits2_size;
    try rewrite Pos2Z.inj_succ; lia.
Qed.

Lemma digits2_bounds p :
  2 ^ (Zpos (digits2_pos p) - 1) <= Zpos p < 2 ^ Zpos (digits2_pos p).
Proof.
  rewrite digits2_log2.
  replace (Z.log2 (Zpos p) + 1 - 1) with (Z.log2 (Zpos p)) by lia.
  apply Z.log2_spec. lia.
Qed.

Lemma digits2_unique p n :
  2 ^ (n - 1) <= Zpos p < 2 ^ n -> Zpos (digits2_pos p) = n.
Proof.
  intros H. rewrite digits2_log2.
  assert (Hn : 1 <= n).
  { destruct (Z_lt_le_dec n 1) as [Hlt|]; [|assumption].
    assert (2 ^ n <= 1).
    { destruct (Z.eq_dec n 0) as [->|]; [cbn; lia|].
      rewrite Z.pow_neg_r by lia. lia. }
    lia. }
  rewrite (Z.log2_unique (Zpos p) (n - 1)); [lia | lia |].
  replace (Z.succ (n - 1)) with n by lia. exact H.
Qed.

Lemma bpow_pos e : (0 < bpow e)%R.
Proof. apply powerRZ_lt. lra. Qed.

Lemma bpow_add a b : bpow (a + b) = (bpow a * bpow b)%R.
Proof. apply powerRZ_add. lra. Qed.

Lemma bpow_IZR e : 0 <= e -> bpow e = IZR (2 ^ e).
Proof.
  intros He. unfold bpow. destruct e as [|p|p]; [reflexivity| |lia].
  cbn [powerRZ]. rewrite pow_IZR, positive_nat_Z. reflexivity.
Qed.

Lemma bpow_le a b : a <= b -> (bpow a <= bpow b)%R.
Proof.
  intros H. replace b with (a + (b - a)) by lia.
  rewrite bpow_add, (bpow_IZR (b - a)) by lia.
  assert (H1 : (1 <= IZR (2 ^ (b - a)))%R).
  { apply IZR_le. pose proof (Z.pow_pos_nonneg 2 (b - a)). lia. }
  pose proof (bpow_pos a). nra.
Qed.

Lemma bpow_lt a b : a < b -> (bpow a < bpow b)%R.
Proof.
  intros H. replace b with (a + (b - a)) by lia.
  rewrite bpow_add, (bpow_IZR (b - a)) by lia.
  assert (H1 : (2 <= IZR (2 ^ (b - a)))%R).
  { apply IZR_le. replace (b - a) with (1 + (b - a - 1)) by lia.
    rewrite Z.pow_add_r by lia.
    pose proof (Z.pow_pos_nonneg 2 (b - a - 1)). lia. }
  pose proof (bpow_pos a). nra.
Qed.

Lemma bpow_opp a : bpow (- a) = (/ bpow a)%R.
Proof. apply powerRZ_neg'. Qed.

End DigitsAndPowers.

(** ** Binary floating point: shifting and rounding *)

Section ShiftAndRound.
Import FloatSem.
Local Open Scope R_scope.

Lemma IZR_xO p : IZR (Zpos p~0) = 2 * IZR (Zpos p).
Proof. change (Zpos p~0) with (2 * Zpos p)%Z. now rewrite mult_IZR. Qed.

Lemma IZR_xI p : IZR (Zpos p~1) = 2 * IZR (Zpos p) + 1.
Proof.
  change (Zpos p~1) with (2 * Zpos p + 1)%Z. now rewrite plus_IZR, mult_IZR.
Qed.

Lemma loc_of_record_of_loc m l :
  loc_of_shr_record (shr_record_of_loc m l) = l
  /\ shr_m (shr_record_of_loc m l) = m.
Proof. destruct l as [|[]]; split; reflexivity. Qed.

(** One shift halves the number and keeps track of where it lies. *)
Lemma shr_1_inbetween X mrs :
  (0 <= shr_m mrs)%Z ->
  inbetween X (shr_m mrs) (loc_of_shr_record mrs) ->
  inbetween (X / 2) (shr_m (shr_1 mrs)) (loc_of_shr_record (shr_1 mrs))
  /\ (0 <= shr_m (shr_1 mrs))%Z.
Proof.
  destruct mrs as [m r s]. cbn [shr_m].
  destruct m as [|[p|p|]|p]; intros Hm; [| | | |lia];
    destruct r, s; cbn [shr_1 loc_of_shr_record orb shr_m inbetween];
    try rewrite (IZR_xO p); try rewrite (IZR_xI p);
    intros H; (split; [lra | lia]).
Qed.

Lemma bpow_1 : bpow 1 = 2.
Proof. unfold bpow. apply powerRZ_1. Qed.

Lemma bpow_xO p : bpow (Zpos p~0) = bpow (Zpos p) * bpow (Zpos p).
Proof. rewrite <- bpow_add. f_equal. lia. Qed.

Lemma bpow_xI p : bpow (Zpos p~1) = 2 * bpow (Zpos p) * bpow (Zpos p).
Proof.
  replace (Zpos p~1) with (1 + Zpos p + Zpos p)%Z by lia.
  rewrite !bpow_add, bpow_1. reflexivity.
Qed.

Lemma iter_shr_inbetween p :
  forall X mrs,
    (0 <= shr_m mrs)%Z ->
    inbetween X (shr_m mrs) (loc_of_shr_record mrs) ->
    inbetween (X / bpow (Zpos p)) (shr_m (SpecFloat.iter_pos shr_1 p mrs))
              (loc_of_shr_record (SpecFloat.iter_pos shr_1 p mrs))
    /\ (0 <= shr_m (SpecFloat.iter_pos shr_1 p mrs))%Z.
Proof.
  induction p as [p IH|p IH|]; intros X mrs Hm H; cbn [SpecFloat.iter_pos].
  - destruct (shr_1_inbetween X mrs Hm H) as [H1 Hm1].
    destruct (IH _ _ Hm1 H1) as [H2 Hm2].
    destruct (IH _ _ Hm2 H2) as [H3 Hm3].
    split; [|exact Hm3].
    replace (X / bpow (Zpos p~1)) with (X / 2 / bpow (Zpos p) / bpow (Zpos p));
      [exact H3|].
    rewrite bpow_xI. pose proof (bpow_pos (Zpos p)). field. lra.
  - destruct (IH _ _ Hm H) as [H2 Hm2].
    destruct (IH _ _ Hm2 H2) as [H3 Hm3].
    split; [|exact Hm3].
    replace (X / bpow (Zpos p~0)) with (X / bpow (Zpos p) / bpow (Zpos p));
      [exact H3|].
    rewrite bpow_xO. pose proof (bpow_pos (Zpos p)). field. lra.
  - rewrite bpow_1. apply shr_1_inbetween; assumption.
Qed.

Lemma shr_inbetween X m l e n :
  (0 <= m)%Z -> inbetween X m l -> (0 <= n)%Z ->
  snd (shr (shr_record_of_loc m l) e n) = (e + n)%Z
  /\ inbetween (X / bpow n) (shr_m (fst (shr (shr_record_of_loc m l) e n)))
               (loc_of_shr_record (fst (shr (shr_record_of_loc m l) e n)))
  /\ (0 <= shr_m (fst (shr (shr_record_of_loc m l) e n)))%Z.
Proof.
  intros Hm H Hn. destruct (loc_of_record_of_loc m l) as [Hl Hsm].
  destruct n as [|p|p]; [| |lia]; cbn [shr fst snd].
  - rewrite Hl, Hsm. split; [lia|]. split; [|exact Hm].
    replace (X / bpow 0) with X; [exact H|]. unfold bpow. cbn. field.
  - split; [reflexivity|].
    apply iter_shr_inbetween; rewrite ?Hl, ?Hsm; assumption.
Qed.

Lemma round_nearest_even_spec X m l :
  inbetween X m l ->
  (round_nearest_even m l = m \/ round_nearest_even m l = (m + 1)%Z)
  /\ - / 2 <= IZR (round_nearest_even m l) - X <= / 2.
Proof.
  destruct l as [|[]]; cbn [inbetween round_nearest_even]; intros H.
  - split; [now left | lra].
  - destruct (Z.even m); (split; [tauto|]); rewrite ?plus_IZR; lra.
  - split; [now left | lra].
  - split; [now right|]. rewrite plus_IZR. lra.
Qed.

Lemma inbetween_floor X m l : inbetween X m l -> IZR m <= X < IZR m + 1.
Proof. destruct l as [|[]]; cbn; lra. Qed.

End ShiftAndRound.

(** ** Binary floating point: the rounding step of the operations *)

Section RoundAux.
Import FloatSem.
Local Open Scope R_scope.

Lemma fexp_normal x :
  (-1074 <= x - 53)%Z -> fexp prec emax x = (x - 53)%Z.
Proof. unfold fexp, SpecFloat.emin, prec, emax. lia. Qed.

Lemma IZR_pow2_bpow n : (0 <= n)%Z -> IZR (2 ^ n) = bpow n.
Proof. intros. symmetry. now apply bpow_IZR. Qed.

(** Rounding a number with at least 53 significant bits, away from the
    subnormal range and from overflow, gives a normal float within half a
    unit in the last place. *)
Lemma binary_round_aux_normal s m e l X :
  (0 < m)%Z -> inbetween X m l ->
  (53 <= Zdigits2 m)%Z ->
  (-1074 <= e + Zdigits2 m - 53)%Z ->
  (e + Zdigits2 m - 52 <= 971)%Z ->
  exists m' e',
    binary_round_aux prec emax s m e l = S754_finite s m' e'
    /\ normal_mantissa m'
    /\ (e + Zdigits2 m - 53 <= e' <= e + Zdigits2 m - 52)%Z
    /\ - (bpow (e + Zdigits2 m - 53) / 2)
       <= F2R (Zpos m') e' - X * bpow e
       <= bpow (e + Zdigits2 m - 53) / 2.
Proof.
  intros Hm Hin Hd Hlo Hhi.
  destruct m as [|p|p]; try lia. cbn [Zdigits2] in *.
  set (d := Zpos (digits2_pos p)) in *.
  set (k := (d - 53)%Z).
  pose proof (digits2_bounds p) as Hp. fold d in Hp.
  unfold binary_round_aux, shr_fexp. cbn [Zdigits2]. fold d.
  replace (fexp prec emax (d + e) - e)%Z with k
    by (rewrite fexp_normal; unfold k; lia).
  destruct (shr_inbetween X (Zpos p) l e k) as (He1 & Hin1 & Hm1);
    [lia | exact Hin | unfold k; lia |].
  destruct (shr (shr_record_of_loc (Zpos p) l) e k) as [mrs1 e1].
  cbn [fst snd] in He1, Hin1, Hm1. subst e1.
  set (m1 := shr_m mrs1) in *. set (l1 := loc_of_shr_record mrs1) in *.
  (* the shifted mantissa has 53 bits *)
  pose proof (inbetween_floor _ _ _ Hin) as HX.
  pose proof (inbetween_floor _ _ _ Hin1) as HY.
  set (Y := X / bpow k) in *.
  assert (HXY : X = Y * bpow k).
  { unfold Y. pose proof (bpow_pos k). field. lra. }
  assert (Hk : (0 <= k)%Z) by (unfold k; lia).
  assert (Hbk : bpow k = IZR (2 ^ k)) by now apply bpow_IZR.
  assert (Hpk : (0 < 2 ^ k)%Z) by (apply Z.pow_pos_nonneg; lia).
  assert (Hlow : IZR (2 ^ 52 * 2 ^ k) <= IZR (Zpos p)).
  { apply IZR_le. rewrite <- Z.pow_add_r by lia.
    replace (52 + k)%Z with (d - 1)%Z by (unfold k; lia). lia. }
  assert (Hupp : IZR (Zpos p) + 1 <= IZR (2 ^ 53 * 2 ^ k)).
  { rewrite <- (plus_IZR (Zpos p) 1). apply IZR_le.
    rewrite <- Z.pow_add_r by lia.
    replace (53 + k)%Z with d by (unfold k; lia). lia. }
  rewrite mult_IZR in Hlow, Hupp. rewrite <- Hbk in Hlow, Hupp.
  pose proof (bpow_pos k) as Hbkpos.
  assert (HY52 : IZR (2 ^ 52) <= Y) by (rewrite HXY in HX; nra).
  assert (HY53 : Y < IZR (2 ^ 53)) by (rewrite HXY in HX; nra).
  assert (Hm1lo : (2 ^ 52 <= m1)%Z).
  { assert (H : (2 ^ 52 < m1 + 1)%Z)
      by (apply lt_IZR; rewrite plus_IZR; lra). lia. }
  assert (Hm1hi : (m1 < 2 ^ 53)%Z) by (apply lt_IZR; lra).
  (* rounding *)
  destruct (round_nearest_even_spec Y m1 l1 Hin1) as [Hm2 Herr].
  set (m2 := round_nearest_even m1 l1) in *.
  assert (Hm2lo : (2 ^ 52 <= m2)%Z) by lia.
  assert (Hm2hi : (m2 <= 2 ^ 53)%Z) by lia.
  destruct m2 as [|p2|p2] eqn:Em2; try lia.
  cbn [Zdigits2].
  assert (Hval : forall Z2 : R,
             - / 2 <= Z2 - Y <= / 2 ->
             - (bpow (e + d - 53) / 2)
             <= Z2 * bpow (e + k) - X * bpow e
             <= bpow (e + d - 53) / 2).
  { intros Z2 HZ. replace (e + d - 53)%Z with (e + k)%Z by (unfold k; lia).
    rewrite (bpow_add e k).
    assert (HB : 0 < bpow e * bpow k)
      by (apply Rmult_lt_0_compat; apply bpow_pos).
    replace (Z2 * (bpow e * bpow k) - X * bpow e)
      with ((Z2 - Y) * (bpow e * bpow k))
      by (transitivity (Z2 * (bpow e * bpow k) - (Y * bpow k) * bpow e);
          [ring | now rewrite <- HXY]).
    split; nra. }
  destruct (Z.eq_dec (Zpos p2) (2 ^ 53)) as [Hcarry|Hnc].
  - (* the rounding carried into a 54th bit *)
    injection Hcarry as ->.
    change (digits2_pos 9007199254740992) with 54%positive.
    replace (fexp prec emax (54 + (e + k)) - (e + k))%Z with 1%Z
      by (rewrite fexp_normal; unfold k; lia).
    cbn [shr_record_of_loc shr SpecFloat.iter_pos shr_1 shr_m orb].
    replace (e + k + 1 <=? emax - prec)%Z with true
      by (symmetry; apply Z.leb_le; unfold emax, prec, k; lia).
    exists 4503599627370496%positive, (e + k + 1)%Z.
    split; [reflexivity|]. split; [unfold normal_mantissa; lia|].
    split; [unfold k; lia|].
    unfold F2R. rewrite (bpow_add (e + k) 1), bpow_1.
    replace (IZR 4503599627370496 * (bpow (e + k) * 2))
      with (IZR 9007199254740992 * bpow (e + k)) by lra.
    apply Hval. exact Herr.
  - assert (Hd2 : Zpos (digits2_pos p2) = 53%Z)
      by (apply digits2_unique; lia).
    rewrite Hd2.
    replace (fexp prec emax (53 + (e + k)) - (e + k))%Z with 0%Z
      by (rewrite fexp_normal; unfold k; lia).
    cbn [shr_record_of_loc shr shr_m].
    replace (e + k <=? emax - prec)%Z with true
      by (symmetry; apply Z.leb_le; unfold emax, prec, k; lia).
    exists p2, (e + k)%Z.
    split; [reflexivity|]. split; [unfold normal_mantissa; lia|].
    split; [unfold k; lia|].
    unfold F2R. apply Hval. exact Herr.
Qed.

End RoundAux.

(** ** Binary floating point: exact conversions *)

Section ExactConversions.
Import FloatSem.
Local Open Scope Z_scope.

(** A number already in normal form is left as it is. *)
Lemma binary_round_aux_canonical s m e :
  Zpos (digits2_pos m) = 53 -> -1074 <= e <= 971 ->
  binary_round_aux prec emax s (Zpos m) e loc_Exact = S754_finite s m e.
Proof.
  intros Hd He. unfold binary_round_aux, shr_fexp. cbn [Zdigits2].
  rewrite Hd.
  replace (fexp prec emax (53 + e) - e) with 0
    by (rewrite fexp_normal; lia).
  cbn [shr_record_of_loc shr shr_m loc_of_shr_record round_nearest_even
       Zdigits2].
  rewrite Hd.
  replace (fexp prec emax (53 + e) - e) with 0
    by (rewrite fexp_normal; lia).
  cbn [shr_record_of_loc shr shr_m].
  replace (e <=? emax - prec) with true
    by (symmetry; apply Z.leb_le; unfold emax, prec; lia).
  reflexivity.
Qed.

Lemma pos_iter_xO p k : Zpos (Pos.iter xO p k) = Zpos p * 2 ^ Zpos k.
Proof.
  induction k as [|k IH] using Pos.peano_ind.
  - cbn. lia.
  - rewrite Pos.iter_succ, Pos2Z.inj_xO, IH, Pos2Z.inj_succ, Z.pow_succ_r; lia.
Qed.

(** [float64(n)] is exact for a positive [n] below [2^53]: the mantissa is
    [n] shifted to 53 bits. *)
Lemma binary_normalize_exact n :
  0 < n < 2 ^ 53 ->
  exists m e,
    binary_normalize prec emax n 0 false = S754_finite false m e
    /\ normal_mantissa m
    /\ e = Z.log2 n - 52
    /\ Zpos m = n * 2 ^ (- e).
Proof.
  intros Hn. destruct n as [|p|p]; try lia.
  cbn [binary_normalize]. unfold binary_round.
  pose proof (digits2_bounds p) as Hp.
  pose proof (digits2_log2 p) as Hlog.
  set (d := Zpos (digits2_pos p)) in *.
  assert (Hd : 1 <= d <= 53).
  { split; [unfold d; lia|].
    destruct (Z_le_gt_dec d 53) as [|Hgt]; [assumption|].
    assert (2 ^ 53 <= 2 ^ (d - 1)) by (apply Z.pow_le_mono_r; lia). lia. }
  rewrite fexp_normal by lia.
  unfold shl_align. replace (d + 0 - 53 - 0) with (d - 53) by lia.
  destruct (d - 53) as [|q|q] eqn:Ek; try lia.
  - (* 53 bits already *)
    exists p, 0. rewrite binary_round_aux_canonical by (fold d; lia).
    split; [reflexivity|]. split; [unfold normal_mantissa|].
    + replace d with 53 in Hp by lia. exact Hp.
    + split; [lia|]. cbn. lia.
  - exists (Pos.iter xO p q), (d + 0 - 53).
    assert (Hm : Zpos (Pos.iter xO p q) = Zpos p * 2 ^ (53 - d)).
    { rewrite pos_iter_xO. f_equal. f_equal. lia. }
    assert (Hpow : 2 ^ (d - 1) * 2 ^ (53 - d) = 2 ^ 52)
      by (rewrite <- Z.pow_add_r by lia; f_equal; lia).
    assert (Hpow' : 2 ^ d * 2 ^ (53 - d) = 2 ^ 53)
      by (rewrite <- Z.pow_add_r by lia; f_equal; lia).
    assert (Hpos : 0 < 2 ^ (53 - d)) by (apply Z.pow_pos_nonneg; lia).
    assert (Hnm : normal_mantissa (Pos.iter xO p q)).
    { unfold normal_mantissa. rewrite Hm. nia. }
    rewrite binary_round_aux_canonical;
      [| apply digits2_unique; exact Hnm | lia].
    split; [reflexivity|]. split; [exact Hnm|]. split; [lia|].
    rewrite Hm. f_equal. f_equal. lia.
Qed.

Lemma to_Z_of_Z_small n : 0 <= n < 2 ^ 63 -> Uint63.to_Z (Uint63.of_Z n) = n.
Proof.
  intros H. rewrite Uint63.of_Z_spec. apply Z.mod_small.
  change Uint63.wB with (2 ^ 63). exact H.
Qed.

Lemma of_int_exact n :
  0 < n < 2 ^ 53 ->
  exists m e,
    Prim2SF (F64.of_int n) = S754_finite false m e
    /\ normal_mantissa m
    /\ e = Z.log2 n - 52
    /\ Zpos m = n * 2 ^ (- e).
Proof.
  intros Hn. unfold F64.of_int.
  replace (n <? 0) with false by (symmetry; apply Z.ltb_ge; lia).
  rewrite of_uint63_spec, to_Z_of_Z_small by lia.
  now apply binary_normalize_exact.
Qed.

End ExactConversions.

(** ** Binary floating point: multiplication and division *)

Section MulDiv.
Import FloatSem.
Local Open Scope R_scope.

Lemma F2R_pos m e : 0 < F2R (Zpos m) e.
Proof.
  unfold F2R. apply Rmult_lt_0_compat; [apply IZR_lt; lia | apply bpow_pos].
Qed.

(** The relative form of the rounding error. *)
Lemma binary_round_aux_relative s m e l X :
  (0 < m)%Z -> inbetween X m l ->
  (53 <= Zdigits2 m)%Z ->
  (-1074 <= e + Zdigits2 m - 53)%Z ->
  (e + Zdigits2 m - 52 <= 971)%Z ->
  exists m' e',
    binary_round_aux prec emax s m e l = S754_finite s m' e'
    /\ normal_mantissa m'
    /\ (e + Zdigits2 m - 53 <= e' <= e + Zdigits2 m - 52)%Z
    /\ - (u * (X * bpow e)) <= F2R (Zpos m') e' - X * bpow e <= u * (X * bpow e).
Proof.
  intros Hm Hin Hd Hlo Hhi.
  destruct (binary_round_aux_normal s m e l X Hm Hin Hd Hlo Hhi)
    as (m' & e' & Heq & Hnm & He' & Herr).
  destruct m as [|p|p]; try lia. cbn [Zdigits2] in *.
  pose proof (digits2_bounds p) as Hp.
  pose proof (inbetween_floor _ _ _ Hin) as HX.
  set (d := Zpos (digits2_pos p)) in *.
  assert (Hb : bpow (e + d - 53) / 2 <= u * (X * bpow e)).
  { unfold u.
    assert (H1 : bpow (d - 1) <= X).
    { rewrite bpow_IZR by lia. apply Rle_trans with (IZR (Zpos p)); [|lra].
      apply IZR_le. lia. }
    replace (e + d - 53)%Z with (1 + (-53 + ((d - 1) + e)))%Z by lia.
    rewrite !bpow_add, bpow_1.
    pose proof (bpow_pos (-53)) as P1. pose proof (bpow_pos e) as P2.
    pose proof (bpow_pos (d - 1)) as P3.
    assert (P4 : bpow (d - 1) * bpow e <= X * bpow e) by nra.
    nra. }
  exists m', e'. split; [exact Heq|]. split; [exact Hnm|]. split; [lia|]. lra.
Qed.

(** Multiplication of two positive normal floats. *)
Lemma SFmul_normal mx ex my ey :
  normal_mantissa mx -> normal_mantissa my ->
  (-1074 <= ex + ey + 52)%Z -> (ex + ey + 54 <= 971)%Z ->
  exists m e,
    SFmul prec emax (S754_finite false mx ex) (S754_finite false my ey)
    = S754_finite false m e
    /\ normal_mantissa m
    /\ (ex + ey + 52 <= e <= ex + ey + 54)%Z
    /\ - (u * (F2R (Zpos mx) ex * F2R (Zpos my) ey))
       <= F2R (Zpos m) e - F2R (Zpos mx) ex * F2R (Zpos my) ey
       <= u * (F2R (Zpos mx) ex * F2R (Zpos my) ey).
Proof.
  intros Hx Hy Hlo Hhi. unfold normal_mantissa in Hx, Hy.
  cbn [SFmul xorb].
  pose proof (digits2_bounds (mx * my)) as Hd.
  set (d := Zpos (digits2_pos (mx * my))) in *.
  assert (Hprod : (2 ^ 104 <= Zpos (mx * my) < 2 ^ 106)%Z).
  { rewrite Pos2Z.inj_mul.
    change (2 ^ 104)%Z with (2 ^ 52 * 2 ^ 52)%Z.
    change (2 ^ 106)%Z with (2 ^ 53 * 2 ^ 53)%Z. nia. }
  assert (Hdr : (105 <= d <= 106)%Z).
  { split.
    - destruct (Z_lt_le_dec d 105) as [Hlt|]; [|assumption].
      assert (2 ^ d <= 2 ^ 104)%Z by (apply Z.pow_le_mono_r; lia). lia.
    - destruct (Z_le_gt_dec d 106) as [|Hgt]; [assumption|].
      assert (2 ^ 106 <= 2 ^ (d - 1))%Z by (apply Z.pow_le_mono_r; lia). lia. }
  destruct (binary_round_aux_relative false (Zpos (mx * my)) (ex + ey)
              loc_Exact (IZR (Zpos (mx * my))))
    as (m & e & Heq & Hnm & He & Herr);
    cbn [Zdigits2]; fold d; try lia; [reflexivity|].
  exists m, e. split; [exact Heq|]. split; [exact Hnm|].
  cbn [Zdigits2] in He. fold d in He. split; [lia|].
  replace (F2R (Zpos mx) ex * F2R (Zpos my) ey)
    with (IZR (Zpos (mx * my)) * bpow (ex + ey)); [exact Herr|].
  unfold F2R. rewrite Pos2Z.inj_mul, mult_IZR, bpow_add. ring.
Qed.

(** Where the exact quotient lies, from the remainder of the division. *)
Lemma new_location_spec d r q :
  (0 < d)%Z -> (0 <= r < d)%Z ->
  inbetween (IZR q + IZR r / IZR d) q (new_location d r).
Proof.
  intros Hd Hr.
  assert (HdR : 0 < IZR d) by (apply IZR_lt; lia).
  assert (Hr0 : 0 <= IZR r) by (apply IZR_le; lia).
  assert (Hrd : IZR r < IZR d) by (apply IZR_lt; lia).
  assert (Hhalf : forall c, (2 * r ?= d)%Z = c ->
            match c with
            | Lt => IZR r / IZR d < / 2
            | Eq => IZR r / IZR d = / 2
            | Gt => / 2 < IZR r / IZR d
            end).
  { intros c Hc. destruct c.
    - apply Z.compare_eq in Hc.
      assert (E : 2 * IZR r = IZR d) by (rewrite <- Hc, mult_IZR; reflexivity).
      field_simplify_eq; lra.
    - apply Z.compare_lt_iff in Hc. apply IZR_lt in Hc.
      rewrite mult_IZR in Hc.
      apply Rmult_lt_reg_r with (IZR d); [exact HdR|].
      unfold Rdiv. rewrite Rmult_assoc, Rinv_l by lra. lra.
    - apply Z.compare_gt_iff in Hc. apply IZR_lt in Hc.
      rewrite mult_IZR in Hc.
      apply Rmult_lt_reg_r with (IZR d); [exact HdR|].
      unfold Rdiv. rewrite Rmult_assoc, Rinv_l by lra. lra. }
  assert (Hfrac : 0 < IZR r / IZR d -> IZR r / IZR d < 1 -> True) by trivial.
  assert (Hlt1 : IZR r / IZR d < 1).
  { apply Rmult_lt_reg_r with (IZR d); [exact HdR|].
    unfold Rdiv. rewrite Rmult_assoc, Rinv_l by lra. lra. }
  assert (Hgt0 : (r <> 0)%Z -> 0 < IZR r / IZR d).
  { intros Hne. apply Rdiv_lt_0_compat; [apply IZR_lt; lia | exact HdR]. }
  pose proof (Hhalf _ eq_refl) as H.
  unfold new_location.
  destruct (Z.even d) eqn:Hev;
    unfold new_location_even, new_location_odd;
    (destruct (Z.eqb_spec r 0) as [->|Hne];
     [cbn [inbetween]; unfold Rdiv; rewrite Rmult_0_l; lra|]);
    specialize (Hgt0 Hne).
  - destruct (2 * r ?= d)%Z; cbn [inbetween]; lra.
  - (* an odd divisor is never twice the remainder *)
    assert (Hodd : (2 * r <> d)%Z).
    { intros E. rewrite <- E, Z.even_mul in Hev. discriminate Hev. }
    destruct (Z.compare_spec (2 * r) d) as [Hc|Hc|Hc]; [contradiction| |].
    + destruct (Z.compare_spec (2 * r + 1) d) as [Hc1|Hc1|Hc1];
        cbn [inbetween]; try lra.
      exfalso. lia.
    + destruct (Z.compare_spec (2 * r + 1) d) as [Hc1|Hc1|Hc1];
        cbn [inbetween]; try lra; exfalso; lia.
Qed.

(** Division of two positive normal floats. *)
Lemma SFdiv_normal mx ex my ey :
  normal_mantissa mx -> normal_mantissa my ->
  (-1074 <= ex - ey - 53)%Z -> (ex - ey - 51 <= 971)%Z ->
  exists m e,
    SFdiv prec emax (S754_finite false mx ex) (S754_finite false my ey)
    = S754_finite false m e
    /\ normal_mantissa m
    /\ (ex - ey - 53 <= e <= ex - ey - 51)%Z
    /\ - (u * (F2R (Zpos mx) ex / F2R (Zpos my) ey))
       <= F2R (Zpos m) e - F2R (Zpos mx) ex / F2R (Zpos my) ey
       <= u * (F2R (Zpos mx) ex / F2R (Zpos my) ey).
Proof.
  intros Hx Hy Hlo Hhi.
  pose proof (digits2_unique mx 53 Hx) as Hdx.
  pose proof (digits2_unique my 53 Hy) as Hdy.
  unfold normal_mantissa in Hx, Hy.
  cbn [SFdiv xorb]. unfold SFdiv_core_binary. cbn [Zdigits2].
  rewrite Hdx, Hdy.
  replace (fexp prec emax (53 + ex - (53 + ey)))%Z with (ex - ey - 53)%Z
    by (rewrite fexp_normal; lia).
  rewrite Z.min_l by lia.
  replace (ex - ey - (ex - ey - 53))%Z with 53%Z by lia.
  rewrite Z.shiftl_mul_pow2 by lia.
  set (M := (Zpos mx * 2 ^ 53)%Z).
  pose proof (Z_div_mod M (Zpos my) eq_refl) as Hdm.
  destruct (Z.div_eucl M (Zpos my)) as [q r]. destruct Hdm as [HM Hr].
  assert (Hq : (2 ^ 52 <= q < 2 ^ 54)%Z) by (unfold M in HM; nia).
  assert (Hdq : (53 <= Zdigits2 q <= 54)%Z).
  { destruct q as [|pq|pq]; try lia. cbn [Zdigits2].
    pose proof (digits2_bounds pq) as Hb.
    set (d := Zpos (digits2_pos pq)) in *. split.
    - destruct (Z_lt_le_dec d 53) as [Hlt|]; [|assumption].
      assert (2 ^ d <= 2 ^ 52)%Z by (apply Z.pow_le_mono_r; lia). lia.
    - destruct (Z_le_gt_dec d 54) as [|Hgt]; [assumption|].
      assert (2 ^ 54 <= 2 ^ (d - 1))%Z by (apply Z.pow_le_mono_r; lia). lia. }
  destruct (binary_round_aux_relative false q (ex - ey - 53)
              (new_location (Zpos my) r) (IZR q + IZR r / IZR (Zpos my)))
    as (m & e & Heq & Hnm & He & Herr); try lia.
  { apply new_location_spec; lia. }
  exists m, e. split; [exact Heq|]. split; [exact Hnm|]. split; [lia|].
  replace (F2R (Zpos mx) ex / F2R (Zpos my) ey)
    with ((IZR q + IZR r / IZR (Zpos my)) * bpow (ex - ey - 53));
    [exact Herr|].
  unfold F2R.
  assert (Hmy : 0 < IZR (Zpos my)) by (apply IZR_lt; lia).
  replace (IZR q + IZR r / IZR (Zpos my)) with (IZR M / IZR (Zpos my)).
  2:{ rewrite HM, plus_IZR, mult_IZR. field. lra. }
  unfold M. rewrite mult_IZR, (IZR_pow2_bpow 53) by lia.
  replace (ex - ey - 53)%Z with (ex + (- ey + -53))%Z by lia.
  rewrite !bpow_add, bpow_opp. change (bpow (-53)) with (/ bpow 53).
  pose proof (bpow_pos ey). pose proof (bpow_pos 53).
  field. repeat split; lra.
Qed.

End MulDiv.

(** ** Binary floating point: comparison and minimum *)

Section CompareMin.
Import FloatSem.
Local Open Scope R_scope.

Lemma F2R_normal_bounds m e :
  normal_mantissa m -> bpow (e + 52) <= F2R (Zpos m) e < bpow (e + 53).
Proof.
  unfold normal_mantissa, F2R. intros [Hlo Hhi].
  apply IZR_le in Hlo. apply IZR_lt in Hhi.
  rewrite (IZR_pow2_bpow 52) in Hlo by lia.
  rewrite (IZR_pow2_bpow 53) in Hhi by lia.
  rewrite !bpow_add. pose proof (bpow_pos e). nra.
Qed.

Lemma SFltb_normal m1 e1 m2 e2 :
  normal_mantissa m1 -> normal_mantissa m2 ->
  SFltb (S754_finite false m1 e1) (S754_finite false m2 e2) = true
  <-> F2R (Zpos m1) e1 < F2R (Zpos m2) e2.
Proof.
  intros H1 H2.
  pose proof (F2R_normal_bounds m1 e1 H1) as B1.
  pose proof (F2R_normal_bounds m2 e2 H2) as B2.
  unfold SFltb, SFcompare.
  destruct (Z.compare_spec e1 e2) as [->|Hlt|Hgt].
  - change (Pos.compare_cont Eq m1 m2) with (Pos.compare m1 m2).
    unfold F2R. pose proof (bpow_pos e2) as Hb.
    destruct (Pos.compare_spec m1 m2) as [->|Hm|Hm].
    + split; [discriminate | lra].
    + split; [intros _ | reflexivity].
      apply Rmult_lt_compat_r; [exact Hb | apply IZR_lt; lia].
    + split; [discriminate|]. intros H. exfalso.
      assert (IZR (Zpos m2) < IZR (Zpos m1)) by (apply IZR_lt; lia). nra.
  - split; [intros _ | reflexivity].
    pose proof (bpow_le (e1 + 53) (e2 + 52) ltac:(lia)). lra.
  - split; [discriminate|]. intros H. exfalso.
    pose proof (bpow_le (e2 + 53) (e1 + 52) ltac:(lia)). lra.
Qed.

Lemma SFeqb_refl_finite s m e :
  SFeqb (S754_finite s m e) (S754_finite s m e) = true.
Proof.
  unfold SFeqb, SFcompare. rewrite Z.compare_refl.
  change (Pos.compare_cont Eq m m) with (Pos.compare m m).
  rewrite Pos.compare_refl. destruct s; reflexivity.
Qed.

(** [math.Min] of two positive normal floats is the smaller of the two. *)
Lemma Min_normal x y mx ex my ey :
  Prim2SF x = S754_finite false mx ex ->
  Prim2SF y = S754_finite false my ey ->
  normal_mantissa mx -> normal_mantissa my ->
  (F64.Min x y = x /\ F2R (Zpos mx) ex <= F2R (Zpos my) ey)
  \/ (F64.Min x y = y /\ F2R (Zpos my) ey <= F2R (Zpos mx) ex).
Proof.
  intros Hx Hy Hmx Hmy. unfold F64.Min, F64.eqb, F64.ltb, F64.zero.
  unfold PrimFloat.is_nan.
  rewrite !eqb_spec, ltb_spec, Hx, Hy.
  change (Prim2SF neg_infinity) with (S754_infinity true).
  change (Prim2SF PrimFloat.zero) with (S754_zero false).
  rewrite !SFeqb_refl_finite.
  cbn [SFeqb SFcompare orb negb andb].
  destruct (SFltb (S754_finite false mx ex) (S754_finite false my ey)) eqn:Hlt.
  - left. split; [reflexivity|].
    apply (SFltb_normal mx ex my ey Hmx Hmy) in Hlt. lra.
  - right. split; [reflexivity|].
    destruct (Rlt_dec (F2R (Zpos mx) ex) (F2R (Zpos my) ey)) as [H|H]; [|lra].
    apply (SFltb_normal mx ex my ey Hmx Hmy) in H. congruence.
Qed.

End CompareMin.

(** ** Rounding to an integer and converting to [int] *)

Section RoundToInt.
Import FloatSem.
Local Open Scope Z_scope.

(** What the machine guarantees of every finite float. *)
Lemma finite_float_bounds x s m e :
  Prim2SF x = S754_finite s m e ->
  Zpos m < 2 ^ 53 /\ -1074 <= e <= 971.
Proof.
  intros H. pose proof (Prim2SF_valid x) as Hv. rewrite H in Hv.
  cbn [valid_binary] in Hv. unfold bounded, canonical_mantissa in Hv.
  apply andb_prop in Hv. destruct Hv as [Hc He].
  apply Z.eqb_eq in Hc. apply Z.leb_le in He.
  unfold fexp, SpecFloat.emin, prec, emax in *.
  pose proof (digits2_bounds m) as Hb.
  set (d := Zpos (digits2_pos m)) in *.
  assert (Hd : d <= 53) by lia.
  assert (2 ^ d <= 2 ^ 53) by (apply Z.pow_le_mono_r; lia).
  lia.
Qed.

(** [round_half_up] picks the nearest integer, the upper one at a tie. *)
Lemma round_half_up_spec m e :
  e < 0 -> 0 <= m ->
  let r := F64.round_half_up m e in
  0 <= r /\ (2 * r - 1) * 2 ^ (- e) <= 2 * m < (2 * r + 1) * 2 ^ (- e).
Proof.
  intros He Hm r. subst r. unfold F64.round_half_up.
  replace (0 <=? e) with false by (symmetry; apply Z.leb_gt; lia).
  set (h := 2 ^ (- e - 1)).
  assert (Hh : 0 < h) by (apply Z.pow_pos_nonneg; lia).
  assert (H2h : 2 ^ (- e) = 2 * h).
  { unfold h. rewrite <- Z.pow_succ_r by lia. f_equal. lia. }
  rewrite H2h.
  pose proof (Z.div_mod (m + h) (2 * h) ltac:(lia)) as Hdm.
  pose proof (Z.mod_pos_bound (m + h) (2 * h) ltac:(lia)) as Hmod.
  set (q := (m + h) / (2 * h)) in *.
  assert (0 <= q) by (apply Z.div_pos; lia).
  split; [assumption|]. nia.
Qed.

Lemma round_half_up_small m e :
  e < 0 -> 0 <= m < 2 ^ 53 -> F64.round_half_up m e <= 2 ^ 52.
Proof.
  intros He Hm.
  destruct (round_half_up_spec m e He ltac:(lia)) as [Hr [Hlo Hhi]].
  set (r := F64.round_half_up m e) in *.
  assert (Hp : 2 <= 2 ^ (- e)).
  { replace (- e) with (1 + (- e - 1)) by lia. rewrite Z.pow_add_r by lia.
    pose proof (Z.pow_pos_nonneg 2 (- e - 1)). lia. }
  destruct (Z_le_gt_dec r (2 ^ 52)) as [|Hgt]; [assumption|]. nia.
Qed.

Lemma to_int_exact_uint n (s : bool) :
  0 < n < 2 ^ 53 ->
  F64.to_int (let r := PrimFloat.of_uint63 (Uint63.of_Z n) in
              if s then PrimFloat.opp r else r)
  = if s then - n else n.
Proof.
  intros Hn.
  destruct (binary_normalize_exact n Hn) as (m & e & Heq & Hnm & He & Hm).
  assert (Hlog : 0 <= Z.log2 n <= 52).
  { split; [apply Z.log2_nonneg|].
    assert (Z.log2 n < 53) by (apply Z.log2_lt_pow2; lia). lia. }
  assert (Hsf : Prim2SF (PrimFloat.of_uint63 (Uint63.of_Z n))
                = S754_finite false m e)
    by (rewrite of_uint63_spec, to_Z_of_Z_small by lia; exact Heq).
  assert (Htr : F64.trunc_mag (Zpos m) e = n).
  { unfold F64.trunc_mag. rewrite Hm.
    destruct (Z.leb_spec 0 e).
    - replace e with 0 by lia. cbn. lia.
    - apply Z.div_mul. apply Z.pow_nonzero; lia. }
  assert (Hr : GoInt.in_range n = true /\ GoInt.in_range (- n) = true).
  { unfold GoInt.in_range, GoInt.min_int, GoInt.max_int.
    split; apply andb_true_intro; split; apply Z.leb_le; lia. }
  cbv zeta. unfold F64.to_int. destruct s.
  - rewrite opp_spec, Hsf. cbn [SFopp negb]. rewrite Htr. now rewrite (proj2 Hr).
  - rewrite Hsf, Htr. now rewrite (proj1 Hr).
Qed.

(** [int(math.Round(x))] for a finite [x]: the magnitude is rounded to the
    nearest integer, halves upwards, and the sign is kept. *)
Lemma to_int_Round x s m e :
  Prim2SF x = S754_finite s m e ->
  F64.to_int (F64.Round x)
  = let r := F64.round_half_up (Zpos m) e in
    let v := if s then - r else r in
    if GoInt.in_range v then v else GoInt.min_int.
Proof.
  intros H. destruct (finite_float_bounds x s m e H) as [Hm He].
  unfold F64.Round. rewrite H.
  destruct (Z.leb_spec 0 e) as [Hpos|Hneg].
  - unfold F64.to_int. rewrite H. unfold F64.trunc_mag, F64.round_half_up.
    replace (0 <=? e) with true by (symmetry; apply Z.leb_le; lia).
    reflexivity.
  - destruct (round_half_up_spec (Zpos m) e Hneg ltac:(lia)) as [Hr _].
    pose proof (round_half_up_small (Zpos m) e Hneg ltac:(lia)) as Hsmall.
    cbv zeta. set (r := F64.round_half_up (Zpos m) e) in *.
    destruct (Z.eqb_spec r 0) as [Hz|Hnz].
    + rewrite Hz. destruct s; reflexivity.
    + pose proof (to_int_exact_uint r s ltac:(lia)) as Hex.
      cbv zeta in Hex. rewrite Hex.
      assert (Hin : GoInt.in_range (if s then - r else r) = true).
      { unfold GoInt.in_range, GoInt.min_int, GoInt.max_int.
        destruct s; apply andb_true_intro; split; apply Z.leb_le; lia. }
      now rewrite Hin.
Qed.

End RoundToInt.

(** ** The bounding-box fit *)

Section BoundingBox.
Import FloatSem.
Local Open Scope R_scope.

Lemma u_value : u = / 9007199254740992.
Proof. unfold u, bpow. cbn [powerRZ]. f_equal.
       rewrite pow_IZR. f_equal. Qed.

Lemma round_half_up_real m e :
  (0 < m)%Z ->
  IZR (F64.round_half_up m e) - / 2 <= F2R m e
  < IZR (F64.round_half_up m e) + / 2.
Proof.
  intros Hm. destruct (Z.leb_spec 0 e) as [Hpos|Hneg].
  - unfold F64.round_half_up.
    replace (0 <=? e)%Z with true by (symmetry; apply Z.leb_le; lia).
    unfold F2R. rewrite mult_IZR, (IZR_pow2_bpow e) by lia. lra.
  - destruct (round_half_up_spec m e Hneg ltac:(lia)) as [Hr [Hlo Hhi]].
    set (r := F64.round_half_up m e) in *.
    apply IZR_le in Hlo. apply IZR_lt in Hhi.
    rewrite (mult_IZR (2 * r - 1)), (mult_IZR 2 m), minus_IZR,
      (mult_IZR 2 r) in Hlo.
    rewrite (mult_IZR (2 * r + 1)), (mult_IZR 2 m), plus_IZR,
      (mult_IZR 2 r) in Hhi.
    rewrite (IZR_pow2_bpow (- e)) in Hlo, Hhi by lia.
    unfold F2R.
    assert (Hinv : bpow (- e) * bpow e = 1).
    { rewrite <- bpow_add. replace (- e + e)%Z with 0%Z by lia. reflexivity. }
    pose proof (bpow_pos e) as Hb. pose proof (bpow_pos (- e)) as Hb'.
    split.
    + assert (H : (2 * IZR r - 1) * (bpow (- e) * bpow e)
                  <= 2 * IZR m * bpow e) by nra.
      rewrite Hinv in H. lra.
    + assert (H : 2 * IZR m * bpow e
                  < (2 * IZR r + 1) * (bpow (- e) * bpow e)) by nra.
      rewrite Hinv in H. lra.
Qed.

(** A positive float within a half of the integer [B] rounds to [B]. *)
Lemma to_int_Round_near p m e B :
  Prim2SF p = S754_finite false m e ->
  (0 <= B <= 2 ^ 62)%Z ->
  IZR B - / 2 < F2R (Zpos m) e < IZR B + / 2 ->
  F64.to_int (F64.Round p) = B.
Proof.
  intros Hp HB Hnear. rewrite (to_int_Round p false m e Hp). cbv zeta.
  pose proof (round_half_up_real (Zpos m) e ltac:(lia)) as Hr.
  set (r := F64.round_half_up (Zpos m) e) in *.
  assert (Hlt : (r < B + 1)%Z) by (apply lt_IZR; rewrite plus_IZR; lra).
  assert (Hgt : (B - 1 < r)%Z) by (apply lt_IZR; rewrite minus_IZR; lra).
  replace r with B by lia.
  replace (GoInt.in_range B) with true; [reflexivity|].
  symmetry. unfold GoInt.in_range, GoInt.min_int, GoInt.max_int.
  apply andb_true_intro; split; apply Z.leb_le; lia.
Qed.

(** A positive float below [B] plus a half rounds to at most [B]. *)
Lemma to_int_Round_below p m e B :
  Prim2SF p = S754_finite false m e ->
  (0 <= B <= 2 ^ 62)%Z ->
  F2R (Zpos m) e < IZR B + / 2 ->
  (0 <= F64.to_int (F64.Round p) <= B)%Z.
Proof.
  intros Hp HB Hbelow. rewrite (to_int_Round p false m e Hp). cbv zeta.
  pose proof (round_half_up_real (Zpos m) e ltac:(lia)) as Hr.
  pose proof (F2R_pos m e) as Hpos.
  set (r := F64.round_half_up (Zpos m) e) in *.
  assert (Hlt : (r < B + 1)%Z) by (apply lt_IZR; rewrite plus_IZR; lra).
  assert (Hgt : (-1 < r)%Z) by (apply lt_IZR; lra).
  replace (GoInt.in_range r) with true; [lia|].
  symmetry. unfold GoInt.in_range, GoInt.min_int, GoInt.max_int.
  apply andb_true_intro; split; apply Z.leb_le; lia.
Qed.

Lemma of_int_normal n :
  (0 < n < 2 ^ 51)%Z ->
  exists m e,
    Prim2SF (F64.of_int n) = S754_finite false m e
    /\ normal_mantissa m
    /\ (-52 <= e <= -2)%Z
    /\ F2R (Zpos m) e = IZR n.
Proof.
  intros Hn.
  destruct (of_int_exact n ltac:(lia)) as (m & e & Heq & Hnm & He & Hm).
  assert (Hlog : (0 <= Z.log2 n < 51)%Z).
  { split; [apply Z.log2_nonneg | apply Z.log2_lt_pow2; lia]. }
  exists m, e. split; [exact Heq|]. split; [exact Hnm|]. split; [lia|].
  unfold F2R. rewrite Hm, mult_IZR, (IZR_pow2_bpow (- e)) by lia.
  rewrite Rmult_assoc, <- bpow_add.
  replace (- e + e)%Z with 0%Z by lia. unfold bpow. cbn. ring.
Qed.

(** The quotient of two converted integers. *)
Lemma div_of_ints a b :
  (0 < a < 2 ^ 51)%Z -> (0 < b < 2 ^ 51)%Z ->
  exists m e,
    Prim2SF (F64.div (F64.of_int b) (F64.of_int a)) = S754_finite false m e
    /\ normal_mantissa m
    /\ (-103 <= e <= -1)%Z
    /\ IZR b / IZR a * (1 - u) <= F2R (Zpos m) e <= IZR b / IZR a * (1 + u).
Proof.
  intros Ha Hb.
  destruct (of_int_normal a Ha) as (ma & ea & Hfa & Hna & Hea & Hva).
  destruct (of_int_normal b Hb) as (mb & eb & Hfb & Hnb & Heb & Hvb).
  destruct (SFdiv_normal mb eb ma ea Hnb Hna ltac:(lia) ltac:(lia))
    as (m & e & Heq & Hnm & He & Herr).
  exists m, e. unfold F64.div. rewrite div_spec, Hfa, Hfb.
  split; [exact Heq|]. split; [exact Hnm|]. split; [lia|].
  rewrite Hva, Hvb in Herr. lra.
Qed.

(** The product of a converted integer and a positive scale. *)
Lemma mul_int_scale a s ms es :
  (0 < a < 2 ^ 51)%Z ->
  Prim2SF s = S754_finite false ms es ->
  normal_mantissa ms -> (-103 <= es <= -1)%Z ->
  exists m e,
    Prim2SF (F64.mul (F64.of_int a) s) = S754_finite false m e
    /\ IZR a * F2R (Zpos ms) es * (1 - u)
       <= F2R (Zpos m) e
       <= IZR a * F2R (Zpos ms) es * (1 + u).
Proof.
  intros Ha Hs Hns Hes.
  destruct (of_int_normal a Ha) as (ma & ea & Hfa & Hna & Hea & Hva).
  destruct (SFmul_normal ma ea ms es Hna Hns ltac:(lia) ltac:(lia))
    as (m & e & Heq & Hnm & He & Herr).
  exists m, e. unfold F64.mul. rewrite mul_spec, Hfa, Hs.
  split; [exact Heq|]. rewrite Hva in Herr. lra.
Qed.

(** Scaling a length by the quotient of bound and length gives back the
    bound. *)
Lemma dimension_hits a b :
  (0 < a < 2 ^ 51)%Z -> (0 < b < 2 ^ 51)%Z ->
  F64.to_int (F64.Round (F64.mul (F64.of_int a)
                                 (F64.div (F64.of_int b) (F64.of_int a))))
  = b.
Proof.
  intros Ha Hb.
  destruct (div_of_ints a b Ha Hb) as (mq & eq & Hq & Hnq & Heq & HQ).
  destruct (mul_int_scale a _ mq eq Ha Hq Hnq Heq) as (mp & ep & Hp & HP).
  apply (to_int_Round_near _ mp ep b Hp); [lia|].
  set (Q := F2R (Zpos mq) eq) in *. set (P := F2R (Zpos mp) ep) in *.
  assert (HA : 1 <= IZR a) by (apply IZR_le; lia).
  assert (HB1 : 1 <= IZR b) by (apply IZR_le; lia).
  assert (HB2 : IZR b <= 2251799813685247) by (apply IZR_le; lia).
  assert (HAQ : IZR b * (1 - u) <= IZR a * Q <= IZR b * (1 + u)).
  { assert (H1 : IZR a * (IZR b / IZR a * (1 - u)) <= IZR a * Q)
      by (apply Rmult_le_compat_l; lra).
    assert (H2 : IZR a * Q <= IZR a * (IZR b / IZR a * (1 + u)))
      by (apply Rmult_le_compat_l; lra).
    replace (IZR a * (IZR b / IZR a * (1 - u))) with (IZR b * (1 - u)) in H1
      by (field; lra).
    replace (IZR a * (IZR b / IZR a * (1 + u))) with (IZR b * (1 + u)) in H2
      by (field; lra).
    lra. }
  rewrite u_value in *. set (T := IZR a * Q) in *. lra.
Qed.

(** Scaling a length by no more than that quotient stays within the
    bound. *)
Lemma dimension_fits a b s ms es :
  (0 < a < 2 ^ 51)%Z -> (0 < b < 2 ^ 51)%Z ->
  Prim2SF s = S754_finite false ms es ->
  normal_mantissa ms -> (-103 <= es <= -1)%Z ->
  F2R (Zpos ms) es <= IZR b / IZR a * (1 + u) ->
  (0 <= F64.to_int (F64.Round (F64.mul (F64.of_int a) s)) <= b)%Z.
Proof.
  intros Ha Hb Hs Hns Hes HS.
  destruct (mul_int_scale a s ms es Ha Hs Hns Hes) as (mp & ep & Hp & HP).
  apply (to_int_Round_below _ mp ep b Hp); [lia|].
  set (S := F2R (Zpos ms) es) in *. set (P := F2R (Zpos mp) ep) in *.
  assert (HA : 1 <= IZR a) by (apply IZR_le; lia).
  assert (HB2 : IZR b <= 2251799813685247) by (apply IZR_le; lia).
  assert (HB1 : 1 <= IZR b) by (apply IZR_le; lia).
  assert (HAS : IZR a * S <= IZR b * (1 + u)).
  { assert (H2 : IZR a * S <= IZR a * (IZR b / IZR a * (1 + u)))
      by (apply Rmult_le_compat_l; lra).
    replace (IZR a * (IZR b / IZR a * (1 + u))) with (IZR b * (1 + u)) in H2
      by (field; lra).
    exact H2. }
  rewrite u_value in *. set (T := IZR a * S) in *. lra.
Qed.

End BoundingBox.

(** ** The size rules *)

Section SizeRules.
Import FloatSem Records Resize.
Local Open Scope R_scope.


(** Fitting a box: both lengths stay within the box and one of them
    reaches it. *)
Lemma box_fit a1 a2 b1 b2 :
  (0 < a1 < 2 ^ 51)%Z -> (0 < a2 < 2 ^ 51)%Z ->
  (0 < b1 < 2 ^ 51)%Z -> (0 < b2 < 2 ^ 51)%Z ->
  let scale := F64.Min (F64.div (F64.of_int b1) (F64.of_int a1))
                       (F64.div (F64.of_int b2) (F64.of_int a2)) in
  let d1 := F64.to_int (F64.Round (F64.mul (F64.of_int a1) scale)) in
  let d2 := F64.to_int (F64.Round (F64.mul (F64.of_int a2) scale)) in
  (0 <= d1 <= b1)%Z /\ (0 <= d2 <= b2)%Z /\ (d1 = b1 \/ d2 = b2).
Proof.
  intros Ha1 Ha2 Hb1 Hb2.
  destruct (div_of_ints a1 b1 Ha1 Hb1) as (m1 & e1 & Hq1 & Hn1 & He1 & HQ1).
  destruct (div_of_ints a2 b2 Ha2 Hb2) as (m2 & e2 & Hq2 & Hn2 & He2 & HQ2).
  cbv zeta.
  destruct (Min_normal _ _ m1 e1 m2 e2 Hq1 Hq2 Hn1 Hn2) as [[-> Hle]|[-> Hle]].
  - rewrite (dimension_hits a1 b1 Ha1 Hb1).
    split; [lia|]. split; [|left; reflexivity].
    apply (dimension_fits a2 b2 _ m1 e1 Ha2 Hb2 Hq1 Hn1 He1). lra.
  - rewrite (dimension_hits a2 b2 Ha2 Hb2).
    split; [|split; [lia | right; reflexivity]].
    apply (dimension_fits a1 b1 _ m2 e2 Ha1 Hb1 Hq2 Hn2 He2). lra.
Qed.




(** A length multiplied by the quotient of two lengths, as in
    [float64(a) * (float64(b) / float64(c))]: the real [a * b / c] up to
    two roundings. *)
Lemma ratio_product a b c :
  (0 < a < 2 ^ 51)%Z -> (0 < b < 2 ^ 51)%Z -> (0 < c < 2 ^ 51)%Z ->
  exists m e,
    Prim2SF (F64.mul (F64.of_int a) (F64.div (F64.of_int b) (F64.of_int c)))
    = S754_finite false m e
    /\ IZR a * (IZR b / IZR c) * ((1 - u) * (1 - u))
       <= F2R (Zpos m) e
       <= IZR a * (IZR b / IZR c) * ((1 + u) * (1 + u)).
Proof.
  intros Ha Hb Hc.
  destruct (div_of_ints c b Hc Hb) as (mq & eq & Hq & Hnq & Heq & HQ).
  destruct (mul_int_scale a _ mq eq Ha Hq Hnq Heq) as (m & e & Hp & HP).
  exists m, e. split; [exact Hp|].
  set (Q := F2R (Zpos mq) eq) in *. set (P := F2R (Zpos m) e) in *.
  set (R0 := IZR b / IZR c) in *.
  assert (HA : 1 <= IZR a) by (apply IZR_le; lia).
  assert (H1 : IZR a * (R0 * (1 - u)) <= IZR a * Q)
    by (apply Rmult_le_compat_l; lra).
  assert (H2 : IZR a * Q <= IZR a * (R0 * (1 + u)))
    by (apply Rmult_le_compat_l; lra).
  set (T := IZR a * Q) in *.
  replace (IZR a * (R0 * (1 - u))) with (IZR a * R0 * (1 - u)) in H1 by ring.
  replace (IZR a * (R0 * (1 + u))) with (IZR a * R0 * (1 + u)) in H2 by ring.
  set (E := IZR a * R0) in *.
  rewrite u_value in *. lra.
Qed.

(** When the product of the two lengths is below [2^51], the scaled length
    is the exact fraction rounded to the nearest integer; only a fraction
    exactly halfway between two integers may be rounded either way. *)
Lemma ratio_scaled a b c :
  (0 < a)%Z -> (0 < b)%Z -> (0 < c < 2 ^ 51)%Z -> (a * b < 2 ^ 51)%Z ->
  let d := F64.to_int (F64.Round
             (F64.mul (F64.of_int a) (F64.div (F64.of_int b) (F64.of_int c)))) in
  d = round_ratio (a * b) c
  \/ (is_tie (a * b) c /\ d = (round_ratio (a * b) c - 1)%Z).
Proof.
  intros Ha Hb Hc Hab d. subst d.
  assert (Ha' : (0 < a < 2 ^ 51)%Z) by nia.
  assert (Hb' : (0 < b < 2 ^ 51)%Z) by nia.
  destruct (ratio_product a b c Ha' Hb' Hc) as (m & e & Hp & HP).
  rewrite (to_int_Round _ false m e Hp). cbv zeta.
  pose proof (round_half_up_real (Zpos m) e ltac:(lia)) as Hr.
  set (r := F64.round_half_up (Zpos m) e) in *.
  set (P := F2R (Zpos m) e) in *.
  unfold round_ratio, is_tie.
  set (N := (a * b)%Z) in *.
  pose proof (Z.div_mod (2 * N + c) (2 * c) ltac:(lia)) as Hdm.
  pose proof (Z.mod_pos_bound (2 * N + c) (2 * c) ltac:(lia)) as Hmod.
  set (k := ((2 * N + c) / (2 * c))%Z) in *.
  set (t := ((2 * N + c) mod (2 * c))%Z) in *.
  assert (Hk : (0 <= k <= N)%Z) by nia.
  (* the exact fraction and half the spacing of its possible values *)
  set (E := IZR a * (IZR b / IZR c)) in *.
  set (dl := / (2 * IZR c)).
  assert (HC : 1 <= IZR c) by (apply IZR_le; lia).
  assert (Hdl : 0 < dl <= / 2).
  { unfold dl. split.
    - apply Rinv_0_lt_compat. lra.
    - apply Rinv_le_contravar; lra. }
  assert (HN : IZR N = IZR a * IZR b) by (unfold N; apply mult_IZR).
  assert (HE : E = IZR N * (2 * dl)).
  { unfold E, dl. rewrite HN. field. lra. }
  assert (HEk : E = IZR k - / 2 + IZR t * dl).
  { apply (f_equal IZR) in Hdm.
    rewrite plus_IZR, (mult_IZR 2 N), plus_IZR, (mult_IZR (2 * c) k),
      (mult_IZR 2 c) in Hdm.
    rewrite HE. unfold dl.
    apply (Rmult_eq_reg_r (2 * IZR c)); [|lra].
    field_simplify; [|lra|lra]. lra. }
  assert (HNle : IZR N <= 2251799813685247) by (apply IZR_le; lia).
  assert (HN0 : 0 <= IZR N) by (apply IZR_le; lia).
  assert (HEle : E <= 2251799813685247 * (2 * dl)).
  { rewrite HE. apply Rmult_le_compat_r; lra. }
  assert (HE0 : 0 <= E).
  { rewrite HE. apply Rmult_le_pos; lra. }
  rewrite u_value in HP.
  assert (Hnear : E - dl < P < E + dl) by lra.
  assert (Hin : forall v, (0 <= v <= N)%Z -> GoInt.in_range v = true).
  { intros v Hv. unfold GoInt.in_range, GoInt.min_int, GoInt.max_int.
    apply andb_true_intro; split; apply Z.leb_le; lia. }
  destruct (Z.eq_dec t 0) as [Ht|Ht].
  - (* halfway: the product is within [dl] of [k - 1/2] *)
    rewrite Ht in HEk.
    assert (Hlo : (k - 2 < r)%Z)
      by (apply lt_IZR; rewrite minus_IZR; lra).
    assert (Hhi : (r < k + 1)%Z)
      by (apply lt_IZR; rewrite plus_IZR; lra).
    assert (Hr0 : (0 <= r)%Z).
    { pose proof (F2R_pos m e). fold P in H.
      assert (-1 < r)%Z by (apply lt_IZR; lra). lia. }
    rewrite (Hin r ltac:(lia)).
    destruct (Z.eq_dec r k) as [->|Hne]; [left; reflexivity|].
    right. split; [exact Ht | lia].
  - (* otherwise the fraction is at least [dl] away from every half *)
    left.
    assert (Ht1 : 1 <= IZR t) by (apply IZR_le; lia).
    assert (Ht2 : IZR t <= 2 * IZR c - 1).
    { replace (2 * IZR c - 1) with (IZR (2 * c - 1))
        by (rewrite minus_IZR, mult_IZR; reflexivity).
      apply IZR_le. lia. }
    assert (Hcd : IZR c * dl = / 2).
    { unfold dl. field. lra. }
    assert (HtL : dl <= IZR t * dl) by nra.
    assert (HtU : IZR t * dl <= 1 - dl) by nra.
    assert (Hlo : (k - 1 < r)%Z)
      by (apply lt_IZR; rewrite minus_IZR; lra).
    assert (Hhi : (r < k + 1)%Z)
      by (apply lt_IZR; rewrite plus_IZR; lra).
    replace r with k by lia. now rewrite (Hin k Hk).
Qed.

(** A scale of one gives every length back. *)
Lemma scale_one_length n :
  (0 < n < 2 ^ 51)%Z ->
  F64.to_int (F64.Round (F64.mul (F64.of_int n) PrimFloat.one)) = n.
Proof.
  intros Hn.
  assert (H1 : Prim2SF PrimFloat.one = S754_finite false 4503599627370496 (-52))
    by reflexivity.
  assert (Hnm : normal_mantissa 4503599627370496)
    by (unfold normal_mantissa; lia).
  assert (Hv : F2R (Zpos 4503599627370496) (-52) = 1).
  { unfold F2R. change (-52)%Z with (- (52))%Z.
    rewrite bpow_opp, (bpow_IZR 52) by lia.
    change (2 ^ 52)%Z with 4503599627370496%Z. apply Rinv_r. lra. }
  destruct (mul_int_scale n PrimFloat.one _ _ Hn H1 Hnm ltac:(lia))
    as (m & e & Hp & HP).
  rewrite Hv in HP.
  apply (to_int_Round_near _ m e n Hp); [lia|].
  assert (1 <= IZR n) by (apply IZR_le; lia).
  assert (IZR n <= 2251799813685247) by (apply IZR_le; lia).
  rewrite u_value in HP. lra.
Qed.

Lemma CalculateOutputSize_scale_one srcWidth srcHeight spec :
  (0 < srcWidth < 2 ^ 51)%Z -> (0 < srcHeight < 2 ^ 51)%Z ->
  rsScale spec = PrimFloat.one ->
  CalculateOutputSize srcWidth srcHeight spec = (srcWidth, srcHeight).
Proof.
  intros Hw Hh Hs. unfold CalculateOutputSize. rewrite Hs.
  change (F64.ltb F64.zero PrimFloat.one) with true. cbv iota.
  now rewrite (scale_one_length _ Hw), (scale_one_length _ Hh).
Qed.

End SizeRules.

(** C4.  With no scale and both a width and a height requested, and with
    the two source lengths and the two requested lengths all between 1 and
    [2^51 - 1]: [CalculateOutputSize] applies
    [int(math.Round(float64(src) * scale))] to both lengths, where [scale]
    is [math.Min] of the two float64 quotients requested / source; the
    output width is at most the requested width, the output height at most
    the requested height, neither is negative, and one of the two is
    exactly the requested length. *)
Theorem C4_bounding_box srcWidth srcHeight spec :
  (0 < srcWidth < 2 ^ 51)%Z -> (0 < srcHeight < 2 ^ 51)%Z ->
  (0 < Records.rsWidth spec < 2 ^ 51)%Z ->
  (0 < Records.rsHeight spec < 2 ^ 51)%Z ->
  F64.ltb F64.zero (Records.rsScale spec) = false ->
  let scale :=
    F64.Min (F64.div (F64.of_int (Records.rsWidth spec)) (F64.of_int srcWidth))
            (F64.div (F64.of_int (Records.rsHeight spec))
                     (F64.of_int srcHeight)) in
  let out := Resize.CalculateOutputSize srcWidth srcHeight spec in
  out = (F64.to_int (F64.Round (F64.mul (F64.of_int srcWidth) scale)),
         F64.to_int (F64.Round (F64.mul (F64.of_int srcHeight) scale)))
  /\ (0 <= fst out <= Records.rsWidth spec)%Z
  /\ (0 <= snd out <= Records.rsHeight spec)%Z
  /\ (fst out = Records.rsWidth spec \/ snd out = Records.rsHeight spec).
Proof.
  intros Hw Hh Hbw Hbh Hs. cbv zeta.
  unfold Resize.CalculateOutputSize. rewrite Hs.
  replace (0 <? Records.rsWidth spec)%Z with true
    by (symmetry; apply Z.ltb_lt; lia).
  replace (0 <? Records.rsHeight spec)%Z with true
    by (symmetry; apply Z.ltb_lt; lia).
  cbn [andb fst snd]. split; [reflexivity|].
  exact (box_fit srcWidth srcHeight _ _ Hw Hh Hbw Hbh).
Qed.

Lemma C4_witness :
  let spec := {| Records.rsScale := F64.zero;
                 Records.rsWidth := 800; Records.rsHeight := 600 |} in
  Resize.CalculateOutputSize 1920 1080 spec = (800%Z, 450%Z)
  /\ (fst (Resize.CalculateOutputSize 1920 1080 spec) = 800%Z
      \/ snd (Resize.CalculateOutputSize 1920 1080 spec) = 600%Z).
Proof.
  intros spec.
  pose proof (C4_bounding_box 1920 1080 spec
                ltac:(lia) ltac:(lia) ltac:(cbn; lia) ltac:(cbn; lia)
                ltac:(reflexivity)) as H.
  cbv zeta in H. destruct H as (_ & _ & _ & H).
  split; [vm_compute; reflexivity | exact H].
Defined.

(** The bound on the lengths is needed: [2^53 + 3] is not a float64, the
    conversion of the requested length gives [2^53 + 4], and that is what
    comes out for a source of one pixel. *)
Lemma C4_counterexample :
  ~ (forall srcWidth srcHeight boxW boxH : Z,
        (0 < srcWidth)%Z -> (0 < srcHeight)%Z ->
        (0 < boxW)%Z -> (0 < boxH)%Z ->
        let out :=
          Resize.CalculateOutputSize srcWidth srcHeight
            {| Records.rsScale := F64.zero;
               Records.rsWidth := boxW; Records.rsHeight := boxH |} in
        (fst out <= boxW)%Z /\ (snd out <= boxH)%Z).
Proof.
  intros H.
  specialize (H 1%Z 1%Z 9007199254740995%Z 9007199254740995%Z
                ltac:(lia) ltac:(lia) ltac:(lia) ltac:(lia)).
  cbv zeta in H. destruct H as [H _].
  vm_compute in H. apply H. reflexivity.
Qed.





(** A fraction exactly halfway: [27 * 13 / 6] is 58.5; the float64
    quotient [13 / 6] lies just below the fraction, and so does the
    product. *)
Example width_only_halfway :
  Resize.CalculateOutputSize 6 27
    {| Records.rsScale := F64.zero;
       Records.rsWidth := 13; Records.rsHeight := 0 |} = (13%Z, 58%Z)
  /\ FloatSem.is_tie (27 * 13) 6
  /\ FloatSem.round_ratio (27 * 13) 6 = 59%Z.
Proof. split; [vm_compute; reflexivity | split; reflexivity]. Qed.

(** C7.  With no resize request (scale, width and height all zero)
    [CalculateOutputSize] returns the source dimensions and [ResizeImage]
    returns the source image itself, without allocating or resampling.
    Whenever the computed dimensions equal those of the source,
    [ResizeImage] again returns the source image itself without any
    resampling; a scale of 1.0 is such a case for every picture whose
    sides are below [2^51]. *)
Theorem C7_no_op_resize :
  (forall srcWidth srcHeight spec,
      F64.eqb (Records.rsScale spec) F64.zero = true ->
      Records.rsWidth spec = 0%Z -> Records.rsHeight spec = 0%Z ->
      Resize.CalculateOutputSize srcWidth srcHeight spec = (srcWidth, srcHeight))
  /\ (forall w src spec,
         F64.eqb (Records.rsScale spec) F64.zero = true ->
         Records.rsWidth spec = 0%Z -> Records.rsHeight spec = 0%Z ->
         Resize.ResizeImage w src spec = (src, []))
  /\ (forall w src spec,
         Resize.CalculateOutputSizeFromImage src spec = (Env.Dx src, Env.Dy src) ->
         Resize.ResizeImage w src spec = (src, []))
  /\ (forall w src spec,
         (0 < Env.Dx src < 2 ^ 51)%Z -> (0 < Env.Dy src < 2 ^ 51)%Z ->
         Records.rsScale spec = PrimFloat.one ->
         Resize.ResizeImage w src spec = (src, [])).
Proof.
  split; [|split; [|split]].
  - exact CalculateOutputSize_no_request.
  - exact ResizeImage_no_request.
  - exact ResizeImage_same_size.
  - intros w src spec Hx Hy Hs. apply ResizeImage_same_size.
    unfold Resize.CalculateOutputSizeFromImage.
    now apply CalculateOutputSize_scale_one.
Qed.

Lemma C7_witness :
  F64.eqb (Records.rsScale Scenario.no_request) F64.zero = true
  /\ Records.rsWidth Scenario.no_request = 0%Z
  /\ Records.rsHeight Scenario.no_request = 0%Z
  /\ Resize.ResizeImage Scenario.world Scenario.picture Scenario.no_request
     = (Scenario.picture, [])
  /\ Resize.ResizeImage Scenario.world Scenario.picture Scenario.same_scale
     = (Scenario.picture, []).
Proof.
  split; [reflexivity|]. split; [reflexivity|]. split; [reflexivity|]. split.
  - apply (proj1 (proj2 C7_no_op_resize) Scenario.world Scenario.picture
                 Scenario.no_request); reflexivity.
  - apply (proj2 (proj2 (proj2 C7_no_op_resize)) Scenario.world
                 Scenario.picture Scenario.same_scale);
      [cbn; lia | cbn; lia | reflexivity].
Defined.

(** ** Validation of the configuration *)

Section CliFacts.
Import Types Records Env Converter.
Local Open Scope Z_scope.

Lemma set_Format_same config : Cli.set_Format config (Format config) = config.
Proof. destruct config; reflexivity. Qed.

(** The six spellings of the validator's table. *)
Lemma validFormats_cases fl :
  map_get [("jpeg", true); ("jpg", true); ("png", true);
           ("webp", true); ("gif", true); ("bmp", true)] fl = true ->
  fl = "jpeg" \/ fl = "jpg" \/ fl = "png" \/ fl = "webp" \/ fl = "gif"
  \/ fl = "bmp".
Proof.
  cbn [map_get]. rewrite !(String.eqb_sym _ fl).
  destruct (String.eqb_spec fl "jpeg"); [tauto|].
  destruct (String.eqb_spec fl "jpg"); [tauto|].
  destruct (String.eqb_spec fl "png"); [tauto|].
  destruct (String.eqb_spec fl "webp"); [tauto|].
  destruct (String.eqb_spec fl "gif"); [tauto|].
  destruct (String.eqb_spec fl "bmp"); [tauto|discriminate].
Qed.

(** A supported format is normalised to one of the five constants. *)
Lemma supported_normalize f :
  Format.IsFormatSupported f = true ->
  In (Format.NormalizeFormat f)
     [FormatJPEG; FormatPNG; FormatWebP; FormatGIF; FormatBMP].
Proof.
  unfold Format.IsFormatSupported, Format.NormalizeFormat. intros H.
  apply validFormats_cases in H.
  destruct H as [->|[->|[->|[->|[->| ->]]]]]; cbn; tauto.
Qed.

Lemma canonical_normalize f :
  In f [FormatJPEG; FormatPNG; FormatWebP; FormatGIF; FormatBMP] ->
  f <> "" /\ Format.IsFormatSupported f = true /\ Format.NormalizeFormat f = f.
Proof.
  cbn [In]. intros [<-|[<-|[<-|[<-|[<-|[]]]]]];
    (split; [discriminate | split; reflexivity]).
Qed.

Lemma quality_check q :
  (q <? 1) || (100 <? q) = false <-> 1 <= q <= 100.
Proof.
  split.
  - intros H. apply orb_false_elim in H. destruct H as [H1 H2].
    apply Z.ltb_ge in H1, H2. lia.
  - intros H. apply orb_false_intro; apply Z.ltb_ge; lia.
Qed.

(** When [ValidateConfig] accepts, and what it leaves behind. *)
Lemma ValidateConfig_ok config config' :
  Cli.ValidateConfig config = (config', None)
  <-> Cli.plain_checks config
      /\ ((Format config = "" /\ config' = config)
          \/ (Format config <> ""
              /\ Format.IsFormatSupported (Format config) = true
              /\ config'
                 = Cli.set_Format config
                     (Format.NormalizeFormat (Format config)))).
Proof.
  unfold Cli.ValidateConfig, Cli.plain_checks.
  destruct (String.eqb_spec (InputDir config) "") as [Hi|Hi];
    [split; [discriminate | intros [(H & _) _]; contradiction]|].
  destruct (String.eqb_spec (OutputDir config) "") as [Ho|Ho];
    [split; [discriminate | intros [(_ & H & _) _]; contradiction]|].
  cbv zeta.
  destruct (F64.ltb F64.zero (Scale config)
            && ((0 <? Width config) || (0 <? Height config))) eqn:Hboth;
    [split; [discriminate | intros [(_ & _ & H & _) _]; discriminate]|].
  destruct (F64.ltb (Scale config) F64.zero) eqn:Hneg;
    [split; [discriminate | intros [(_ & _ & _ & H & _) _]; discriminate]|].
  destruct (Z.ltb_spec (Width config) 0) as [Hw|Hw];
    [split; [discriminate | intros [(_ & _ & _ & _ & H & _) _]; lia]|].
  destruct (Z.ltb_spec (Height config) 0) as [Hh|Hh];
    [split; [discriminate | intros [(_ & _ & _ & _ & _ & H & _) _]; lia]|].
  destruct (String.eqb_spec (Format config) "") as [Hf|Hf]; cbn [negb].
  - destruct ((JPEGQuality config <? 1) || (100 <? JPEGQuality config)) eqn:Hq.
    + split; [discriminate|]. intros [(_ & _ & _ & _ & _ & _ & H) _].
      apply quality_check in H. congruence.
    + apply quality_check in Hq. split.
      * intros H. injection H as <-. split; [tauto|]. left. tauto.
      * intros [_ [[_ ->]|[H _]]]; [reflexivity | contradiction].
  - unfold Format.IsFormatSupported, Format.NormalizeFormat.
    destruct (map_get _ (GoStrings.ToLower (Format config))) eqn:Hm;
      cbn [negb].
    2:{ split; [discriminate|].
        intros [_ [[H _]|[_ [H _]]]]; [contradiction | discriminate]. }
    assert (Hset : forall f,
               JPEGQuality (Cli.set_Format config f) = JPEGQuality config)
      by reflexivity.
    destruct (String.eqb (GoStrings.ToLower (Format config)) "jpg");
      rewrite Hset;
      (destruct ((JPEGQuality config <? 1) || (100 <? JPEGQuality config))
         eqn:Hq;
       [ split; [discriminate|]; intros [(_ & _ & _ & _ & _ & _ & H) _];
         apply quality_check in H; congruence
       | apply quality_check in Hq; split;
         [ intros H; injection H as <-; split; [tauto|]; right; tauto
         | intros [_ [[H _]|[_ [_ ->]]]]; [contradiction | reflexivity] ] ]).
Qed.

(** An accepted configuration, field by field. *)
Lemma ValidateConfig_fields config config' :
  Cli.ValidateConfig config = (config', None) ->
  Cli.plain_checks config'
  /\ InputDir config' = InputDir config /\ OutputDir config' = OutputDir config
  /\ Scale config' = Scale config /\ Width config' = Width config
  /\ Height config' = Height config
  /\ JPEGQuality config' = JPEGQuality config
  /\ (Format config' = ""
      \/ In (Format config')
            [FormatJPEG; FormatPNG; FormatWebP; FormatGIF; FormatBMP]).
Proof.
  intros H. apply ValidateConfig_ok in H.
  destruct H as [Hp [[Hf ->]|(Hf & Hs & ->)]].
  - repeat split; try apply Hp. now left.
  - split; [exact Hp|]. repeat split. right. cbn [Cli.set_Format Format].
    now apply supported_normalize.
Qed.

(** What a rejection leaves behind. *)
Lemma ValidateConfig_rejects config config' err :
  Cli.ValidateConfig config = (config', Some err) ->
  config' = config
  \/ (err = "JPEG品質は1から100の範囲で指定してください"
      /\ Format config <> ""
      /\ Format.IsFormatSupported (Format config) = true
      /\ config'
         = Cli.set_Format config (Format.NormalizeFormat (Format config))
      /\ ~ 1 <= JPEGQuality config <= 100).
Proof.
  unfold Cli.ValidateConfig.
  destruct (String.eqb (InputDir config) "");
    [intros H; injection H as <- _; now left|].
  destruct (String.eqb (OutputDir config) "");
    [intros H; injection H as <- _; now left|].
  cbv zeta.
  destruct (F64.ltb F64.zero (Scale config)
            && ((0 <? Width config) || (0 <? Height config)));
    [intros H; injection H as <- _; now left|].
  destruct (F64.ltb (Scale config) F64.zero);
    [intros H; injection H as <- _; now left|].
  destruct (Width config <? 0); [intros H; injection H as <- _; now left|].
  destruct (Height config <? 0); [intros H; injection H as <- _; now left|].
  destruct (String.eqb_spec (Format config) "") as [Hf|Hf]; cbn [negb].
  - destruct ((JPEGQuality config <? 1) || (100 <? JPEGQuality config));
      intros H; [injection H as <- _; now left | discriminate H].
  - unfold Format.IsFormatSupported, Format.NormalizeFormat.
    destruct (map_get _ (GoStrings.ToLower (Format config))) eqn:Hm;
      cbn [negb]; [|intros H; injection H as <- _; now left].
    assert (Hset : forall f,
               JPEGQuality (Cli.set_Format config f) = JPEGQuality config)
      by reflexivity.
    destruct (String.eqb (GoStrings.ToLower (Format config)) "jpg");
      rewrite Hset;
      (destruct ((JPEGQuality config <? 1) || (100 <? JPEGQuality config))
         eqn:Hq; intros H; [|discriminate H];
       injection H as <- <-; right; repeat split; try assumption;
       intros Hr; apply quality_check in Hr; congruence).
Qed.

Lemma ParseArgs_ok flags config :
  Cli.ParseArgs flags = Ok config <-> Cli.ValidateConfig flags = (config, None).
Proof.
  unfold Cli.ParseArgs.
  destruct (Cli.ValidateConfig flags) as [c [e|]]; split; intros H;
    try discriminate H; congruence.
Qed.

(** The detector answers with one of the five constants. *)
Lemma DetectFormat_canonical path fmt :
  Format.DetectFormat path = Ok fmt ->
  In fmt [FormatJPEG; FormatPNG; FormatWebP; FormatGIF; FormatBMP].
Proof.
  unfold Format.DetectFormat.
  generalize (GoStrings.ToLower (Filepath.Ext path)); intro ext.
  repeat match goal with
         | |- context [String.eqb ext ?k] => destruct (String.eqb ext k)
         end; cbn [orb]; intros H; try discriminate H;
    injection H as <-; cbn; tauto.
Qed.

(** With one of the five formats the saver fails only in creating the
    file or in the encoder. *)
Lemma Save_supported_error w img path fmt quality e unknown :
  In fmt [FormatJPEG; FormatPNG; FormatWebP; FormatGIF; FormatBMP] ->
  fst (Save w img path fmt quality) = Some e ->
  e <> "unsupported output format: " ++ unknown.
Proof.
  unfold Save, bind, emit, ret.
  destruct (os_Create w path) as [x|].
  { intros _ H. cbn in H. injection H as <-. discriminate. }
  cbn [In]. intros [<-|[<-|[<-|[<-|[<-|[]]]]]]; cbn;
    unfold saveJPEG, savePNG, saveWebP, saveGIF, saveBMP, wrap_err;
    match goal with
    | |- context [match ?enc with _ => _ end] => destruct enc
    end; intros H; try discriminate H; injection H as <-; discriminate.
Qed.

(** With one of the five formats and the file created, the encoder of
    that format is called, once, with the quality handed over. *)
Lemma Save_supported_calls w img path fmt quality :
  In fmt [FormatJPEG; FormatPNG; FormatWebP; FormatGIF; FormatBMP] ->
  os_Create w path = None ->
  snd (Save w img path fmt quality)
  = [EvCreate path; EvEncode fmt path quality].
Proof.
  intros Hin Hc. unfold Save, bind, emit, ret. rewrite Hc.
  cbn [In] in Hin. destruct Hin as [<-|[<-|[<-|[<-|[<-|[]]]]]]; reflexivity.
Qed.

End CliFacts.

(** X1.  [ValidateConfig] returns no error exactly when both directories are
    named, a scale above zero does not come with a width or a height above
    zero, the scale is not below zero, width and height are not negative,
    the JPEG quality lies between 1 and 100, and the format is either
    empty or one that [IsFormatSupported] accepts.  It then leaves the
    configuration as it was, except that a format is replaced by what
    [NormalizeFormat] makes of it. *)
Theorem ValidateConfig_accepts (config config' : Records.Config) :
  Cli.ValidateConfig config = (config', None)
  <-> (Records.InputDir config <> "" /\ Records.OutputDir config <> ""
       /\ F64.ltb F64.zero (Records.Scale config)
          && ((0 <? Records.Width config) || (0 <? Records.Height config))%Z
          = false
       /\ F64.ltb (Records.Scale config) F64.zero = false
       /\ (0 <= Records.Width config)%Z /\ (0 <= Records.Height config)%Z
       /\ (1 <= Records.JPEGQuality config <= 100)%Z)
      /\ ((Records.Format config = "" /\ config' = config)
          \/ (Records.Format config <> ""
              /\ Format.IsFormatSupported (Records.Format config) = true
              /\ config'
                 = Cli.set_Format config
                     (Format.NormalizeFormat (Records.Format config)))).
Proof. exact (ValidateConfig_ok config config'). Qed.

Lemma ValidateConfig_accepts_witness :
  let config := {| Records.InputDir := "in"; Records.OutputDir := "out";
                   Records.Scale := 0.5%float; Records.Width := 0;
                   Records.Height := 0; Records.Format := "JPG";
                   Records.JPEGQuality := 85 |} in
  Cli.ValidateConfig config = (Cli.set_Format config "jpeg", None).
Proof.
  intros config.
  apply (proj2 (ValidateConfig_accepts config (Cli.set_Format config "jpeg"))).
  split.
  - repeat split; try discriminate; try reflexivity; cbn; lia.
  - right. split; [discriminate|]. split; reflexivity.
Defined.

(** X2.  A configuration that [ValidateConfig] has accepted is accepted again
    and is not changed any more: the format it holds is empty or one of
    the five constants. *)
Theorem ValidateConfig_idempotent (config config' : Records.Config) :
  Cli.ValidateConfig config = (config', None) ->
  Cli.ValidateConfig config' = (config', None)
  /\ (Records.Format config' = ""
      \/ In (Records.Format config')
            [Types.FormatJPEG; Types.FormatPNG; Types.FormatWebP;
             Types.FormatGIF; Types.FormatBMP]).
Proof.
  intros H. destruct (ValidateConfig_fields config config' H)
    as (Hp & _ & _ & _ & _ & _ & _ & Hf).
  split; [|exact Hf]. apply ValidateConfig_ok. split; [exact Hp|].
  destruct Hf as [Hf|Hf]; [left; tauto|].
  destruct (canonical_normalize _ Hf) as (Hne & Hs & Hn).
  right. split; [exact Hne|]. split; [exact Hs|].
  rewrite Hn. symmetry. apply set_Format_same.
Qed.

Lemma ValidateConfig_idempotent_witness :
  let config := {| Records.InputDir := "in"; Records.OutputDir := "out";
                   Records.Scale := F64.zero; Records.Width := 800;
                   Records.Height := 0; Records.Format := "PNG";
                   Records.JPEGQuality := 85 |} in
  Cli.ValidateConfig config = (Cli.set_Format config "png", None)
  /\ Cli.ValidateConfig (Cli.set_Format config "png")
     = (Cli.set_Format config "png", None).
Proof.
  intros config. split; [reflexivity|].
  apply (proj1 (ValidateConfig_idempotent config (Cli.set_Format config "png")
                  ltac:(reflexivity))).
Defined.

(** X3.  When [ValidateConfig] returns an error it has not touched the
    configuration, with one exception: the JPEG quality is checked after
    the format has been normalised, so a quality outside 1..100 is
    reported with the format already rewritten.  [ParseArgs] hands no
    configuration to its caller in either case. *)
Theorem ValidateConfig_rejection (config config' : Records.Config)
        (err : string) :
  Cli.ValidateConfig config = (config', Some err) ->
  Cli.ParseArgs config = Err err
  /\ (config' = config
      \/ (err = "JPEG品質は1から100の範囲で指定してください"
          /\ Records.Format config <> ""
          /\ Format.IsFormatSupported (Records.Format config) = true
          /\ config'
             = Cli.set_Format config
                 (Format.NormalizeFormat (Records.Format config))
          /\ ~ (1 <= Records.JPEGQuality config <= 100)%Z)).
Proof.
  intros H. split.
  - unfold Cli.ParseArgs. now rewrite H.
  - now apply ValidateConfig_rejects.
Qed.

Lemma ValidateConfig_rejection_witness :
  let config := {| Records.InputDir := "in"; Records.OutputDir := "out";
                   Records.Scale := F64.zero; Records.Width := 0;
                   Records.Height := 0; Records.Format := "JPG";
                   Records.JPEGQuality := 0 |} in
  Cli.ValidateConfig config
  = (Cli.set_Format config "jpeg",
     Some "JPEG品質は1から100の範囲で指定してください")
  /\ Cli.ParseArgs config
     = Err "JPEG品質は1から100の範囲で指定してください".
Proof.
  intros config. split; [reflexivity|].
  apply (proj1 (ValidateConfig_rejection config (Cli.set_Format config "jpeg")
                  _ ltac:(reflexivity))).
Defined.

(** X4.  A converter built from a configuration that [ParseArgs] returned
    never fails with the saver's "unsupported output format": the quality
    it hands to the saver is the configured one, between 1 and 100 (the
    default 85 for a quality of 0 is never taken), the format it resolves
    is one of the five constants, and once the output file is created the
    encoder of that format is called. *)
Theorem validated_config_converts (flags cfg : Records.Config)
        (st : Records.ConversionStats) (w : Env.World)
        (sourcePath outputDir : string) :
  Cli.ParseArgs flags = Ok cfg ->
  let c := {| Converter.config := cfg; Converter.stats := st |} in
  (Converter.quality_of c = Records.JPEGQuality cfg
   /\ (1 <= Records.JPEGQuality cfg <= 100)%Z)
  /\ (forall fmt,
         Converter.resolve_format c sourcePath = Ok fmt ->
         In fmt [Types.FormatJPEG; Types.FormatPNG; Types.FormatWebP;
                 Types.FormatGIF; Types.FormatBMP]
         /\ forall img path,
              Env.os_Create w path = None ->
              snd (Converter.Save w img path fmt (Converter.quality_of c))
              = [Env.EvCreate path;
                 Env.EvEncode fmt path (Records.JPEGQuality cfg)])
  /\ (forall unknown,
         Records.Error (fst (Converter.ConvertImage w c sourcePath outputDir))
         <> Some ("failed to save image: unsupported output format: "
                  ++ unknown)).
Proof.
  intros Hparse c. apply ParseArgs_ok in Hparse.
  destruct (ValidateConfig_fields flags cfg Hparse)
    as (Hp & _ & _ & _ & _ & _ & _ & Hf).
  assert (Hq : (1 <= Records.JPEGQuality cfg <= 100)%Z) by apply Hp.
  assert (Hquality : Converter.quality_of c = Records.JPEGQuality cfg).
  { unfold Converter.quality_of. cbn [Converter.config c].
    destruct (Z.eqb_spec (Records.JPEGQuality cfg) 0); [lia | reflexivity]. }
  assert (Hfmt : forall fmt,
             Converter.resolve_format c sourcePath = Ok fmt ->
             In fmt [Types.FormatJPEG; Types.FormatPNG; Types.FormatWebP;
                     Types.FormatGIF; Types.FormatBMP]).
  { intros fmt. unfold Converter.resolve_format. cbn [Converter.config c].
    destruct Hf as [Hf|Hf].
    - rewrite Hf. cbn [String.eqb negb]. apply DetectFormat_canonical.
    - destruct (canonical_normalize _ Hf) as (Hne & _ & Hn).
      apply String.eqb_neq in Hne. rewrite Hne, Hn. cbn [negb].
      intros H. injection H as <-. exact Hf. }
  split; [split; assumption|]. split.
  - intros fmt Hres. split; [now apply Hfmt|].
    intros img path Hc. rewrite Hquality.
    apply Save_supported_calls; [now apply Hfmt | exact Hc].
  - intros unknown Herr.
    destruct (ConvertImage_cases w c sourcePath outputDir)
      as [H|[H|[H|H]]]; cbv zeta in H.
    + destruct H as (e & _ & Hr). rewrite Hr in Herr. discriminate Herr.
    + destruct H as (img & e & _ & _ & Hr). rewrite Hr in Herr.
      discriminate Herr.
    + destruct H as (img & fmt & e & _ & Hres & Hsave & Hr).
      rewrite Hr in Herr. cbn in Herr. injection Herr as Herr.
      exact (Save_supported_error _ _ _ _ _ _ unknown (Hfmt fmt Hres)
               Hsave Herr).
    + destruct H as (img & fmt & _ & _ & _ & Hr). rewrite Hr in Herr.
      discriminate Herr.
Qed.

Lemma validated_config_converts_witness :
  let flags := {| Records.InputDir := "in"; Records.OutputDir := "out";
                  Records.Scale := 0.5%float; Records.Width := 0;
                  Records.Height := 0; Records.Format := "JPG";
                  Records.JPEGQuality := 70 |} in
  Cli.ParseArgs flags = Ok (Cli.set_Format flags "jpeg")
  /\ Converter.quality_of (Converter.NewConverter (Cli.set_Format flags "jpeg"))
     = 70%Z.
Proof.
  intros flags. split; [reflexivity|].
  apply (proj1 (proj1 (validated_config_converts flags
                         (Cli.set_Format flags "jpeg")
                         StatsOps.zero_stats Scenario.world "in/a.png" "out"
                         ltac:(reflexivity)))).
Defined.

(** ** More on the size rules *)

Section SizeRulesMore.
Import FloatSem Records Env Resize.
Local Open Scope R_scope.

(** A request with nothing above zero leaves the size alone. *)
Lemma CalculateOutputSize_nothing_positive srcWidth srcHeight spec :
  F64.ltb F64.zero (rsScale spec) = false ->
  (rsWidth spec <= 0)%Z -> (rsHeight spec <= 0)%Z ->
  CalculateOutputSize srcWidth srcHeight spec = (srcWidth, srcHeight).
Proof.
  intros Hs Hw Hh. unfold CalculateOutputSize. rewrite Hs.
  replace (0 <? rsWidth spec)%Z with false by (symmetry; apply Z.ltb_ge; lia).
  replace (0 <? rsHeight spec)%Z with false by (symmetry; apply Z.ltb_ge; lia).
  reflexivity.
Qed.

(** Scaling a length by a float within one rounding of the quotient of
    bound and length gives the bound. *)
Lemma dimension_hits_near a b s ms es :
  (0 < a < 2 ^ 51)%Z -> (0 < b < 2 ^ 51)%Z ->
  Prim2SF s = S754_finite false ms es ->
  normal_mantissa ms -> (-103 <= es <= -1)%Z ->
  IZR b / IZR a * (1 - u) <= F2R (Zpos ms) es <= IZR b / IZR a * (1 + u) ->
  F64.to_int (F64.Round (F64.mul (F64.of_int a) s)) = b.
Proof.
  intros Ha Hb Hs Hns Hes HS.
  destruct (mul_int_scale a s ms es Ha Hs Hns Hes) as (mp & ep & Hp & HP).
  apply (to_int_Round_near _ mp ep b Hp); [lia|].
  set (Q := F2R (Zpos ms) es) in *. set (P := F2R (Zpos mp) ep) in *.
  assert (HA : 1 <= IZR a) by (apply IZR_le; lia).
  assert (HB1 : 1 <= IZR b) by (apply IZR_le; lia).
  assert (HB2 : IZR b <= 2251799813685247) by (apply IZR_le; lia).
  assert (HAQ : IZR b * (1 - u) <= IZR a * Q <= IZR b * (1 + u)).
  { assert (H1 : IZR a * (IZR b / IZR a * (1 - u)) <= IZR a * Q)
      by (apply Rmult_le_compat_l; lra).
    assert (H2 : IZR a * Q <= IZR a * (IZR b / IZR a * (1 + u)))
      by (apply Rmult_le_compat_l; lra).
    replace (IZR a * (IZR b / IZR a * (1 - u))) with (IZR b * (1 - u)) in H1
      by (field; lra).
    replace (IZR a * (IZR b / IZR a * (1 + u))) with (IZR b * (1 + u)) in H2
      by (field; lra).
    lra. }
  rewrite u_value in *. set (T := IZR a * Q) in *. lra.
Qed.

(** Comparing two fractions of positive integers by cross products. *)
Lemma ratio_le a1 b1 a2 b2 :
  (0 < a1)%Z -> (0 < a2)%Z -> (b1 * a2 <= b2 * a1)%Z ->
  IZR b1 / IZR a1 <= IZR b2 / IZR a2.
Proof.
  intros H1 H2 H.
  assert (HA1 : 0 < IZR a1) by (apply IZR_lt; lia).
  assert (HA2 : 0 < IZR a2) by (apply IZR_lt; lia).
  apply IZR_le in H. rewrite !mult_IZR in H.
  assert (Hinv : 0 < / (IZR a1 * IZR a2))
    by (apply Rinv_0_lt_compat; nra).
  replace (IZR b1 / IZR a1) with (IZR b1 * IZR a2 * / (IZR a1 * IZR a2))
    by (field; lra).
  replace (IZR b2 / IZR a2) with (IZR b2 * IZR a1 * / (IZR a1 * IZR a2))
    by (field; lra).
  apply Rmult_le_compat_r; lra.
Qed.

(** In the fit of a box the side with the smaller quotient comes out as
    requested. *)
Lemma box_fit_tight a1 a2 b1 b2 :
  (0 < a1 < 2 ^ 51)%Z -> (0 < a2 < 2 ^ 51)%Z ->
  (0 < b1 < 2 ^ 51)%Z -> (0 < b2 < 2 ^ 51)%Z ->
  (b1 * a2 <= b2 * a1)%Z ->
  let scale := F64.Min (F64.div (F64.of_int b1) (F64.of_int a1))
                       (F64.div (F64.of_int b2) (F64.of_int a2)) in
  F64.to_int (F64.Round (F64.mul (F64.of_int a1) scale)) = b1.
Proof.
  intros Ha1 Ha2 Hb1 Hb2 Hle.
  destruct (div_of_ints a1 b1 Ha1 Hb1) as (m1 & e1 & Hq1 & Hn1 & He1 & HQ1).
  destruct (div_of_ints a2 b2 Ha2 Hb2) as (m2 & e2 & Hq2 & Hn2 & He2 & HQ2).
  cbv zeta.
  destruct (Min_normal _ _ m1 e1 m2 e2 Hq1 Hq2 Hn1 Hn2) as [[-> _]|[-> Hmin]].
  - apply dimension_hits; assumption.
  - apply (dimension_hits_near a1 b1 _ m2 e2 Ha1 Hb1 Hq2 Hn2 He2).
    pose proof (ratio_le a1 b1 a2 b2 ltac:(lia) ltac:(lia) Hle) as Hr.
    assert (Hu : 0 < 1 - u) by (rewrite u_value; lra).
    assert (IZR b1 / IZR a1 * (1 - u) <= IZR b2 / IZR a2 * (1 - u))
      by (apply Rmult_le_compat_r; lra).
    lra.
Qed.

(** The same for the second side. *)
Lemma box_fit_tight_second a1 a2 b1 b2 :
  (0 < a1 < 2 ^ 51)%Z -> (0 < a2 < 2 ^ 51)%Z ->
  (0 < b1 < 2 ^ 51)%Z -> (0 < b2 < 2 ^ 51)%Z ->
  (b2 * a1 <= b1 * a2)%Z ->
  let scale := F64.Min (F64.div (F64.of_int b1) (F64.of_int a1))
                       (F64.div (F64.of_int b2) (F64.of_int a2)) in
  F64.to_int (F64.Round (F64.mul (F64.of_int a2) scale)) = b2.
Proof.
  intros Ha1 Ha2 Hb1 Hb2 Hle.
  destruct (div_of_ints a1 b1 Ha1 Hb1) as (m1 & e1 & Hq1 & Hn1 & He1 & HQ1).
  destruct (div_of_ints a2 b2 Ha2 Hb2) as (m2 & e2 & Hq2 & Hn2 & He2 & HQ2).
  cbv zeta.
  destruct (Min_normal _ _ m1 e1 m2 e2 Hq1 Hq2 Hn1 Hn2) as [[-> Hmin]|[-> _]].
  - apply (dimension_hits_near a2 b2 _ m1 e1 Ha2 Hb2 Hq1 Hn1 He1).
    pose proof (ratio_le a2 b2 a1 b1 ltac:(lia) ltac:(lia) Hle) as Hr.
    assert (Hu : 0 < 1 - u) by (rewrite u_value; lra).
    assert (IZR b2 / IZR a2 * (1 - u) <= IZR b1 / IZR a1 * (1 - u))
      by (apply Rmult_le_compat_r; lra).
    lra.
  - apply dimension_hits; assumption.
Qed.

(** The conversion of a positive integer is above zero. *)
Lemma of_int_positive k :
  (0 < k < 2 ^ 51)%Z -> F64.ltb F64.zero (F64.of_int k) = true.
Proof.
  intros Hk. destruct (of_int_normal k Hk) as (m & e & Heq & _).
  unfold F64.ltb, F64.zero. rewrite ltb_spec, Heq. reflexivity.
Qed.

(** A length times a whole-numbered scale is exact. *)
Lemma scaled_by_integer a k :
  (0 < a)%Z -> (0 < k)%Z -> (a * k < 2 ^ 51)%Z ->
  F64.to_int (F64.Round (F64.mul (F64.of_int a) (F64.of_int k))) = (a * k)%Z.
Proof.
  intros Ha Hk Hak.
  assert (Ha' : (0 < a < 2 ^ 51)%Z) by nia.
  assert (Hk' : (0 < k < 2 ^ 51)%Z) by nia.
  destruct (of_int_normal k Hk') as (mk & ek & Hfk & Hnk & Hek & Hvk).
  destruct (mul_int_scale a _ mk ek Ha' Hfk Hnk ltac:(lia))
    as (m & e & Hp & HP).
  rewrite Hvk in HP.
  apply (to_int_Round_near _ m e (a * k) Hp); [nia|].
  rewrite mult_IZR.
  assert (H1 : 1 <= IZR a * IZR k).
  { rewrite <- mult_IZR. apply IZR_le. nia. }
  assert (H2 : IZR a * IZR k <= 2251799813685247).
  { rewrite <- mult_IZR. apply IZR_le. lia. }
  set (T := IZR a * IZR k) in *. rewrite u_value in HP. lra.
Qed.

End SizeRulesMore.

(** X5.  A resize request in which nothing is above zero (a zero, negative or
    NaN scale, and a width and a height that are zero or negative) counts
    as no request: [CalculateOutputSize] returns the source size and
    [ResizeImage] returns the source image itself without resampling. *)
Theorem non_positive_request_ignored (w : Env.World) (src : Env.Image)
        (srcWidth srcHeight : Z) (spec : Records.ResizeSpec) :
  F64.ltb F64.zero (Records.rsScale spec) = false ->
  (Records.rsWidth spec <= 0)%Z -> (Records.rsHeight spec <= 0)%Z ->
  Resize.CalculateOutputSize srcWidth srcHeight spec = (srcWidth, srcHeight)
  /\ Resize.ResizeImage w src spec = (src, []).
Proof.
  intros Hs Hw Hh. split.
  - now apply CalculateOutputSize_nothing_positive.
  - apply ResizeImage_same_size. unfold Resize.CalculateOutputSizeFromImage.
    now apply CalculateOutputSize_nothing_positive.
Qed.

Lemma non_positive_request_ignored_witness :
  let spec := {| Records.rsScale := PrimFloat.nan;
                 Records.rsWidth := -5; Records.rsHeight := 0 |} in
  Resize.ResizeImage Scenario.world Scenario.picture spec
  = (Scenario.picture, []).
Proof.
  intros spec.
  apply (proj2 (non_positive_request_ignored Scenario.world Scenario.picture
                  100 100 spec ltac:(reflexivity) ltac:(cbn; lia)
                  ltac:(cbn; lia))).
Defined.

(** X6.  Fitting a box, all four lengths between 1 and [2^51 - 1]: the side
    whose quotient requested / source is the smaller one comes out exactly
    as requested.  A box with the proportions of the source is therefore
    filled exactly. *)
Theorem box_fit_tight_side (srcWidth srcHeight : Z)
        (spec : Records.ResizeSpec) :
  (0 < srcWidth < 2 ^ 51)%Z -> (0 < srcHeight < 2 ^ 51)%Z ->
  (0 < Records.rsWidth spec < 2 ^ 51)%Z ->
  (0 < Records.rsHeight spec < 2 ^ 51)%Z ->
  F64.ltb F64.zero (Records.rsScale spec) = false ->
  let out := Resize.CalculateOutputSize srcWidth srcHeight spec in
  ((Records.rsWidth spec * srcHeight <= Records.rsHeight spec * srcWidth)%Z ->
   fst out = Records.rsWidth spec)
  /\ ((Records.rsHeight spec * srcWidth <= Records.rsWidth spec * srcHeight)%Z ->
      snd out = Records.rsHeight spec)
  /\ ((Records.rsWidth spec * srcHeight = Records.rsHeight spec * srcWidth)%Z ->
      out = (Records.rsWidth spec, Records.rsHeight spec)).
Proof.
  intros Hw Hh Hbw Hbh Hs. cbv zeta.
  unfold Resize.CalculateOutputSize. rewrite Hs.
  replace (0 <? Records.rsWidth spec)%Z with true
    by (symmetry; apply Z.ltb_lt; lia).
  replace (0 <? Records.rsHeight spec)%Z with true
    by (symmetry; apply Z.ltb_lt; lia).
  cbn [andb fst snd].
  split; [|split].
  - intros Hle. now apply box_fit_tight.
  - intros Hle. now apply box_fit_tight_second.
  - intros Heq. f_equal.
    + apply box_fit_tight; try assumption. lia.
    + apply box_fit_tight_second; try assumption. lia.
Qed.

Lemma box_fit_tight_side_witness :
  let spec := {| Records.rsScale := F64.zero;
                 Records.rsWidth := 640; Records.rsHeight := 360 |} in
  Resize.CalculateOutputSize 1920 1080 spec = (640%Z, 360%Z).
Proof.
  intros spec.
  apply (proj2 (proj2 (box_fit_tight_side 1920 1080 spec
                         ltac:(lia) ltac:(lia) ltac:(cbn; lia) ltac:(cbn; lia)
                         ltac:(reflexivity)))).
  reflexivity.
Defined.

(** X7.  A scale that is a whole number [k], with [k] times either side below
    [2^51], multiplies both sides by [k] exactly. *)
Theorem integer_scale_exact (srcWidth srcHeight k : Z)
        (spec : Records.ResizeSpec) :
  (0 < k)%Z -> (0 < srcWidth)%Z -> (0 < srcHeight)%Z ->
  (srcWidth * k < 2 ^ 51)%Z -> (srcHeight * k < 2 ^ 51)%Z ->
  Records.rsScale spec = F64.of_int k ->
  Resize.CalculateOutputSize srcWidth srcHeight spec
  = ((srcWidth * k)%Z, (srcHeight * k)%Z).
Proof.
  intros Hk Hw Hh Hwk Hhk Hs. unfold Resize.CalculateOutputSize.
  rewrite Hs, of_int_positive by nia.
  now rewrite !scaled_by_integer.
Qed.

Lemma integer_scale_exact_witness :
  let spec := {| Records.rsScale := 3%float;
                 Records.rsWidth := 0; Records.rsHeight := 0 |} in
  Resize.CalculateOutputSize 640 480 spec = (1920%Z, 1440%Z).
Proof.
  intros spec.
  apply (integer_scale_exact 640 480 3 spec); try lia. reflexivity.
Defined.



(** ** More on paths: a plain name under a directory *)

Section PathFactsMore.
Import Types Format.

Lemma ext_scan_before_sep l r acc :
  Filepath.sep_free l = true ->
  Filepath.ext_scan (l ++ Filepath.Separator :: r) acc
  = Filepath.ext_scan l acc.
Proof.
  revert acc. induction l as [|c l IH]; intros acc H; [reflexivity|].
  cbn [Filepath.sep_free forallb] in H. apply andb_prop in H.
  destruct H as [Hc Hl]. apply negb_true_iff in Hc.
  cbn [app Filepath.ext_scan]. rewrite Hc.
  destruct (Ascii.eqb c "."%char); [reflexivity | now apply IH].
Qed.

Lemma rev_chars_under pre name :
  rev (Filepath.chars (pre ++ String Filepath.Separator name))
  = (rev (Filepath.chars name)
     ++ Filepath.Separator :: rev (Filepath.chars pre))%list.
Proof.
  rewrite chars_app, rev_app_distr.
  change (Filepath.chars (String Filepath.Separator name))
    with (Filepath.Separator :: Filepath.chars name).
  cbn [rev]. now rewrite <- app_assoc.
Qed.

Lemma Ext_under_dir pre name :
  Filepath.sep_free (Filepath.chars name) = true ->
  Filepath.Ext (pre ++ String Filepath.Separator name) = Filepath.Ext name.
Proof.
  intros H. unfold Filepath.Ext. rewrite rev_chars_under.
  now rewrite ext_scan_before_sep by now rewrite sep_free_rev.
Qed.

Lemma last_elem_before_sep l r acc :
  Filepath.sep_free l = true ->
  Filepath.last_elem (l ++ Filepath.Separator :: r) acc = (rev l ++ acc)%list.
Proof.
  revert acc. induction l as [|c l IH]; intros acc H; [reflexivity|].
  cbn [Filepath.sep_free forallb] in H. apply andb_prop in H.
  destruct H as [Hc Hl]. apply negb_true_iff in Hc.
  cbn [app Filepath.last_elem rev]. rewrite Hc, (IH _ Hl).
  now rewrite <- app_assoc.
Qed.

Lemma last_elem_all l acc :
  Filepath.sep_free l = true ->
  Filepath.last_elem l acc = (rev l ++ acc)%list.
Proof.
  revert acc. induction l as [|c l IH]; intros acc H; [reflexivity|].
  cbn [Filepath.sep_free forallb] in H. apply andb_prop in H.
  destruct H as [Hc Hl]. apply negb_true_iff in Hc.
  cbn [Filepath.last_elem rev]. rewrite Hc, (IH _ Hl).
  now rewrite <- app_assoc.
Qed.

Lemma strip_seps_sep_free l :
  Filepath.sep_free l = true -> forall r, Filepath.strip_seps (l ++ r)
                                          = match l with
                                            | [] => Filepath.strip_seps r
                                            | _ => (l ++ r)%list
                                            end.
Proof.
  intros H r. destruct l as [|c l]; [reflexivity|].
  cbn [Filepath.sep_free forallb] in H. apply andb_prop in H.
  destruct H as [Hc _]. apply negb_true_iff in Hc.
  cbn [app Filepath.strip_seps]. now rewrite Hc.
Qed.

Lemma Base_under_dir pre name :
  Filepath.sep_free (Filepath.chars name) = true -> name <> "" ->
  Filepath.Base (pre ++ String Filepath.Separator name) = name.
Proof.
  intros Hsf Hne. unfold Filepath.Base.
  assert (Hpath : pre ++ String Filepath.Separator name <> "")
    by (destruct pre; discriminate).
  destruct (pre ++ String Filepath.Separator name) as [|c p] eqn:E;
    [contradiction|].
  rewrite <- E, rev_chars_under.
  assert (Hrev : Filepath.sep_free (rev (Filepath.chars name)) = true)
    by now rewrite sep_free_rev.
  rewrite (strip_seps_sep_free _ Hrev).
  destruct (rev (Filepath.chars name)) as [|x l] eqn:Hr.
  { exfalso. apply Hne. apply (f_equal (@rev ascii)) in Hr.
    rewrite rev_involutive in Hr. cbn in Hr.
    rewrite <- (str_chars name), Hr. reflexivity. }
  rewrite (last_elem_before_sep _ _ _ Hrev), app_nil_r, <- Hr, rev_involutive.
  destruct (Filepath.chars name) as [|y n] eqn:Hn; [discriminate Hr|].
  rewrite <- Hn. apply str_chars.
Qed.

Lemma Base_plain name :
  Filepath.sep_free (Filepath.chars name) = true -> name <> "" ->
  Filepath.Base name = name.
Proof.
  intros Hsf Hne. unfold Filepath.Base.
  destruct name as [|c p] eqn:E; [contradiction|]. rewrite <- E in *.
  assert (Hrev : Filepath.sep_free (rev (Filepath.chars name)) = true)
    by now rewrite sep_free_rev.
  pose proof (strip_seps_sep_free _ Hrev []) as Hs.
  rewrite app_nil_r in Hs. rewrite Hs.
  destruct (rev (Filepath.chars name)) as [|x l] eqn:Hr.
  { exfalso. apply Hne. apply (f_equal (@rev ascii)) in Hr.
    rewrite rev_involutive in Hr. cbn in Hr.
    rewrite <- (str_chars name), Hr. reflexivity. }
  rewrite (last_elem_all _ _ Hrev), app_nil_r, <- Hr, rev_involutive.
  destruct (Filepath.chars name) as [|y n] eqn:Hn; [discriminate Hr|].
  rewrite <- Hn. apply str_chars.
Qed.

Lemma plain_name_facts name :
  Filepath.plain_name name = true ->
  Filepath.sep_free (Filepath.chars name) = true /\ name <> "".
Proof.
  unfold Filepath.plain_name. intros H.
  repeat (apply andb_prop in H; destruct H as [H ?]).
  split; [assumption|]. apply String.eqb_neq. now apply negb_true_iff.
Qed.

(** [Clean] leaves a plain name alone. *)
Lemma Clean_plain name :
  Filepath.plain_name name = true -> Filepath.Clean name = name.
Proof.
  intros Hn. destruct (plain_name_chars name Hn) as (Hsf & Hx1 & Hx2 & Hx3).
  unfold Filepath.Clean.
  destruct (Filepath.chars name) as [|c l] eqn:Hc; [discriminate Hx1|].
  assert (Hroot : Filepath.IsPathSeparator c = false).
  { cbn [Filepath.sep_free forallb] in Hsf. apply andb_prop in Hsf.
    destruct Hsf as [H _]. now apply negb_true_iff in H. }
  rewrite Hroot, (split_seps_sep_free _ [] Hsf). cbn [rev app].
  cbn [Filepath.clean_elems]. rewrite Hx1, Hx2, Hx3. cbn [orb rev app].
  cbn [Filepath.join_elems]. rewrite <- Hc. apply str_chars.
Qed.

(** [Join] of a directory and a plain name. *)
Lemma Join_plain d name :
  Filepath.plain_name name = true ->
  Filepath.Join [d; name]
  = if String.eqb d "" then name
    else Filepath.under (Filepath.Clean d) name.
Proof.
  intros Hn. destruct (String.eqb_spec d "") as [->|Hd].
  - unfold Filepath.Join. cbn [filter String.eqb negb].
    destruct (plain_name_facts name Hn) as [_ Hne].
    apply String.eqb_neq in Hne. rewrite Hne. cbn [negb String.concat].
    now apply Clean_plain.
  - now apply Join_dir_name.
Qed.

(** The joined path ends in the name, after a separator if anything comes
    before it. *)
Lemma Join_plain_shape d name :
  Filepath.plain_name name = true ->
  Filepath.Join [d; name] = name
  \/ exists pre, Filepath.Join [d; name]
                 = pre ++ String Filepath.Separator name.
Proof.
  intros Hn. rewrite (Join_plain d name Hn).
  destruct (String.eqb d ""); [now left|]. unfold Filepath.under.
  destruct (String.eqb (Filepath.Clean d) (String Filepath.Separator ""));
    [right; now exists ""|].
  destruct (String.eqb (Filepath.Clean d) "."); [now left|].
  right. now exists (Filepath.Clean d).
Qed.

Lemma Base_Join_plain d name :
  Filepath.plain_name name = true ->
  Filepath.Base (Filepath.Join [d; name]) = name.
Proof.
  intros Hn. destruct (plain_name_facts name Hn) as [Hsf Hne].
  destruct (Join_plain_shape d name Hn) as [->|[pre ->]].
  - now apply Base_plain.
  - now apply Base_under_dir.
Qed.

Lemma Ext_Join_plain d name :
  Filepath.plain_name name = true ->
  Filepath.Ext (Filepath.Join [d; name]) = Filepath.Ext name.
Proof.
  intros Hn. destruct (plain_name_facts name Hn) as [Hsf Hne].
  destruct (Join_plain_shape d name Hn) as [->|[pre ->]].
  - reflexivity.
  - now apply Ext_under_dir.
Qed.

Lemma forallb_rev {A} (f : A -> bool) l : forallb f (rev l) = forallb f l.
Proof.
  induction l as [|x l IH]; [reflexivity|].
  cbn [rev forallb]. rewrite forallb_app, IH. cbn. rewrite andb_true_r.
  apply andb_comm.
Qed.

Lemma Ext_dot_tail s e :
  Names.ext_tail e = true ->
  Filepath.Ext (s ++ String "."%char e) = String "."%char e.
Proof.
  intros H. apply Ext_append_extension. now rewrite forallb_rev.
Qed.

Lemma lower_byte_keeps c :
  negb (Filepath.IsPathSeparator (GoStrings.lower_byte c))
  && negb (Ascii.eqb (GoStrings.lower_byte c) "."%char)
  = negb (Filepath.IsPathSeparator c) && negb (Ascii.eqb c "."%char).
Proof.
  destruct c as [[] [] [] [] [] [] [] []]; vm_compute; reflexivity.
Qed.

Lemma ext_tail_ToLower e :
  Names.ext_tail (GoStrings.ToLower e) = Names.ext_tail e.
Proof.
  unfold Names.ext_tail, Filepath.chars.
  induction e as [|c e IH]; [reflexivity|].
  cbn [GoStrings.ToLower list_ascii_of_string forallb].
  now rewrite lower_byte_keeps, IH.
Qed.

(** The stem of a name with a last dot. *)
Lemma GenerateOutputFilename_stem inputPath stem e fmt :
  Filepath.Base inputPath = stem ++ String "."%char e ->
  Names.ext_tail e = true ->
  GenerateOutputFilename inputPath fmt = stem ++ newExt fmt.
Proof.
  intros Hb He. unfold GenerateOutputFilename.
  now rewrite Hb, (Ext_dot_tail stem e He), TrimSuffix_append.
Qed.

(** The output name detects as the format it was made for. *)
Lemma DetectFormat_newExt path fmt :
  In fmt [FormatJPEG; FormatPNG; FormatWebP; FormatGIF; FormatBMP] ->
  Filepath.Ext path = newExt fmt ->
  DetectFormat path = Ok fmt.
Proof.
  intros Hin He. unfold DetectFormat. rewrite He.
  cbn [In] in Hin. destruct Hin as [<-|[<-|[<-|[<-|[<-|[]]]]]]; reflexivity.
Qed.

Lemma GenerateOutputFilename_again inputPath d fmt :
  Filepath.Base inputPath <> String Filepath.Separator "" ->
  GenerateOutputFilename
    (Filepath.Join [d; GenerateOutputFilename inputPath fmt]) fmt
  = GenerateOutputFilename inputPath fmt.
Proof.
  intros Hb.
  pose proof (GenerateOutputFilename_plain inputPath fmt Hb) as Hplain.
  unfold GenerateOutputFilename at 1.
  rewrite (Base_Join_plain d _ Hplain).
  unfold GenerateOutputFilename.
  now rewrite Ext_append_newExt, TrimSuffix_append.
Qed.

End PathFactsMore.

(** X9.  The output name keeps the stem of the source's name and nothing else
    of it: two sources whose names differ only after the last dot, in
    whatever directories they lie, are given the same output path for the
    same format.  [photo.jpg] and [photo.jpeg] both go to [photo.jpg]. *)
Theorem output_name_forgets_extension
        (dir1 dir2 stem e1 e2 outputDir : string) (fmt : Types.ImageFormat) :
  Filepath.plain_name (stem ++ String "."%char e1) = true ->
  Filepath.plain_name (stem ++ String "."%char e2) = true ->
  Names.ext_tail e1 = true -> Names.ext_tail e2 = true ->
  Format.GenerateOutputFilename
    (Filepath.Join [dir1; stem ++ String "."%char e1]) fmt
  = stem ++ Format.newExt fmt
  /\ Format.GenerateOutputPath
       (Filepath.Join [dir1; stem ++ String "."%char e1]) outputDir fmt
     = Format.GenerateOutputPath
         (Filepath.Join [dir2; stem ++ String "."%char e2]) outputDir fmt.
Proof.
  intros Hp1 Hp2 He1 He2.
  assert (H1 : Format.GenerateOutputFilename
                 (Filepath.Join [dir1; stem ++ String "."%char e1]) fmt
               = stem ++ Format.newExt fmt).
  { apply (GenerateOutputFilename_stem _ stem e1);
      [now apply Base_Join_plain | exact He1]. }
  assert (H2 : Format.GenerateOutputFilename
                 (Filepath.Join [dir2; stem ++ String "."%char e2]) fmt
               = stem ++ Format.newExt fmt).
  { apply (GenerateOutputFilename_stem _ stem e2);
      [now apply Base_Join_plain | exact He2]. }
  split; [exact H1|]. unfold Format.GenerateOutputPath. now rewrite H1, H2.
Qed.

Lemma output_name_forgets_extension_witness :
  Format.GenerateOutputPath (Filepath.Join ["in"; "photo.jpg"]) "out"
                            Types.FormatJPEG
  = Format.GenerateOutputPath (Filepath.Join ["in"; "photo.jpeg"]) "out"
                              Types.FormatJPEG
  /\ Format.DetectFormat "in/photo.jpg" = Format.DetectFormat "in/photo.jpeg".
Proof.
  split; [|reflexivity].
  apply (proj2 (output_name_forgets_extension "in" "in" "photo" "jpg" "jpeg"
                  "out" Types.FormatJPEG ltac:(reflexivity)
                  ltac:(reflexivity) ltac:(reflexivity) ltac:(reflexivity))).
Defined.

(** X10.  For each of the five formats the output path is one that
    [DetectFormat] reads back as that format and that [IsImageFile]
    accepts; generating the output path of an output path, for the same
    directory and format, gives the same path again. *)
Theorem output_path_round_trip (inputPath outputDir : string)
        (fmt : Types.ImageFormat) :
  In fmt [Types.FormatJPEG; Types.FormatPNG; Types.FormatWebP;
          Types.FormatGIF; Types.FormatBMP] ->
  Filepath.Base inputPath <> String Filepath.Separator "" ->
  let p := Format.GenerateOutputPath inputPath outputDir fmt in
  Format.DetectFormat p = Ok fmt
  /\ Filesystem.IsImageFile p = true
  /\ Format.GenerateOutputPath p outputDir fmt = p.
Proof.
  intros Hin Hb p.
  pose proof (GenerateOutputFilename_plain inputPath fmt Hb) as Hplain.
  assert (Hd : Format.DetectFormat p = Ok fmt).
  { apply DetectFormat_newExt; [exact Hin|].
    subst p. unfold Format.GenerateOutputPath.
    rewrite (Ext_Join_plain _ _ Hplain).
    unfold Format.GenerateOutputFilename. apply Ext_append_newExt. }
  split; [exact Hd|]. split.
  - now rewrite IsImageFile_is_DetectFormat_ok, Hd.
  - subst p. unfold Format.GenerateOutputPath.
    now rewrite (GenerateOutputFilename_again inputPath outputDir fmt Hb).
Qed.

Lemma output_path_round_trip_witness :
  Format.DetectFormat
    (Format.GenerateOutputPath "in/photo.JPEG" "out" Types.FormatWebP)
  = Ok Types.FormatWebP.
Proof.
  apply (proj1 (output_path_round_trip "in/photo.JPEG" "out" Types.FormatWebP
                  ltac:(cbn; tauto) ltac:(discriminate))).
Defined.

(** X11.  [DetectFormat] and [IsImageFile] look at nothing but the part of the
    name after its last dot, whatever the case of its letters: the
    directory a plain name is joined to makes no difference, and neither
    does anything before the last dot. *)
Theorem detection_by_extension_only :
  (forall d name,
      Filepath.plain_name name = true ->
      Format.DetectFormat (Filepath.Join [d; name]) = Format.DetectFormat name
      /\ Filesystem.IsImageFile (Filepath.Join [d; name])
         = Filesystem.IsImageFile name)
  /\ (forall s e,
         Names.ext_tail e = true ->
         Format.DetectFormat (s ++ String "."%char e)
         = Format.DetectFormat (String "."%char (GoStrings.ToLower e))
         /\ Filesystem.IsImageFile (s ++ String "."%char e)
            = Filesystem.IsImageFile (String "."%char (GoStrings.ToLower e))).
Proof.
  split.
  - intros d name Hn. unfold Format.DetectFormat, Filesystem.IsImageFile.
    now rewrite (Ext_Join_plain d name Hn).
  - intros s e He.
    assert (H : Format.DetectFormat (s ++ String "."%char e)
                = Format.DetectFormat
                    (String "."%char (GoStrings.ToLower e))).
    { unfold Format.DetectFormat. rewrite (Ext_dot_tail s e He).
      pose proof (Ext_dot_tail "" (GoStrings.ToLower e)) as H.
      cbn [append] in H. rewrite H by now rewrite ext_tail_ToLower.
      cbn [GoStrings.ToLower]. rewrite ToLower_idem. reflexivity. }
    split; [exact H|]. now rewrite !IsImageFile_is_DetectFormat_ok, H.
Qed.

Lemma detection_by_extension_only_witness :
  Format.DetectFormat (Filepath.Join ["archive.png"; "Holiday.Snap.JPeG"])
  = Ok Types.FormatJPEG.
Proof.
  rewrite (proj1 (proj1 detection_by_extension_only "archive.png"
                        "Holiday.Snap.JPeG" ltac:(reflexivity))).
  reflexivity.
Defined.

(** ** The saver and the output file *)

Section SaverFacts.
Import Types Records Env Converter.

Lemma Save_unsupported_exact w img path fmt quality :
  Format.newExt fmt = ".jpg" -> fmt <> FormatJPEG ->
  os_Create w path = None ->
  Save w img path fmt quality
  = (Some ("unsupported output format: " ++ fmt), [EvCreate path]).
Proof.
  intros Hext Hne Hc. unfold Save, bind, emit, ret. rewrite Hc.
  unfold Format.newExt in Hext.
  apply String.eqb_neq in Hne. rewrite Hne in *.
  repeat match goal with
         | H : context [String.eqb fmt ?k] |- _ =>
             destruct (String.eqb fmt k); [discriminate H|]
         end.
  reflexivity.
Qed.

Lemma IsFormatSupported_NormalizeFormat f :
  Format.IsFormatSupported (Format.NormalizeFormat f)
  = Format.IsFormatSupported f.
Proof.
  unfold Format.IsFormatSupported, Format.NormalizeFormat.
  destruct (String.eqb_spec (GoStrings.ToLower f) "jpg") as [E|E].
  - rewrite E. reflexivity.
  - now rewrite ToLower_idem.
Qed.

Lemma NormalizeFormat_idem f :
  Format.NormalizeFormat (Format.NormalizeFormat f) = Format.NormalizeFormat f.
Proof.
  unfold Format.NormalizeFormat at 2 3.
  destruct (String.eqb (GoStrings.ToLower f) "jpg") eqn:E; [reflexivity|].
  rewrite NormalizeFormat_ToLower. unfold Format.NormalizeFormat.
  now rewrite E.
Qed.








End SaverFacts.

(** X12.  [IsFormatSupported] is the test for what the saver can write.  With
    the output file created, [Save] given the normalised form of a
    supported format calls the encoder, and given the normalised form of
    any other string it fails with "unsupported output format" and leaves
    the created file behind.  Normalising is idempotent and does not
    change whether a format is supported. *)
Theorem supported_format_is_saved (w : Env.World) (img : Env.Image)
        (path f : string) (quality : Z) :
  Env.os_Create w path = None ->
  (Format.IsFormatSupported f = true ->
   snd (Converter.Save w img path (Format.NormalizeFormat f) quality)
   = [Env.EvCreate path;
      Env.EvEncode (Format.NormalizeFormat f) path quality])
  /\ (Format.IsFormatSupported f = false ->
      Converter.Save w img path (Format.NormalizeFormat f) quality
      = (Some ("unsupported output format: " ++ GoStrings.ToLower f),
         [Env.EvCreate path]))
  /\ Format.IsFormatSupported (Format.NormalizeFormat f)
     = Format.IsFormatSupported f
  /\ Format.NormalizeFormat (Format.NormalizeFormat f)
     = Format.NormalizeFormat f.
Proof.
  intros Hc. split; [|split; [|split]].
  - intros Hs. apply Save_supported_calls; [|exact Hc].
    now apply supported_normalize.
  - intros Hs. destruct (unsupported_normalize f Hs) as (Hn & Hext & Hne).
    rewrite <- Hn. now apply Save_unsupported_exact.
  - apply IsFormatSupported_NormalizeFormat.
  - apply NormalizeFormat_idem.
Qed.

Lemma supported_format_is_saved_witness :
  snd (Converter.Save Scenario.world Scenario.picture "out/a.jpg"
                      (Format.NormalizeFormat "JPG") 85)
  = [Env.EvCreate "out/a.jpg"; Env.EvEncode "jpeg" "out/a.jpg" 85]
  /\ fst (Converter.Save Scenario.world Scenario.picture "out/a.jpg"
                         (Format.NormalizeFormat "TIFF") 85)
     = Some "unsupported output format: tiff".
Proof.
  split.
  - apply (proj1 (supported_format_is_saved Scenario.world Scenario.picture
                    "out/a.jpg" "JPG" 85 ltac:(reflexivity))).
    reflexivity.
  - reflexivity.
Defined.



(** ** The file system manager *)

Section FileSystemManagerFacts.
Import Os FileSystemManager.
Local Open Scope list_scope.

Lemma scan_loop path entries files :
  fold_left
    (fun files entry =>
       if negb (IsDir entry)
       then files ++ [Filepath.Join [path; Name entry]]
       else files)
    entries files
  = files ++ map (fun entry => Filepath.Join [path; Name entry])
                 (filter (fun entry => negb (IsDir entry)) entries).
Proof.
  revert files. induction entries as [|entry entries IH]; intros files.
  - cbn. now rewrite app_nil_r.
  - cbn [fold_left filter]. rewrite IH.
    destruct (negb (IsDir entry)); [|reflexivity].
    cbn [map]. now rewrite <- app_assoc.
Qed.

Lemma scan_entries_spec path entries :
  scan_entries path entries
  = map (fun entry => Filepath.Join [path; Name entry])
        (filter (fun entry => negb (IsDir entry)) entries).
Proof. unfold scan_entries. now rewrite scan_loop. Qed.

Lemma ScanDirectory_ok os path entries :
  ReadDir os path = Ok entries ->
  ScanDirectory os path = (Ok (scan_entries path entries), [CReadDir path]).
Proof. intros H. unfold ScanDirectory, bind, call, ret. now rewrite H. Qed.

Lemma ScanDirectory_err os path e :
  ReadDir os path = Err e ->
  ScanDirectory os path
  = (Err ("failed to read directory: " ++ e), [CReadDir path]).
Proof. intros H. unfold ScanDirectory, bind, call, ret. now rewrite H. Qed.





End FileSystemManagerFacts.

(** X15.  [ScanDirectory] reads the directory once and changes nothing.  It
    returns one path per entry that is not a directory, in the order of
    the entries; the base name of each path is the entry's name, so that
    the classifier judges the path as it judges the name.  An error of
    [os.ReadDir] comes back as "failed to read directory". *)
Theorem ScanDirectory_names (os : Os.FS) (path : string)
        (entries : list Os.DirEntry) :
  Os.ReadDir os path = Ok entries ->
  (forall entry, In entry entries ->
                 Filepath.plain_name (Os.Name entry) = true) ->
  exists files,
    FileSystemManager.ScanDirectory os path = (Ok files, [Os.CReadDir path])
    /\ map Filepath.Base files
       = map Os.Name (filter (fun entry => negb (Os.IsDir entry)) entries)
    /\ map Filesystem.IsImageFile files
       = map (fun entry => Filesystem.IsImageFile (Os.Name entry))
             (filter (fun entry => negb (Os.IsDir entry)) entries).
Proof.
  intros Hread Hplain. exists (FileSystemManager.scan_entries path entries).
  split; [now apply ScanDirectory_ok|].
  rewrite scan_entries_spec, !map_map.
  split; apply map_ext_in; intros entry Hin; apply filter_In in Hin;
    destruct Hin as [Hin _].
  - apply Base_Join_plain. now apply Hplain.
  - unfold Filesystem.IsImageFile.
    now rewrite (Ext_Join_plain path _ (Hplain entry Hin)).
Qed.

Lemma ScanDirectory_names_witness :
  let os := {| Os.Stat := fun _ => Os.StatInfo true;
               Os.MkdirAll := fun _ _ => None;
               Os.ReadDir := fun _ =>
                 Ok [ {| Os.Name := "a.png"; Os.IsDir := false |};
                      {| Os.Name := "old"; Os.IsDir := true |};
                      {| Os.Name := "b.txt"; Os.IsDir := false |} ];
               Os.WriteFile := fun _ _ _ => None;
               Os.Remove := fun _ => None |} in
  exists files,
    FileSystemManager.ScanDirectory os "in/" = (Ok files, [Os.CReadDir "in/"])
    /\ map Filepath.Base files = ["a.png"; "b.txt"].
Proof.
  intros os.
  destruct (ScanDirectory_names os "in/" _ eq_refl) as (files & H1 & H2 & _).
  - intros entry [<-|[<-|[<-|[]]]]; reflexivity.
  - exists files. split; [exact H1 | exact H2].
Defined.



(** X17.  When the directory cannot be read, [ProcessDirectory] run with the
    file system manager returns the error of [os.ReadDir] wrapped twice,
    leaves the converter as it was and starts no conversion. *)
Theorem ProcessDirectory_scan_error
        (os : Os.FS) (w : Env.World) (numWorkers : Z)
        (outputDir inputDir e : string) (c : Converter.ConverterT) :
  Os.ReadDir os inputDir = Err e ->
  (forall err c' p,
      Converter.ProcessDirectory w numWorkers outputDir c inputDir
        (FileSystemManager.scanner os) err c' p ->
      err = Some ("failed to scan directory: failed to read directory: "
                  ++ e)
      /\ c' = c
      /\ Converter.workers p = []
      /\ Converter.invoked p = []
      /\ Converter.calls p = [])
  /\ (exists err c' p,
         Converter.ProcessDirectory w numWorkers outputDir c inputDir
           (FileSystemManager.scanner os) err c' p).
Proof.
  intros Hread.
  assert (Hscan : Converter.ScanDirectory (FileSystemManager.scanner os)
                    inputDir
                  = Err ("failed to read directory: " ++ e)).
  { cbn [FileSystemManager.scanner Converter.ScanDirectory].
    now rewrite (ScanDirectory_err os inputDir e Hread). }
  split.
  - intros err c' p Hrun.
    destruct Hrun as [e' He' | files imageFiles c1 p Hscan' _ _ _].
    + rewrite Hscan in He'. injection He' as <-. repeat split.
    + rewrite Hscan in Hscan'. discriminate Hscan'.
  - do 3 eexists. apply Converter.pd_scan_error. exact Hscan.
Qed.

Lemma ProcessDirectory_scan_error_witness :
  let os := {| Os.Stat := fun _ => Os.StatErr true "no such file or directory";
               Os.MkdirAll := fun _ _ => None;
               Os.ReadDir := fun _ => Err "no such file or directory";
               Os.WriteFile := fun _ _ _ => None;
               Os.Remove := fun _ => None |} in
  exists err c' p,
    Converter.ProcessDirectory Scenario.world 4 "out"
      (Converter.NewConverter Scenario.cfg) "in"
      (FileSystemManager.scanner os) err c' p
    /\ err = Some "failed to scan directory: failed to read directory: no such file or directory".
Proof.
  intros os.
  destruct (ProcessDirectory_scan_error os Scenario.world 4 "out" "in"
              "no such file or directory"
              (Converter.NewConverter Scenario.cfg) eq_refl)
    as [Hfacts (err & c' & p & Hrun)].
  exists err, c', p. split; [exact Hrun|].
  exact (proj1 (Hfacts err c' p Hrun)).
Defined.

(** X18.  [ValidateInputDirectory] only looks: it asks [os.Stat] and, when that
    reports a directory, [os.ReadDir], and never changes the file system.
    It returns no error exactly when [os.Stat] reports a directory and
    [os.ReadDir] succeeds.  A path that exists but is no directory is
    reported in the same words as a missing one, "input directory does not
    exist"; any other error of [os.Stat] ends the check before
    [os.ReadDir] is tried. *)
Theorem ValidateInputDirectory_checks (os : Os.FS) (path : string) :
  let err := fst (FileSystemManager.ValidateInputDirectory os path) in
  let t := snd (FileSystemManager.ValidateInputDirectory os path) in
  (err = None
   <-> Os.Stat os path = Os.StatInfo true
       /\ is_ok (Os.ReadDir os path) = true)
  /\ existsb Os.is_write t = false
  /\ (Os.Stat os path = Os.StatInfo false
      \/ (exists msg, Os.Stat os path = Os.StatErr true msg) ->
      err = Some ("input directory does not exist: " ++ path)
      /\ t = [Os.CStat path])
  /\ (forall msg,
         Os.Stat os path = Os.StatErr false msg ->
         err = Some ("failed to check input directory: " ++ msg)
         /\ t = [Os.CStat path])
  /\ (forall msg,
         Os.Stat os path = Os.StatInfo true ->
         Os.ReadDir os path = Err msg ->
         err = Some ("input directory is not readable: " ++ msg)
         /\ t = [Os.CStat path; Os.CReadDir path]).
Proof.
  cbv zeta.
  unfold FileSystemManager.ValidateInputDirectory,
    FileSystemManager.DirectoryExists, Os.bind, Os.call, Os.ret.
  destruct (Os.Stat os path) as [[|]|[|] msg]; cbn;
    try destruct (Os.ReadDir os path) as [entries|e]; cbn;
    repeat split; intros;
    repeat match goal with
           | H : _ \/ _ |- _ => destruct H
           | H : _ /\ _ |- _ => destruct H
           | H : exists _, _ |- _ => destruct H
           end;
    try discriminate; try congruence.
Qed.

Lemma ValidateInputDirectory_checks_witness :
  let os := {| Os.Stat := fun _ => Os.StatInfo false;
               Os.MkdirAll := fun _ _ => None;
               Os.ReadDir := fun _ => Err "not a directory";
               Os.WriteFile := fun _ _ _ => None;
               Os.Remove := fun _ => None |} in
  fst (FileSystemManager.ValidateInputDirectory os "photo.png")
  = Some "input directory does not exist: photo.png".
Proof.
  intros os.
  apply (proj1 (proj2 (proj2 (ValidateInputDirectory_checks os "photo.png")))).
  left. reflexivity.
Defined.

(** X19.  [EnsureOutputDirectory] returns no error exactly when the directory is
    there or could be made, and the probe file could be written.  It
    calls [os.MkdirAll] only for a path that [os.Stat] did not report as
    a directory (also for a path that exists as a plain file); it writes
    and removes nothing but its probe file [.write_test] in the
    directory, and removes it only after having written it; on success
    the last two calls are that write and that removal. *)
Theorem EnsureOutputDirectory_probe (os : Os.FS) (path : string) :
  let err := fst (FileSystemManager.EnsureOutputDirectory os path) in
  let t := snd (FileSystemManager.EnsureOutputDirectory os path) in
  let probe := FileSystemManager.testFile path in
  (err = None
   <-> (Os.Stat os path = Os.StatInfo true
        \/ ((Os.Stat os path = Os.StatInfo false
             \/ exists msg, Os.Stat os path = Os.StatErr true msg)
            /\ Os.MkdirAll os path 493 = None))
       /\ Os.WriteFile os probe "test" 420 = None)
  /\ (forall dir perm,
         In (Os.CMkdirAll dir perm) t ->
         dir = path /\ perm = 493%Z /\ Os.Stat os path <> Os.StatInfo true)
  /\ (forall file data perm,
         In (Os.CWriteFile file data perm) t ->
         file = probe /\ data = "test" /\ perm = 420%Z)
  /\ (forall file, In (Os.CRemove file) t -> file = probe /\ err = None)
  /\ (err = None ->
      exists before,
        t = (before ++ [Os.CWriteFile probe "test" 420; Os.CRemove probe])%list)
  /\ Filepath.Base probe = ".write_test".
Proof.
  cbv zeta.
  split; [|split; [|split; [|split; [|split]]]].
  6:{ unfold FileSystemManager.testFile. now apply Base_Join_plain. }
  all: unfold FileSystemManager.EnsureOutputDirectory,
         FileSystemManager.DirectoryExists, FileSystemManager.CreateDirectory,
         FileSystemManager.probe, Os.bind, Os.call, Os.ret;
       destruct (Os.Stat os path) as [[|]|[|] msg]; cbn;
       try destruct (Os.MkdirAll os path 493) as [e1|]; cbn;
       try destruct (Os.WriteFile os (FileSystemManager.testFile path)
                                  "test" 420) as [e2|]; cbn.
  all: try (split; [discriminate|];
            intros [[H|[[H|[m H]] H']] H'']; discriminate).
  all: try (split; [intros _|reflexivity]; split; [|reflexivity]; tauto).
  all: try (split; [intros _|reflexivity]; split; [|reflexivity];
            right; split; [|reflexivity]; eauto).
  all: try (intros dir perm H;
            repeat (destruct H as [H|H]; try discriminate H);
            try contradiction;
            injection H as <- <-; repeat split; discriminate).
  all: try (intros file data perm H;
            repeat (destruct H as [H|H]; try discriminate H);
            try contradiction;
            injection H as <- <- <-; repeat split).
  all: try (intros file H;
            repeat (destruct H as [H|H]; try discriminate H);
            try contradiction;
            injection H as <-; repeat split).
  all: try discriminate.
  all: try (intros _; exists []; reflexivity).
  all: try (intros _; exists [Os.CStat path]; reflexivity).
  all: try (intros _; exists [Os.CStat path; Os.CMkdirAll path 493];
            reflexivity).
Qed.

Lemma EnsureOutputDirectory_probe_witness :
  let os := {| Os.Stat := fun _ => Os.StatInfo false;
               Os.MkdirAll := fun _ _ => None;
               Os.ReadDir := fun _ => Ok [];
               Os.WriteFile := fun _ _ _ => None;
               Os.Remove := fun _ => Some "permission denied" |} in
  FileSystemManager.EnsureOutputDirectory os "out"
  = (None, [Os.CStat "out"; Os.CMkdirAll "out" 493;
            Os.CWriteFile "out/.write_test" "test" 420;
            Os.CRemove "out/.write_test"])
  /\ exists before,
       snd (FileSystemManager.EnsureOutputDirectory os "out")
       = (before ++ [Os.CWriteFile "out/.write_test" "test" 420;
                     Os.CRemove "out/.write_test"])%list.
Proof.
  intros os. split; [reflexivity|].
  apply (proj1 (proj2 (proj2 (proj2 (proj2
           (EnsureOutputDirectory_probe os "out")))))).
  reflexivity.
Defined.

(** ** The pool: slots and progress numbers *)

Section PoolFacts.
Import Records Env Converter StatsOps Batch Progress.
Local Open Scope list_scope.
Local Open Scope Z_scope.
Variable w : World.
Variable numWorkers : Z.
Variable outputDir : string.

Lemma slots_split pre g post :
  slots_in_use (pre ++ g :: post)
  = slots_in_use pre + (if holds_slot g then 1 else 0) + slots_in_use post.
Proof.
  unfold slots_in_use. rewrite filter_app, length_app. cbn [filter].
  destruct (holds_slot g); cbn [List.length]; lia.
Qed.

Lemma started_split pre g post :
  started_count (pre ++ g :: post)
  = started_count pre + (if started g then 1 else 0) + started_count post.
Proof.
  unfold started_count. rewrite filter_app, length_app. cbn [filter].
  destruct (started g); cbn [List.length]; lia.
Qed.

Lemma started_count_bound ws :
  0 <= started_count ws <= Z.of_nat (List.length ws).
Proof.
  unfold started_count. pose proof (filter_length_le started ws). lia.
Qed.

Lemma running_indices_split pre g post :
  running_indices (pre ++ g :: post)
  = running_indices pre ++ running_indices [g] ++ running_indices post.
Proof.
  induction pre as [|x pre IH]; cbn [app running_indices].
  - destruct (wstage g); reflexivity.
  - rewrite IH. destruct (wstage x); reflexivity.
Qed.

Lemma steps_invariant (P : Pool -> Prop) :
  (forall p q, P p -> step w numWorkers outputDir p q -> P q) ->
  forall p q, P p -> steps w numWorkers outputDir p q -> P q.
Proof.
  intros Hstep p q Hp Hs. induction Hs as [p | p q r Hpq _ IH]; [exact Hp|].
  apply IH. now apply (Hstep p q).
Qed.

(** The semaphore: never more holders than slots. *)
Lemma slots_step p q :
  0 <= slots_in_use (workers p) <= Z.max 0 numWorkers ->
  step w numWorkers outputDir p q ->
  0 <= slots_in_use (workers q) <= Z.max 0 numWorkers.
Proof.
  intros H Hstep.
  destruct Hstep as [p pre f post Hw Hslot | p pre f i post Hw | p pre f r post Hw];
    cbn [workers]; rewrite Hw in *; rewrite slots_split in *;
    cbn [holds_slot wstage] in *;
    assert (0 <= slots_in_use pre) by (unfold slots_in_use; lia);
    assert (0 <= slots_in_use post) by (unfold slots_in_use; lia); lia.
Qed.

Lemma slots_spawn files c : slots_in_use (workers (spawn files c)) = 0.
Proof.
  unfold spawn, slots_in_use. cbn [workers].
  induction files as [|f files IH]; [reflexivity | exact IH].
Qed.

Lemma Forall_weaken (a b : Z) l :
  a <= b -> Forall (fun i => 1 <= i <= a) l -> Forall (fun i => 1 <= i <= b) l.
Proof.
  intros Hab H. apply (Forall_impl _ (P := fun i => 1 <= i <= a)); [|exact H].
  intros i Hi. lia.
Qed.

Lemma counted_step n p q :
  Z.of_nat n <= GoInt.max_int ->
  counted n p -> step w numWorkers outputDir p q -> counted n q.
Proof.
  intros Hn (Hlen & Hpc & Hall) Hstep. unfold counted.
  destruct Hstep as [p pre f post Hw Hslot | p pre f i post Hw | p pre f r post Hw];
    cbn [workers processedCount]; rewrite Hw in *;
    rewrite started_split in *; rewrite running_indices_split in *;
    rewrite length_app in *; cbn [List.length] in *;
    cbn [started wstage running_indices] in *;
    pose proof (started_count_bound pre) as Bpre;
    pose proof (started_count_bound post) as Bpost.
  - assert (Hincr : GoInt.incr (processedCount p) = processedCount p + 1).
    { apply incr_small. unfold GoInt.min_int, GoInt.max_int in *. lia. }
    rewrite Hincr. split; [exact Hlen|]. split; [lia|].
    apply Forall_app in Hall. destruct Hall as [H1 H2]. cbn [app] in H2.
    apply Forall_app. split; [|cbn [app]; constructor].
    + apply (Forall_weaken (processedCount p)); [lia | exact H1].
    + lia.
    + apply (Forall_weaken (processedCount p)); [lia | exact H2].
  - split; [exact Hlen|]. split; [lia|].
    apply Forall_app in Hall. destruct Hall as [H1 H2]. cbn [app] in H2.
    apply Forall_app. split; [exact H1|]. cbn [app].
    now inversion H2.
  - split; [exact Hlen|]. split; [lia | exact Hall].
Qed.

Lemma counted_spawn files c :
  counted (List.length files) (spawn files c).
Proof.
  unfold counted, spawn. cbn [workers processedCount].
  split; [apply length_map|].
  assert (H : forall l, filter started
                          (map (fun f => {| wfile := f; wstage := Waiting |}) l)
                        = []
                        /\ running_indices
                             (map (fun f => {| wfile := f; wstage := Waiting |}) l)
                           = []).
  { induction l as [|x l [IH1 IH2]]; [split; reflexivity|]. cbn. now split. }
  destruct (H files) as [H1 H2]. unfold started_count.
  rewrite H1, H2. split; [reflexivity | constructor].
Qed.

Lemma drained_all_started ws :
  forallb is_finished ws = true -> filter started ws = ws.
Proof.
  induction ws as [|g ws IH]; cbn; [reflexivity|].
  intros H. apply andb_prop in H. destruct H as [Hg Hws].
  rewrite (IH Hws). unfold is_finished in Hg. unfold started.
  destruct (wstage g); try discriminate Hg. reflexivity.
Qed.

(** The two updates of the counters commute. *)
Lemma apply_op_comm c a b :
  apply_op (apply_op c a) b = apply_op (apply_op c b) a.
Proof.
  destruct a as [ra|], b as [rb|]; cbn [apply_op];
    unfold UpdateStats, IncrementSkipped, set_stats;
    try destruct (crSuccess ra); try destruct (crSuccess rb); reflexivity.
Qed.

Lemma run_ops_perm ops1 ops2 c :
  Permutation ops1 ops2 -> run_ops ops1 c = run_ops ops2 c.
Proof.
  intros H. revert c.
  induction H as [| x l l' _ IH | x y l | l l' l'' _ IH1 _ IH2]; intros c.
  - reflexivity.
  - cbn. apply IH.
  - cbn. now rewrite apply_op_comm.
  - now rewrite IH1.
Qed.

End PoolFacts.

(** X20.  The semaphore holds: in every state that the pool reaches, the number
    of goroutines that have taken a slot and not yet given it back is at
    most the number of slots. *)
Theorem semaphore_bound (w : Env.World) (numWorkers : Z) (outputDir : string)
        (imageFiles : list string) (c : Converter.ConverterT)
        (p : Converter.Pool) :
  Converter.steps w numWorkers outputDir (Converter.spawn imageFiles c) p ->
  (0 <= Converter.slots_in_use (Converter.workers p) <= Z.max 0 numWorkers)%Z.
Proof.
  apply (steps_invariant w numWorkers outputDir
           (fun p => (0 <= Converter.slots_in_use (Converter.workers p)
                      <= Z.max 0 numWorkers)%Z)).
  - intros p0 q. apply slots_step.
  - rewrite slots_spawn. lia.
Qed.

Lemma semaphore_bound_witness :
  exists p,
    Converter.steps Scenario.world 1 "out"
      (Converter.spawn ["in/a.png"; "in/c.png"]
                       (Converter.NewConverter Scenario.cfg)) p
    /\ Converter.slots_in_use (Converter.workers p) = 1%Z
    /\ (0 <= Converter.slots_in_use (Converter.workers p) <= Z.max 0 1)%Z.
Proof.
  eexists. split; [|split].
  - eapply Converter.steps_cons; [|apply Converter.steps_refl].
    apply (Converter.step_start Scenario.world 1 "out"
             (Converter.spawn ["in/a.png"; "in/c.png"]
                              (Converter.NewConverter Scenario.cfg))
             [] "in/a.png"
             [{| Converter.wfile := "in/c.png";
                 Converter.wstage := Converter.Waiting |}]);
      [reflexivity | vm_compute; reflexivity].
  - reflexivity.
  - apply (semaphore_bound Scenario.world 1 "out" ["in/a.png"; "in/c.png"]
             (Converter.NewConverter Scenario.cfg)).
    eapply Converter.steps_cons; [|apply Converter.steps_refl].
    apply (Converter.step_start Scenario.world 1 "out"
             (Converter.spawn ["in/a.png"; "in/c.png"]
                              (Converter.NewConverter Scenario.cfg))
             [] "in/a.png"
             [{| Converter.wfile := "in/c.png";
                 Converter.wstage := Converter.Waiting |}]);
      [reflexivity | vm_compute; reflexivity].
Defined.

(** X21.  The progress numbers, for a batch whose size fits an [int]: in every
    state that the pool reaches, the progress counter is the number of
    goroutines that have started, every number held by a converting
    goroutine lies between 1 and the counter, and the counter does not
    exceed the number of image files; when all goroutines are done it
    equals that number. *)
Theorem progress_numbers (w : Env.World) (numWorkers : Z) (outputDir : string)
        (imageFiles : list string) (c : Converter.ConverterT)
        (p : Converter.Pool) :
  (Z.of_nat (List.length imageFiles) <= GoInt.max_int)%Z ->
  Converter.steps w numWorkers outputDir (Converter.spawn imageFiles c) p ->
  Converter.processedCount p = Progress.started_count (Converter.workers p)
  /\ (0 <= Converter.processedCount p <= Z.of_nat (List.length imageFiles))%Z
  /\ Forall (fun i => (1 <= i <= Converter.processedCount p)%Z)
            (Progress.running_indices (Converter.workers p))
  /\ (Converter.drained p ->
      Converter.processedCount p = Z.of_nat (List.length imageFiles)).
Proof.
  intros Hlen Hsteps.
  assert (H : Progress.counted (List.length imageFiles) p).
  { apply (steps_invariant w numWorkers outputDir
             (Progress.counted (List.length imageFiles))
             (fun p0 q => counted_step w numWorkers outputDir _ p0 q Hlen)
             _ p (counted_spawn imageFiles c) Hsteps). }
  destruct H as (Hn & Hpc & Hall).
  pose proof (started_count_bound (Converter.workers p)) as Hb.
  rewrite Hn in Hb.
  split; [exact Hpc|]. split; [lia|]. split; [exact Hall|].
  intros Hd. rewrite Hpc. unfold Progress.started_count.
  unfold Converter.drained in Hd. now rewrite (drained_all_started _ Hd), Hn.
Qed.

Lemma progress_numbers_witness :
  exists p,
    Converter.steps Scenario.world 1 "out"
      (Converter.spawn ["in/a.png"; "in/c.png"]
                       (Converter.NewConverter Scenario.cfg)) p
    /\ Converter.processedCount p = 1%Z
    /\ Forall (fun i => (1 <= i <= Converter.processedCount p)%Z)
              (Progress.running_indices (Converter.workers p)).
Proof.
  eexists. split; [|split].
  - eapply Converter.steps_cons; [|apply Converter.steps_refl].
    apply (Converter.step_start Scenario.world 1 "out"
             (Converter.spawn ["in/a.png"; "in/c.png"]
                              (Converter.NewConverter Scenario.cfg))
             [] "in/a.png"
             [{| Converter.wfile := "in/c.png";
                 Converter.wstage := Converter.Waiting |}]);
      [reflexivity | vm_compute; reflexivity].
  - reflexivity.
  - apply (proj1 (proj2 (proj2
             (progress_numbers Scenario.world 1 "out" ["in/a.png"; "in/c.png"]
                (Converter.NewConverter Scenario.cfg) _
                (fun H : (2 ?= GoInt.max_int)%Z = Gt => ltac:(discriminate H))
                ltac:(eapply Converter.steps_cons;
                      [|apply Converter.steps_refl];
                      apply (Converter.step_start Scenario.world 1 "out"
                               (Converter.spawn ["in/a.png"; "in/c.png"]
                                  (Converter.NewConverter Scenario.cfg))
                               [] "in/a.png"
                               [{| Converter.wfile := "in/c.png";
                                   Converter.wstage := Converter.Waiting |}]);
                      [reflexivity | vm_compute; reflexivity]))))).
Defined.

(** X22.  The counters do not depend on the schedule.  Counter updates applied
    in any two orders leave the same converter, and any two runs of
    [ProcessDirectory] on the same input convert the same files and end
    with the same counters. *)
Theorem schedule_independence (w : Env.World) (numWorkers : Z)
        (outputDir inputDir : string) (cfg : Records.Config)
        (fs : Converter.FileSystemScanner) :
  (forall ops1 ops2 c,
      Permutation ops1 ops2 ->
      StatsOps.run_ops ops1 c = StatsOps.run_ops ops2 c)
  /\ (forall err1 c1 p1 err2 c2 p2,
         Converter.ProcessDirectory w numWorkers outputDir
           (Converter.NewConverter cfg) inputDir fs err1 c1 p1 ->
         Converter.ProcessDirectory w numWorkers outputDir
           (Converter.NewConverter cfg) inputDir fs err2 c2 p2 ->
         err1 = err2
         /\ c1 = c2
         /\ Permutation (Converter.invoked p1) (Converter.invoked p2)).
Proof.
  split; [intros ops1 ops2 c; apply run_ops_perm|].
  intros err1 c1 p1 err2 c2 p2 H1 H2.
  destruct (Converter.ScanDirectory fs inputDir) as [files|e] eqn:Hscan.
  - destruct (ProcessDirectory_outcome w numWorkers outputDir cfg fs inputDir
                files err1 c1 p1 Hscan H1) as (-> & Hc1 & _ & Hp1 & Hs1).
    destruct (ProcessDirectory_outcome w numWorkers outputDir cfg fs inputDir
                files err2 c2 p2 Hscan H2) as (-> & Hc2 & _ & Hp2 & Hs2).
    assert (Hperm : Permutation (Converter.invoked p1) (Converter.invoked p2)).
    { eapply Permutation_trans; [exact Hp1 | now apply Permutation_sym]. }
    split; [reflexivity|]. split; [|exact Hperm].
    assert (Hcfg : forall err c' p,
               Converter.ProcessDirectory w numWorkers outputDir
                 (Converter.NewConverter cfg) inputDir fs err c' p ->
               Converter.config c' = cfg).
    { intros err c' p Hrun.
      destruct Hrun as [e He | files' imageFiles c0 p Hscan' Hpart Hsteps _];
        [reflexivity|].
      rewrite partition_files_spec in Hpart. injection Hpart as <- <-.
      pose proof (Inv_steps w numWorkers outputDir _ _ _ _ p
                    (Inv_spawn w outputDir _ _ _ (run_ops_stats cfg _))
                    Hsteps) as Hinv.
      destruct Hinv as (Hconfig & _). rewrite Hconfig.
      apply run_ops_config. }
    pose proof (Hcfg _ _ _ H1) as Hcfg1. pose proof (Hcfg _ _ _ H2) as Hcfg2.
    assert (Hstats : Converter.stats c1 = Converter.stats c2).
    { rewrite Hs1, Hs2, <- !(run_ops_stats cfg). f_equal.
      apply run_ops_perm, Permutation_app_head, Permutation_map, Hperm. }
    destruct c1 as [cf1 st1], c2 as [cf2 st2]. cbn in *. congruence.
  - destruct H1 as [e1 He1 | files1 ? ? ? Hscan1 _ _ _];
      [|congruence].
    destruct H2 as [e2 He2 | files2 ? ? ? Hscan2 _ _ _];
      [|congruence].
    assert (e1 = e2) by congruence. subst e2.
    split; [reflexivity|]. split; [reflexivity|]. apply Permutation_refl.
Qed.

(** X14.  The failures of [ConvertImage] before the saver.  A source that
    cannot be opened is not decoded, and one that cannot be decoded is not
    resized; both come back as "failed to load image" with no output path.
    The format is resolved only after the picture has been resized: for a
    source that decodes but whose format cannot be resolved, the calls of
    [ResizeImage] have been made (and their work is lost) when the
    "failed to detect format" result is returned. *)
Theorem ConvertImage_early_failures (w : Env.World) (c : Converter.ConverterT)
        (sourcePath outputDir : string) :
  (forall e,
      Env.os_Open w sourcePath = Err e ->
      Converter.ConvertImage w c sourcePath outputDir
      = (Converter.failure sourcePath ""
           ("failed to load image: failed to open file: " ++ e),
         [Env.EvOpen sourcePath]))
  /\ (forall file e,
         Env.os_Open w sourcePath = Ok file ->
         Env.image_Decode w file = Err e ->
         Converter.ConvertImage w c sourcePath outputDir
         = (Converter.failure sourcePath ""
              ("failed to load image: failed to decode image: " ++ e),
            [Env.EvOpen sourcePath; Env.EvDecode sourcePath]))
  /\ (forall file img e,
         Env.os_Open w sourcePath = Ok file ->
         Env.image_Decode w file = Ok img ->
         Converter.resolve_format c sourcePath = Err e ->
         Converter.ConvertImage w c sourcePath outputDir
         = (Converter.failure sourcePath "" ("failed to detect format: " ++ e),
            ([Env.EvOpen sourcePath; Env.EvDecode sourcePath]
             ++ snd (Resize.ResizeImage w img (Converter.resizeSpec_of c)))%list)).
Proof.
  split; [|split].
  - intros e Ho. unfold Converter.ConvertImage, Converter.Load,
      Env.bind, Env.emit, Env.ret. now rewrite Ho.
  - intros file e Ho Hd. unfold Converter.ConvertImage, Converter.Load,
      Env.bind, Env.emit, Env.ret. now rewrite Ho, Hd.
  - intros file img e Ho Hd Hr. unfold Converter.ConvertImage, Converter.Load.
    unfold Env.bind at 1 2 3. unfold Env.emit, Env.ret. rewrite Ho, Hd.
    cbn [app]. unfold Env.bind.
    destruct (Resize.ResizeImage w img (Converter.resizeSpec_of c))
      as [resized t].
    rewrite Hr. cbn [snd app]. now rewrite app_nil_r.
Qed.

Lemma ConvertImage_early_failures_witness :
  snd (Converter.ConvertImage Scenario.world
         (Converter.NewConverter Scenario.cfg_keep_format) "in/d.tiff" "out")
  = [Env.EvOpen "in/d.tiff"; Env.EvDecode "in/d.tiff";
     Env.EvNewRGBA 50 50; Env.EvScale 50 50].
Proof.
  rewrite (proj2 (proj2 (ConvertImage_early_failures Scenario.world
                           (Converter.NewConverter Scenario.cfg_keep_format)
                           "in/d.tiff" "out"))
             "png bytes" Scenario.picture
             "unsupported image format: .tiff" eq_refl eq_refl eq_refl).
  reflexivity.
Defined.

(** X23.  The counters while the pool is running, for a batch whose size fits
    an [int].  All skipped files are counted before the first goroutine
    starts; from then on, in every state that the pool reaches, [Skipped]
    stays at their number, [Total] is that number plus the number of
    files converted so far, [Success] and [Failed] add up to the number
    of files converted so far, and only image files have been
    converted. *)
Theorem stats_during_run (w : Env.World) (numWorkers : Z) (outputDir : string)
        (cfg : Records.Config) (fs : Converter.FileSystemScanner)
        (files : list string) (p : Converter.Pool) :
  (Z.of_nat (List.length files) <= GoInt.max_int)%Z ->
  Converter.steps w numWorkers outputDir
    (Converter.spawn
       (fst (Converter.partition_files fs files []
               (Converter.NewConverter cfg)))
       (snd (Converter.partition_files fs files []
               (Converter.NewConverter cfg)))) p ->
  let s := Converter.stats (Converter.conv p) in
  let skipped :=
    Z.of_nat (List.length
                (filter (fun f => negb (Converter.IsImageFile fs f)) files)) in
  let converted := Z.of_nat (List.length (Converter.invoked p)) in
  Records.Skipped s = skipped
  /\ Records.Total s = (skipped + converted)%Z
  /\ (Records.Success s + Records.Failed s = converted)%Z
  /\ (skipped + converted <= Z.of_nat (List.length files))%Z
  /\ (forall f, In f (Converter.invoked p) ->
                Converter.IsImageFile fs f = true).
Proof.
  intros Hlen Hsteps s skipped converted.
  rewrite partition_files_spec in Hsteps. cbn [fst snd app] in Hsteps.
  set (images := filter (Converter.IsImageFile fs) files) in *.
  set (skips := map (fun _ : string => StatsOps.OpSkip)
                    (filter (fun f => negb (Converter.IsImageFile fs f))
                            files)) in *.
  pose proof (Inv_steps w numWorkers outputDir images _ skips _ p
                (Inv_spawn w outputDir images _ skips (run_ops_stats cfg skips))
                Hsteps) as (Hcfg & Hfiles & Hperm & Hstats).
  pose proof (filter_length_split (Converter.IsImageFile fs) files) as Hsplit.
  fold images in Hsplit.
  assert (Hsub : (List.length (Converter.invoked p) <= List.length images)%nat).
  { rewrite (Permutation_length Hperm), length_map, <- Hfiles, length_map.
    apply filter_length_le. }
  assert (Hin : forall f, In f (Converter.invoked p) -> In f images).
  { intros f Hf. apply (Permutation_in _ Hperm) in Hf.
    apply in_map_iff in Hf. destruct Hf as (g & <- & Hg).
    apply filter_In in Hg. destruct Hg as [Hg _].
    rewrite <- Hfiles. now apply in_map. }
  set (ops := map (Batch.op_of w
                     (StatsOps.run_ops skips (Converter.NewConverter cfg))
                     outputDir)
                  (Converter.invoked p)) in *.
  pose proof (count_partition ops) as Hpart.
  assert (Hskip : StatsOps.count StatsOps.is_skip ops = 0%Z)
    by apply count_skip_conversions.
  assert (Hops : List.length ops = List.length (Converter.invoked p))
    by (subst ops; now rewrite length_map).
  pose proof (count_nonneg StatsOps.is_success ops) as Hs0.
  pose proof (count_nonneg StatsOps.is_failure ops) as Hf0.
  assert (Hmin : (GoInt.min_int <= 0)%Z) by (unfold GoInt.min_int; lia).
  subst s skipped converted. rewrite Hstats.
  unfold StatsOps.stats_after, StatsOps.zero_stats.
  cbn [Records.Total Records.Success Records.Failed Records.Skipped].
  rewrite !count_app, length_app. subst skips.
  rewrite !count_skips, !length_map.
  cbn [StatsOps.is_success StatsOps.is_failure StatsOps.is_skip].
  fold ops. rewrite Hskip, !wrap_small by lia.
  repeat split; try lia.
  intros f Hf. apply Hin in Hf. subst images.
  apply filter_In in Hf. tauto.
Qed.

Lemma stats_during_run_witness :
  exists p,
    Converter.steps Scenario.world 1 "out"
      (Converter.spawn
         (fst (Converter.partition_files Scenario.scanner Scenario.files []
                 (Converter.NewConverter Scenario.cfg)))
         (snd (Converter.partition_files Scenario.scanner Scenario.files []
                 (Converter.NewConverter Scenario.cfg)))) p
    /\ Records.Skipped (Converter.stats (Converter.conv p)) = 1%Z
    /\ Records.Total (Converter.stats (Converter.conv p)) = 1%Z.
Proof.
  eexists. split; [apply Converter.steps_refl|].
  destruct (stats_during_run Scenario.world 1 "out" Scenario.cfg
              Scenario.scanner Scenario.files _
              (fun H : (3 ?= GoInt.max_int)%Z = Gt => ltac:(discriminate H))
              (Converter.steps_refl Scenario.world 1 "out" _))
    as (H1 & H2 & _).
  split; [exact H1 | exact H2].
Defined.

(** ** Further facts on saving and on sizes *)

Section FurtherFacts.
Import FloatSem Types Records Env Converter Resize.
Local Open Scope R_scope.

(** Two positive normal floats of one value are one float. *)
Lemma normal_value_inj x y mx ex my ey :
  Prim2SF x = S754_finite false mx ex ->
  Prim2SF y = S754_finite false my ey ->
  normal_mantissa mx -> normal_mantissa my ->
  F2R (Zpos mx) ex = F2R (Zpos my) ey -> x = y.
Proof.
  intros Hx Hy Hnx Hny Hv.
  pose proof (F2R_normal_bounds mx ex Hnx) as Bx.
  pose proof (F2R_normal_bounds my ey Hny) as By.
  assert (He : ex = ey).
  { destruct (Z.lt_trichotomy ex ey) as [Hlt|[Heq|Hgt]]; [|exact Heq|].
    - pose proof (bpow_le (ex + 53) (ey + 52) ltac:(lia)). lra.
    - pose proof (bpow_le (ey + 53) (ex + 52) ltac:(lia)). lra. }
  subst ey. unfold F2R in Hv. pose proof (bpow_pos ex) as Hb.
  assert (Hm : IZR (Zpos mx) = IZR (Zpos my)) by nra.
  apply eq_IZR in Hm. injection Hm as ->.
  apply Prim2SF_inj. now rewrite Hx, Hy.
Qed.

Lemma Min_comm_normal x y mx ex my ey :
  Prim2SF x = S754_finite false mx ex ->
  Prim2SF y = S754_finite false my ey ->
  normal_mantissa mx -> normal_mantissa my ->
  F64.Min x y = F64.Min y x.
Proof.
  intros Hx Hy Hnx Hny.
  destruct (Min_normal x y mx ex my ey Hx Hy Hnx Hny) as [[-> H1]|[-> H1]];
    destruct (Min_normal y x my ey mx ex Hy Hx Hny Hnx) as [[-> H2]|[-> H2]];
    try reflexivity.
  - apply (normal_value_inj x y mx ex my ey Hx Hy Hnx Hny). lra.
  - symmetry. apply (normal_value_inj x y mx ex my ey Hx Hy Hnx Hny). lra.
Qed.

(** When the scaled length is nothing, and when it is not. *)
Lemma ratio_collapse a b c :
  (0 < a)%Z -> (0 < b)%Z -> (0 < c < 2 ^ 51)%Z -> (a * b < 2 ^ 51)%Z ->
  let d := F64.to_int (F64.Round
             (F64.mul (F64.of_int a) (F64.div (F64.of_int b) (F64.of_int c)))) in
  ((2 * (a * b) < c)%Z -> d = 0%Z) /\ ((c < 2 * (a * b))%Z -> (1 <= d)%Z).
Proof.
  intros Ha Hb Hc Hab d.
  pose proof (ratio_scaled a b c Ha Hb Hc Hab) as H. cbv zeta in H.
  fold d in H. unfold round_ratio, is_tie in H.
  set (N := (a * b)%Z) in *.
  pose proof (Z.div_mod (2 * N + c) (2 * c) ltac:(lia)) as Hdm.
  pose proof (Z.mod_pos_bound (2 * N + c) (2 * c) ltac:(lia)) as Hmod.
  set (k := ((2 * N + c) / (2 * c))%Z) in *.
  set (t := ((2 * N + c) mod (2 * c))%Z) in *.
  assert (HN : (0 < N)%Z) by (subst N; nia).
  split; intros Hcmp.
  - assert (Hk : k = 0%Z) by nia.
    destruct H as [H|[Ht H]]; [lia|]. nia.
  - assert (Hk : (1 <= k)%Z) by nia.
    destruct H as [H|[Ht H]]; [lia|].
    assert (2 <= k)%Z by nia. lia.
Qed.

End FurtherFacts.

(** X24.  The quality reaches the JPEG and the WebP encoder only: with any
    other format the result of [Save] is the same for every quality. *)
Theorem quality_only_for_jpeg_and_webp (w : Env.World) (img : Env.Image)
        (path : string) :
  (forall fmt q1 q2,
      fmt <> Types.FormatJPEG -> fmt <> Types.FormatWebP ->
      fst (Converter.Save w img path fmt q1)
      = fst (Converter.Save w img path fmt q2))
  /\ (forall q,
         Env.os_Create w path = None ->
         fst (Converter.Save w img path Types.FormatJPEG q)
         = match Env.jpeg_Encode w img q with
           | Some e => Some ("failed to encode JPEG: " ++ e)
           | None => None
           end
         /\ fst (Converter.Save w img path Types.FormatWebP q)
            = match Env.webp_Encode w img q with
              | Some e => Some ("failed to encode WebP: " ++ e)
              | None => None
              end).
Proof.
  split.
  - intros fmt q1 q2 Hj Hw. unfold Converter.Save, Env.bind, Env.emit, Env.ret.
    destruct (Env.os_Create w path); [reflexivity|].
    apply String.eqb_neq in Hj, Hw. rewrite Hj, Hw.
    repeat match goal with
           | |- context [String.eqb fmt ?k] => destruct (String.eqb fmt k)
           end; reflexivity.
  - intros q Hc. unfold Converter.Save, Env.bind, Env.emit, Env.ret.
    rewrite Hc. split; reflexivity.
Qed.

Lemma quality_only_for_jpeg_and_webp_witness :
  fst (Converter.Save Scenario.world Scenario.picture "out/a.png"
                      Types.FormatPNG 1)
  = fst (Converter.Save Scenario.world Scenario.picture "out/a.png"
                        Types.FormatPNG 100).
Proof.
  apply (proj1 (quality_only_for_jpeg_and_webp Scenario.world Scenario.picture
                  "out/a.png"));
    discriminate.
Defined.

(** X25.  With only a width requested and the product of source height and
    width below [2^51]: the height comes out as 0 when twice that product
    is below the source width (the picture is more than [2 * width] times
    as wide as it is high), and as at least 1 when twice the product is
    above the source width.  The same holds for the width when only a
    height is requested. *)
Theorem free_side_collapses (srcWidth srcHeight : Z)
        (spec : Records.ResizeSpec) :
  F64.ltb F64.zero (Records.rsScale spec) = false ->
  ((0 < Records.rsWidth spec)%Z -> (Records.rsHeight spec <= 0)%Z ->
   (0 < srcHeight)%Z -> (0 < srcWidth < 2 ^ 51)%Z ->
   (srcHeight * Records.rsWidth spec < 2 ^ 51)%Z ->
   let out := Resize.CalculateOutputSize srcWidth srcHeight spec in
   ((2 * (srcHeight * Records.rsWidth spec) < srcWidth)%Z -> snd out = 0%Z)
   /\ ((srcWidth < 2 * (srcHeight * Records.rsWidth spec))%Z ->
       (1 <= snd out)%Z))
  /\ ((Records.rsWidth spec <= 0)%Z -> (0 < Records.rsHeight spec)%Z ->
      (0 < srcWidth)%Z -> (0 < srcHeight < 2 ^ 51)%Z ->
      (srcWidth * Records.rsHeight spec < 2 ^ 51)%Z ->
      let out := Resize.CalculateOutputSize srcWidth srcHeight spec in
      ((2 * (srcWidth * Records.rsHeight spec) < srcHeight)%Z ->
       fst out = 0%Z)
      /\ ((srcHeight < 2 * (srcWidth * Records.rsHeight spec))%Z ->
          (1 <= fst out)%Z)).
Proof.
  intros Hs. split.
  - intros Hw Hh Hsh Hsw Hp. cbv zeta. unfold Resize.CalculateOutputSize.
    rewrite Hs.
    replace (0 <? Records.rsWidth spec)%Z with true
      by (symmetry; apply Z.ltb_lt; lia).
    replace (0 <? Records.rsHeight spec)%Z with false
      by (symmetry; apply Z.ltb_ge; lia).
    cbn [andb snd]. exact (ratio_collapse _ _ _ Hsh Hw Hsw Hp).
  - intros Hw Hh Hsw Hsh Hp. cbv zeta. unfold Resize.CalculateOutputSize.
    rewrite Hs.
    replace (0 <? Records.rsWidth spec)%Z with false
      by (symmetry; apply Z.ltb_ge; lia).
    replace (0 <? Records.rsHeight spec)%Z with true
      by (symmetry; apply Z.ltb_lt; lia).
    cbn [andb fst]. exact (ratio_collapse _ _ _ Hsw Hh Hsh Hp).
Qed.

Lemma free_side_collapses_witness :
  let spec := {| Records.rsScale := F64.zero;
                 Records.rsWidth := 100; Records.rsHeight := 0 |} in
  snd (Resize.CalculateOutputSize 1000 4 spec) = 0%Z.
Proof.
  intros spec.
  apply (proj1 (proj1 (free_side_collapses 1000 4 spec ltac:(reflexivity))
                      ltac:(cbn; lia) ltac:(cbn; lia) ltac:(lia) ltac:(lia)
                      ltac:(cbn; lia))).
  cbn. lia.
Defined.

(** X26.  Transposing the picture and the request transposes the result: the
    size computed for a picture turned by a quarter, with requested width
    and height exchanged, is the computed size with its sides exchanged.
    (For the fit of a box the four lengths are taken between 1 and
    [2^51 - 1].) *)
Theorem transposed_request (srcWidth srcHeight : Z)
        (spec : Records.ResizeSpec) :
  F64.ltb F64.zero (Records.rsScale spec) = true
  \/ (Records.rsWidth spec <= 0)%Z \/ (Records.rsHeight spec <= 0)%Z
  \/ ((0 < srcWidth < 2 ^ 51)%Z /\ (0 < srcHeight < 2 ^ 51)%Z
      /\ (Records.rsWidth spec < 2 ^ 51)%Z
      /\ (Records.rsHeight spec < 2 ^ 51)%Z) ->
  Resize.CalculateOutputSize srcHeight srcWidth
    {| Records.rsScale := Records.rsScale spec;
       Records.rsWidth := Records.rsHeight spec;
       Records.rsHeight := Records.rsWidth spec |}
  = (snd (Resize.CalculateOutputSize srcWidth srcHeight spec),
     fst (Resize.CalculateOutputSize srcWidth srcHeight spec)).
Proof.
  intros H. unfold Resize.CalculateOutputSize.
  cbn [Records.rsScale Records.rsWidth Records.rsHeight].
  destruct (F64.ltb F64.zero (Records.rsScale spec)) eqn:Hs; [reflexivity|].
  destruct (Z.ltb_spec 0 (Records.rsWidth spec)) as [Hw|Hw];
    destruct (Z.ltb_spec 0 (Records.rsHeight spec)) as [Hh|Hh];
    cbn [andb fst snd]; try reflexivity.
  destruct H as [H|[H|[H|(Hsw & Hsh & Hbw & Hbh)]]];
    [discriminate H | lia | lia |].
  destruct (div_of_ints srcWidth (Records.rsWidth spec) Hsw ltac:(lia))
    as (m1 & e1 & Hq1 & Hn1 & _).
  destruct (div_of_ints srcHeight (Records.rsHeight spec) Hsh ltac:(lia))
    as (m2 & e2 & Hq2 & Hn2 & _).
  now rewrite (Min_comm_normal _ _ m2 e2 m1 e1 Hq2 Hq1 Hn2 Hn1).
Qed.

Lemma transposed_request_witness :
  Resize.CalculateOutputSize 1080 1920
    {| Records.rsScale := F64.zero;
       Records.rsWidth := 600; Records.rsHeight := 800 |}
  = (snd (Resize.CalculateOutputSize 1920 1080
            {| Records.rsScale := F64.zero;
               Records.rsWidth := 800; Records.rsHeight := 600 |}),
     fst (Resize.CalculateOutputSize 1920 1080
            {| Records.rsScale := F64.zero;
               Records.rsWidth := 800; Records.rsHeight := 600 |})).
Proof.
  apply (transposed_request 1920 1080
           {| Records.rsScale := F64.zero;
              Records.rsWidth := 800; Records.rsHeight := 600 |}).
  right. right. right. cbn. lia.
Defined.
